(** * A shallow embedding of [sudoku.py]

    The solver keeps one mutable grid ([puzzle]) shared by every [Cell] through
    its [game] back-reference, an ordered list of cells ([solve_puzzle]) and a
    search cursor ([backtrack_coord]).  The embedding threads the solver record
    through every method; a method of [Cell] takes the cell and the game and
    returns both.  Python integers are [Z]; a raised exception is an outcome of
    its own, and a loop that may run for ever takes fuel. *)

From Stdlib Require Import ZArith List Bool Lia.
Import ListNotations.
Open Scope Z_scope.

(** ** Outcomes of running Python code *)

Inductive exn : Type :=
| IndexError
| ZeroDivisionError.

Inductive outcome (A : Type) : Type :=
| Ok (a : A)
| Raise (e : exn)
| Timeout.

Arguments Ok {A} a.
Arguments Raise {A} e.
Arguments Timeout {A}.

Definition bind {A B : Type} (m : outcome A) (k : A -> outcome B) : outcome B :=
  match m with
  | Ok a => k a
  | Raise e => Raise e
  | Timeout => Timeout
  end.

Notation "x <- m ;; k" := (bind m (fun x => k))
  (at level 61, m at next level, right associativity).
Notation "' p <- m ;; k" := (bind m (fun x => match x with p => k end))
  (at level 61, p pattern, m at next level, right associativity).

(** ** Python lists *)

Definition len {A : Type} (xs : list A) : Z := Z.of_nat (length xs).

(** [xs[i]]: a negative index counts from the end; outside [-len, len) the
    access raises [IndexError]. *)
Definition norm_index {A : Type} (xs : list A) (i : Z) : Z :=
  if i <? 0 then i + len xs else i.

Definition py_index {A : Type} (xs : list A) (i : Z) : outcome A :=
  let j := norm_index xs i in
  if (0 <=? j) && (j <? len xs) then
    match nth_error xs (Z.to_nat j) with
    | Some x => Ok x
    | None => Raise IndexError
    end
  else Raise IndexError.

Fixpoint update {A : Type} (xs : list A) (n : nat) (v : A) : list A :=
  match xs, n with
  | [], _ => []
  | _ :: t, O => v :: t
  | h :: t, S m => h :: update t m v
  end.

(** [xs[i] = v] *)
Definition py_setitem {A : Type} (xs : list A) (i : Z) (v : A) : outcome (list A) :=
  let j := norm_index xs i in
  if (0 <=? j) && (j <? len xs) then Ok (update xs (Z.to_nat j) v)
  else Raise IndexError.

(** [xs[a:b]]: a slice never raises, its bounds are clipped. *)
Definition clip_index {A : Type} (xs : list A) (i : Z) : Z :=
  if i <? 0 then Z.max (i + len xs) 0 else Z.min i (len xs).

Definition py_slice {A : Type} (xs : list A) (a b : Z) : list A :=
  let a' := clip_index xs a in
  let b' := clip_index xs b in
  firstn (Z.to_nat (b' - a')) (skipn (Z.to_nat a') xs).

(** [range(a, b)] *)
Definition py_range (a b : Z) : list Z :=
  map (fun k => a + Z.of_nat k) (seq 0 (Z.to_nat (b - a))).

(** A list comprehension or a [for] loop whose body may raise. *)
Fixpoint mapM {A B : Type} (f : A -> outcome B) (xs : list A) : outcome (list B) :=
  match xs with
  | [] => Ok []
  | x :: t => y <- f x ;; ys <- mapM f t ;; Ok (y :: ys)
  end.

Fixpoint foldM {A S : Type} (f : S -> A -> outcome S) (xs : list A) (s : S) : outcome S :=
  match xs with
  | [] => Ok s
  | x :: t => s' <- f s x ;; foldM f t s'
  end.

(** [len(set(values))]: the number of distinct elements. *)
Fixpoint distinct (xs : list Z) : list Z :=
  match xs with
  | [] => []
  | x :: t => if existsb (Z.eqb x) (distinct t) then distinct t else x :: distinct t
  end.

(** ** The two classes *)

Record Cell : Type := mkCell {
  solved : bool;               (* whether the cell is left out of the backtracking *)
  number : Z;                  (* the current value of the cell *)
  possibilities : list Z;      (* which numbers the cell could be *)
  row : Z;
  column : Z;
  current_index : Z            (* the index of the current possibility *)
}.

Record SudokuSolver : Type := mkSudokuSolver {
  puzzle : list (list Z);      (* the shared 2d grid *)
  solve_puzzle : list Cell;    (* 1d list of the Cell objects *)
  box_size : Z;
  backtrack_coord : Z          (* the search cursor *)
}.

Definition with_solved (c : Cell) (b : bool) : Cell :=
  mkCell b (number c) (possibilities c) (row c) (column c) (current_index c).
Definition with_number (c : Cell) (v : Z) : Cell :=
  mkCell (solved c) v (possibilities c) (row c) (column c) (current_index c).
Definition with_possibilities (c : Cell) (p : list Z) : Cell :=
  mkCell (solved c) (number c) p (row c) (column c) (current_index c).
Definition with_current_index (c : Cell) (i : Z) : Cell :=
  mkCell (solved c) (number c) (possibilities c) (row c) (column c) i.

Definition with_puzzle (g : SudokuSolver) (p : list (list Z)) : SudokuSolver :=
  mkSudokuSolver p (solve_puzzle g) (box_size g) (backtrack_coord g).
Definition with_solve_puzzle (g : SudokuSolver) (cs : list Cell) : SudokuSolver :=
  mkSudokuSolver (puzzle g) cs (box_size g) (backtrack_coord g).
Definition with_backtrack_coord (g : SudokuSolver) (k : Z) : SudokuSolver :=
  mkSudokuSolver (puzzle g) (solve_puzzle g) (box_size g) k.

(** [SudokuSolver.__init__]: [int(len(puzzle) ** .5)] is the integer square
    root for every length a list can have in practice. *)
Definition SudokuSolver_init (p : list (list Z)) : SudokuSolver :=
  mkSudokuSolver p [] (Z.sqrt (len p)) 0.

(** *** Reading the grid *)

Definition get_row (game : SudokuSolver) (row_number : Z) : outcome (list Z) :=
  py_index (puzzle game) row_number.

Definition get_column (game : SudokuSolver) (column_number : Z) : outcome (list Z) :=
  mapM (fun r => py_index r column_number) (puzzle game).

Definition find_box_start (game : SudokuSolver) (coordinate : Z) : outcome Z :=
  if box_size game =? 0 then Raise ZeroDivisionError
  else Ok (coordinate / box_size game * box_size game).

Definition get_box_coordinates (game : SudokuSolver) (row_number column_number : Z)
  : outcome (Z * Z) :=
  a <- find_box_start game column_number ;;
  b <- find_box_start game row_number ;;
  Ok (a, b).

Definition get_box (game : SudokuSolver) (row_number column_number : Z) : outcome (list Z) :=
  '(start_y, start_x) <- get_box_coordinates game row_number column_number ;;
  foldM (fun box i =>
           r <- py_index (puzzle game) i ;;
           Ok (box ++ py_slice r start_y (start_y + box_size game)))
        (py_range start_x (box_size game + start_x)) [].

(** Writing one entry of the grid: [game.puzzle[r][c] = v] mutates the row
    object held by the grid (the rows are distinct list objects). *)
Definition puzzle_set (game : SudokuSolver) (r c v : Z) : outcome SudokuSolver :=
  old <- py_index (puzzle game) r ;;
  new <- py_setitem old c v ;;
  p <- py_setitem (puzzle game) r new ;;
  Ok (with_puzzle game p).

(** *** class Cell *)

Definition check_area (area : list Z) : bool :=
  let values := filter (fun item => negb (item =? 0)) area in
  Nat.eqb (length values) (length (distinct values)).

Definition set_number (self : Cell) (game : SudokuSolver) : outcome (Cell * SudokuSolver) :=
  if negb (solved self) then
    v <- py_index (possibilities self) (current_index self) ;;
    let self1 := with_number self v in
    w <- py_index (possibilities self1) (current_index self1) ;;
    game1 <- puzzle_set game (row self1) (column self1) w ;;
    Ok (self1, game1)
  else Ok (self, game).

Definition handle_one_possibility (self : Cell) (game : SudokuSolver)
  : outcome (Cell * SudokuSolver) :=
  if len (possibilities self) =? 1 then
    let self1 := with_solved self true in
    set_number self1 game
  else Ok (self, game).

(** The candidate set is [set(range(1, 10))]; CPython keeps the integers 1..9
    of such a set in ascending slot order, and removing an element leaves the
    others in place, so the set is modelled by an ascending list and
    [list(...)] is the identity. *)
Definition set_remove (item : Z) (s : list Z) : list Z :=
  filter (fun x => negb (x =? item)) s.

Definition find_possibilities (self : Cell) (game : SudokuSolver)
  : outcome (Cell * SudokuSolver) :=
  r <- get_row game (row self) ;;
  c <- get_column game (column self) ;;
  b <- get_box game (row self) (column self) ;;
  let s := fold_left (fun s item =>
                        if existsb (Z.eqb item) s then set_remove item s else s)
                     (r ++ c ++ b) (possibilities self) in
  let self1 := with_possibilities self s in
  handle_one_possibility self1 game.

(** [Cell.__init__] *)
Definition Cell_init (column_number row_number number : Z) (game : SudokuSolver)
  : outcome (Cell * SudokuSolver) :=
  let is_solved := 0 <? number in
  let self := mkCell is_solved number
                     (if negb is_solved then py_range 1 10 else [])
                     row_number column_number 0 in
  if negb (solved self) then find_possibilities self game
  else Ok (self, game).

Definition is_valid (self : Cell) (game : SudokuSolver) : outcome bool :=
  r <- get_row game (row self) ;;
  c <- get_column game (column self) ;;
  b <- get_box game (row self) (column self) ;;
  Ok (if negb (check_area r) then false
      else if negb (check_area c) then false
      else if negb (check_area b) then false
      else true).

(** The [while] loop of [increment_value]; every round moves [current_index]
    one step towards [len(possibilities) - 1]. *)
Fixpoint increment_value_loop (fuel : nat) (self : Cell) (game : SudokuSolver)
  : outcome (Cell * SudokuSolver) :=
  v <- is_valid self game ;;
  if negb v && (current_index self <? len (possibilities self) - 1) then
    match fuel with
    | O => Timeout
    | S fuel' =>
        let self1 := with_current_index self (current_index self + 1) in
        '(self2, game2) <- set_number self1 game ;;
        increment_value_loop fuel' self2 game2
    end
  else Ok (self, game).

Definition increment_value (self : Cell) (game : SudokuSolver)
  : outcome (Cell * SudokuSolver) :=
  increment_value_loop
    (Z.to_nat (len (possibilities self) - 1 - current_index self)) self game.

(** *** class SudokuSolver *)

(** A [Cell] object held in a variable is the very object stored in
    [solve_puzzle]: running a method of the cell at position [k] updates the
    list in place. *)
Definition store_cell (game : SudokuSolver) (k : Z) (c : Cell) : outcome SudokuSolver :=
  cs <- py_setitem (solve_puzzle game) k c ;;
  Ok (with_solve_puzzle game cs).

Definition on_cell (m : Cell -> SudokuSolver -> outcome (Cell * SudokuSolver))
           (k : Z) (game : SudokuSolver) : outcome SudokuSolver :=
  c <- py_index (solve_puzzle game) k ;;
  '(c1, game1) <- m c game ;;
  store_cell game1 k c1.

Definition initialize_cell (game : SudokuSolver) (row_number column_number : Z)
  : outcome SudokuSolver :=
  r <- py_index (puzzle game) row_number ;;
  item <- py_index r column_number ;;
  '(c, game1) <- Cell_init column_number row_number item game ;;
  Ok (with_solve_puzzle game1 (solve_puzzle game1 ++ [c])).

Definition initialize_board (game : SudokuSolver) : outcome SudokuSolver :=
  foldM (fun g row_number =>
           r <- py_index (puzzle g) row_number ;;
           foldM (fun g' column_number => initialize_cell g' row_number column_number)
                 (py_range 0 (len r)) g)
        (py_range 0 (len (puzzle game))) game.

Fixpoint move_forward_loop (fuel : nat) (game : SudokuSolver) : outcome SudokuSolver :=
  if backtrack_coord game <? len (solve_puzzle game) - 1 then
    c <- py_index (solve_puzzle game) (backtrack_coord game) ;;
    if solved c then
      match fuel with
      | O => Timeout
      | S fuel' =>
          move_forward_loop fuel' (with_backtrack_coord game (backtrack_coord game + 1))
      end
    else Ok game
  else Ok game.

Definition move_forward (game : SudokuSolver) : outcome SudokuSolver :=
  move_forward_loop
    (Z.to_nat (len (solve_puzzle game) - 1 - backtrack_coord game)) game.

Fixpoint backtrack_loop (fuel : nat) (game : SudokuSolver) : outcome SudokuSolver :=
  c <- py_index (solve_puzzle game) (backtrack_coord game) ;;
  if solved c then
    match fuel with
    | O => Timeout
    | S fuel' =>
        backtrack_loop fuel' (with_backtrack_coord game (backtrack_coord game - 1))
    end
  else Ok game.

Definition backtrack (game : SudokuSolver) : outcome SudokuSolver :=
  let game1 := with_backtrack_coord game (backtrack_coord game - 1) in
  backtrack_loop
    (Z.to_nat (backtrack_coord game1 + len (solve_puzzle game1) + 1)) game1.

(** [set_cell] returns the cell at the cursor; the embedding returns the
    cursor, which names that object. *)
Definition set_cell (game : SudokuSolver) : outcome (Z * SudokuSolver) :=
  let k := backtrack_coord game in
  game1 <- on_cell set_number k game ;;
  Ok (k, game1).

Definition reset_cell (game : SudokuSolver) (k : Z) : outcome SudokuSolver :=
  c <- py_index (solve_puzzle game) k ;;
  let c1 := with_number (with_current_index c 0) 0 in
  game1 <- store_cell game k c1 ;;
  puzzle_set game1 (row c1) (column c1) 0.

Fixpoint decrement_cell_loop (fuel : nat) (game : SudokuSolver) (k : Z)
  : outcome SudokuSolver :=
  c <- py_index (solve_puzzle game) k ;;
  if current_index c =? len (possibilities c) - 1 then
    match fuel with
    | O => Timeout
    | S fuel' =>
        game1 <- reset_cell game k ;;
        game2 <- backtrack game1 ;;
        decrement_cell_loop fuel' game2 (backtrack_coord game2)
    end
  else
    store_cell game k (with_current_index c (current_index c + 1)).

Definition decrement_cell (game : SudokuSolver) (k : Z) : outcome SudokuSolver :=
  decrement_cell_loop
    (Z.to_nat (backtrack_coord game + len (solve_puzzle game) + 1)) game k.

Definition change_cells (game : SudokuSolver) (k : Z) : outcome SudokuSolver :=
  c <- py_index (solve_puzzle game) k ;;
  v <- is_valid c game ;;
  if v then Ok (with_backtrack_coord game (backtrack_coord game + 1))
  else decrement_cell game k.

(** The method [SudokuSolver.solve]: one round of the main loop. *)
Definition solve_step (game : SudokuSolver) : outcome SudokuSolver :=
  game1 <- move_forward game ;;
  '(k, game2) <- set_cell game1 ;;
  game3 <- on_cell increment_value k game2 ;;
  change_cells game3 k.

(** [run_solve]: nothing bounds the number of rounds. *)
Fixpoint run_solve (fuel : nat) (game : SudokuSolver) : outcome SudokuSolver :=
  if backtrack_coord game <=? len (solve_puzzle game) - 1 then
    match fuel with
    | O => Timeout
    | S fuel' => game1 <- solve_step game ;; run_solve fuel' game1
    end
  else Ok game.

(** The module-level function [solve]. *)
Definition solve (fuel : nat) (p : list (list Z)) : outcome (list (list Z)) :=
  let solver := SudokuSolver_init p in
  solver1 <- initialize_board solver ;;
  solver2 <- run_solve fuel solver1 ;;
  Ok (puzzle solver2).

(** The grid embedded in the source, and the grid the source calls [solution]. *)
Definition classic_puzzle : list (list Z) :=
  [[5; 3; 0; 0; 7; 0; 0; 0; 0];
   [6; 0; 0; 1; 9; 5; 0; 0; 0];
   [0; 9; 8; 0; 0; 0; 0; 6; 0];
   [8; 0; 0; 0; 6; 0; 0; 0; 3];
   [4; 0; 0; 8; 0; 3; 0; 0; 1];
   [7; 0; 0; 0; 2; 0; 0; 0; 6];
   [0; 6; 0; 0; 0; 0; 2; 8; 0];
   [0; 0; 0; 4; 1; 9; 0; 0; 5];
   [0; 0; 0; 0; 8; 0; 0; 7; 9]].

Definition solution : list (list Z) :=
  [[5; 3; 4; 6; 7; 8; 9; 1; 2];
   [6; 7; 2; 1; 9; 5; 3; 4; 8];
   [1; 9; 8; 3; 4; 2; 5; 6; 7];
   [8; 5; 9; 7; 6; 1; 4; 2; 3];
   [4; 2; 6; 8; 5; 3; 7; 9; 1];
   [7; 1; 3; 9; 2; 4; 8; 5; 6];
   [9; 6; 1; 5; 3; 7; 2; 8; 4];
   [2; 8; 7; 4; 1; 9; 6; 3; 5];
   [3; 4; 5; 2; 8; 6; 1; 7; 9]].

(** The grid [solve] returns for [classic_puzzle]. *)
Definition classic_result : list (list Z) :=
  [[5; 3; 4; 6; 7; 8; 9; 1; 2];
   [6; 7; 2; 1; 9; 5; 3; 4; 8];
   [1; 9; 8; 3; 4; 2; 5; 6; 7];
   [8; 5; 9; 7; 6; 1; 4; 2; 3];
   [4; 2; 6; 8; 0; 3; 7; 9; 1];
   [7; 1; 3; 9; 2; 4; 8; 5; 6];
   [9; 6; 1; 5; 3; 0; 2; 8; 0];
   [2; 8; 7; 4; 1; 9; 6; 0; 5];
   [3; 4; 5; 2; 8; 6; 1; 7; 9]].

(** The number of rounds of the main loop that [classic_puzzle] takes. *)
Definition classic_rounds : nat := 9077.

(** ** Vocabulary of the statements *)

(** The entry of a grid at a coordinate, rows and columns counted from 0. *)
Definition entry (p : list (list Z)) (i j : nat) : Z := nth j (nth i p []) 0.

(** A grid of [n] rows of [n] entries. *)
Definition square (n : nat) (p : list (list Z)) : Prop :=
  length p = n /\ Forall (fun r => length r = n) p.

(** Every entry is a digit 0..9, as the input of [solve] is. *)
Definition digit_grid (p : list (list Z)) : Prop :=
  Forall (Forall (fun v => 0 <= v <= 9)) p.

(** The [size] x [size] block whose top-left corner is ([top], [left]),
    flattened row by row. *)
Definition sub_block (p : list (list Z)) (top left size : nat) : list Z :=
  flat_map (fun a => map (fun b => entry p (top + a) (left + b)) (seq 0 size))
           (seq 0 size).


(** The standard board: a 9 x 9 grid with boxes of side 3. *)
Definition standard_board (game : SudokuSolver) : Prop :=
  square 9 (puzzle game) /\ box_size game = 3.

(** A digit is a candidate when it is one of 1..9 and is none of the nonzero
    digits of the row, the column and the box. *)
Definition candidate_of (r c b : list Z) (v : Z) : Prop :=
  1 <= v <= 9 /\ ~ In v (filter (fun item => negb (item =? 0)) (r ++ c ++ b)).

(** What is left of the candidates [s] once every item read was removed. *)
Definition remaining (items s : list Z) : list Z :=
  filter (fun x => negb (existsb (Z.eqb x) items)) s.

(** The grid after [p[i][j] = v]. *)
Definition grid_set (p : list (list Z)) (i j : nat) (v : Z) : list (list Z) :=
  update p i (update (nth i p []) j v).

(** [n] rounds of the main loop, without the test of [run_solve]. *)
Fixpoint rounds (n : nat) (game : SudokuSolver) : outcome SudokuSolver :=
  match n with
  | O => Ok game
  | S m => game1 <- solve_step game ;; rounds m game1
  end.

(** A state in which [increment_value] gives up: the last open cell of the
    first row of [classic_puzzle], once the search has filled the row with
    1, 2, 4, 8, 9 and tries the first of the candidates 2, 4, 8 of the cell. *)
Definition stuck_cell : Cell := mkCell false 2 [2; 4; 8] 0 8 0.
Definition stuck_game : SudokuSolver :=
  mkSudokuSolver (update classic_puzzle 0 [5; 3; 1; 2; 7; 4; 8; 9; 2]) [] 3 0.

(** The cell and the game once the candidate at index [k] of the cell's list
    is assigned: the cell holds that candidate as its number with [k] as its
    index, and the grid shows the candidate at the cell's coordinate. *)
Definition candidate_at (self : Cell) (k : Z) : Z :=
  nth (Z.to_nat k) (possibilities self) 0.
Definition cell_with (self : Cell) (k : Z) : Cell :=
  mkCell (solved self) (candidate_at self k) (possibilities self)
         (row self) (column self) k.
Definition game_with (self : Cell) (game : SudokuSolver) (k : Z) : SudokuSolver :=
  mkSudokuSolver
    (grid_set (puzzle game) (Z.to_nat (row self)) (Z.to_nat (column self))
              (candidate_at self k))
    (solve_puzzle game) (box_size game) (backtrack_coord game).

(** The coordinates of a grid in the order [initialize_board] visits them. *)
Definition row_coords (p : list (list Z)) (r : Z) : list (Z * Z) :=
  map (fun c => (r, c)) (py_range 0 (len (nth (Z.to_nat r) p []))).
Definition all_coords (p : list (list Z)) : list (Z * Z) :=
  flat_map (row_coords p) (py_range 0 (len p)).

(** What construction makes of the entry at a coordinate of the grid [p]. *)
Definition built_from (p : list (list Z)) (rc : Z * Z) (cell : Cell) : Prop :=
  row cell = fst rc /\ column cell = snd rc /\ current_index cell = 0 /\
  number cell = entry p (Z.to_nat (fst rc)) (Z.to_nat (snd rc)) /\
  (0 < number cell -> solved cell = true /\ possibilities cell = []) /\
  (number cell <= 0 -> solved cell = (len (possibilities cell) =? 1)).

(** A fully solved grid: 9 x 9, every entry one of 1..9, and no digit twice
    in a row, a column or a box. *)
Definition complete_grid (p : list (list Z)) : Prop :=
  square 9 p /\
  Forall (Forall (fun v => 1 <= v <= 9)) p /\
  (forall i, (i < 9)%nat -> NoDup (nth i p [])) /\
  (forall j, (j < 9)%nat -> NoDup (map (fun r => nth j r 0) p)) /\
  (forall i j, (i < 3)%nat -> (j < 3)%nat -> NoDup (sub_block p (3 * i) (3 * j) 3)).

(** The cell a cursor [i] names has its [solved] flag equal to [b]. *)
Definition solved_at (cells : list Cell) (i : Z) (b : bool) : Prop :=
  exists c, py_index cells i = Ok c /\ solved c = b.


Definition state_or (d : SudokuSolver) (o : outcome SudokuSolver) : SudokuSolver :=
  match o with
  | Ok g => g
  | _ => d
  end.



(** What the search never changes in a cell, and where the cell sits. *)
Definition static (c : Cell) : bool * list Z * Z * Z :=
  (solved c, possibilities c, row c, column c).
Definition coords (c : Cell) : Z * Z := (row c, column c).

(** An entry that is kept or cleared, and a grid some entries of which were
    cleared. *)
Definition faded (a b : Z) : Prop := b = a \/ b = 0.
Definition cleared (p p' : list (list Z)) : Prop := Forall2 (Forall2 faded) p p'.

(** The cell holds an assigned value: its number is the candidate under its
    cursor, and the grid shows that number at the cell's coordinate. *)
Definition assigned (c : Cell) (g : SudokuSolver) : Prop :=
  py_index (possibilities c) (current_index c) = Ok (number c) /\
  entry (puzzle g) (Z.to_nat (row c)) (Z.to_nat (column c)) = number c.

(** The states of the main loop: the board built from a grid, and what a
    round of [run_solve] makes of a state that passes the loop test. *)
Inductive reachable (p : list (list Z)) : SudokuSolver -> Prop :=
| reach_start (g : SudokuSolver) :
    initialize_board (SudokuSolver_init p) = Ok g -> reachable p g
| reach_round (g g' : SudokuSolver) :
    reachable p g ->
    backtrack_coord g <= len (solve_puzzle g) - 1 ->
    solve_step g = Ok g' ->
    reachable p g'.

(** Cursors are never negative inside a cell, cells sit at distinct
    coordinates that are not negative, and the box size is not negative. *)
Definition well_formed (g : SudokuSolver) : Prop :=
  Forall (fun c => 0 <= current_index c) (solve_puzzle g) /\
  Forall (fun rc => 0 <= fst rc /\ 0 <= snd rc) (map coords (solve_puzzle g)) /\
  NoDup (map coords (solve_puzzle g)) /\
  0 <= box_size g.

(** Every cell before the cursor is fixed or holds a valid assigned value. *)
Definition settled_before_cursor (g : SudokuSolver) : Prop :=
  forall (n : nat) (c : Cell),
    Z.of_nat n < backtrack_coord g ->
    nth_error (solve_puzzle g) n = Some c ->
    solved c = true \/ (is_valid c g = Ok true /\ assigned c g).

(** The grid [p'] is [p] with the value now held by the open cell written at
    the cell's coordinate. *)
Definition wrote (c c' : Cell) (p p' : list (list Z)) : Prop :=
  solved c = false /\
  exists v,
    p' = grid_set p (Z.to_nat (row c)) (Z.to_nat (column c)) v /\
    number c' = v /\
    py_index (possibilities c') (current_index c') = Ok v /\
    row c < len p /\ column c < len (nth (Z.to_nat (row c)) p []).

(** What the retreat ([decrement_cell]) makes of a state: cells keep their
    fixed part, the cursor does not advance, grid entries are kept or cleared,
    and only cells at or after the new cursor (with candidates) are touched. *)
Definition retreat_effect (g g' : SudokuSolver) : Prop :=
  box_size g' = box_size g /\
  map static (solve_puzzle g') = map static (solve_puzzle g) /\
  Forall (fun c => 0 <= current_index c) (solve_puzzle g') /\
  backtrack_coord g' <= backtrack_coord g /\
  cleared (puzzle g) (puzzle g') /\
  (forall n, Z.of_nat n < backtrack_coord g' ->
             nth_error (solve_puzzle g') n = nth_error (solve_puzzle g) n) /\
  (forall i j,
      entry (puzzle g') i j = entry (puzzle g) i j \/
      exists n c, nth_error (solve_puzzle g) n = Some c /\
                  row c = Z.of_nat i /\ column c = Z.of_nat j /\
                  backtrack_coord g' <= Z.of_nat n /\
                  possibilities c <> []).

(** Every cell before position [k] is fixed or holds a valid assigned value. *)
Definition settled_below (k : Z) (g : SudokuSolver) : Prop :=
  forall (n : nat) (c : Cell),
    Z.of_nat n < k ->
    nth_error (solve_puzzle g) n = Some c ->
    solved c = true \/ (is_valid c g = Ok true /\ assigned c g).

(** A grid entry changes only at the coordinate of a cell that is open or has
    candidates. *)
Definition writes_own_entries (g g' : SudokuSolver) : Prop :=
  forall i j,
    entry (puzzle g') i j = entry (puzzle g) i j \/
    exists n c, nth_error (solve_puzzle g) n = Some c /\
                row c = Z.of_nat i /\ column c = Z.of_nat j /\
                (solved c = false \/ possibilities c <> []).

(** A clue is an entry of the input grid that is not empty.  The cell of a
    clue is fixed and has no candidate, and the grid still shows the clue. *)
Definition clue_rule (p : list (list Z)) (s : bool * list Z * Z * Z) : Prop :=
  0 < entry p (Z.to_nat (snd (fst s))) (Z.to_nat (snd s)) ->
  fst (fst (fst s)) = true /\ snd (fst (fst s)) = [].
Definition clues_fixed (p : list (list Z)) (g : SudokuSolver) : Prop :=
  Forall (clue_rule p) (map static (solve_puzzle g)).
Definition clues_kept (p : list (list Z)) (g : SudokuSolver) : Prop :=
  forall i j, 0 < entry p i j -> entry (puzzle g) i j = entry p i j.

(** A grid [solve] finishes in a few rounds: the first two rows of
    [classic_puzzle] over the last seven of [solution]. *)
Definition easy_puzzle : list (list Z) :=
  [[5; 3; 0; 0; 7; 0; 0; 0; 0];
   [6; 0; 0; 1; 9; 5; 0; 0; 0];
   [1; 9; 8; 3; 4; 2; 5; 6; 7];
   [8; 5; 9; 7; 6; 1; 4; 2; 3];
   [4; 2; 6; 8; 5; 3; 7; 9; 1];
   [7; 1; 3; 9; 2; 4; 8; 5; 6];
   [9; 6; 1; 5; 3; 7; 2; 8; 4];
   [2; 8; 7; 4; 1; 9; 6; 3; 5];
   [3; 4; 5; 2; 8; 6; 1; 7; 9]].
Definition easy_result : list (list Z) := Eval vm_compute in
    match solve 6 easy_puzzle with
    | Ok r => r
    | _ => []
    end.
Definition easy_start : SudokuSolver := Eval vm_compute in
    state_or (SudokuSolver_init easy_puzzle)
             (initialize_board (SudokuSolver_init easy_puzzle)).

(** ** Vocabulary of the properties of the whole search *)

(** No digit other than 0 stands twice in a row, a column or a box of a
    9 x 9 grid: what [check_area] tests, unit by unit. *)
Definition duplicate_free (p : list (list Z)) : Prop :=
  (forall i, (i < 9)%nat -> check_area (nth i p []) = true) /\
  (forall j, (j < 9)%nat -> check_area (map (fun r => nth j r 0) p) = true) /\
  (forall i j, (i < 3)%nat -> (j < 3)%nat ->
               check_area (sub_block p (3 * i) (3 * j) 3) = true).


(** Whether the cell of a 9 x 9 board at row [i], column [j] is fixed. *)
Definition cell_fixed (g : SudokuSolver) (i j : nat) : bool :=
  match nth_error (solve_puzzle g) (9 * i + j) with
  | Some c => solved c
  | None => true
  end.

(** The grid without a clue, the board built for it and the grid [solve]
    returns for it (after 682 rounds of the main loop). *)
Definition blank_puzzle : list (list Z) := repeat (repeat 0 9) 9.
Definition blank_start : SudokuSolver := Eval vm_compute in
    state_or (SudokuSolver_init blank_puzzle)
             (initialize_board (SudokuSolver_init blank_puzzle)).
Definition blank_result : list (list Z) :=
  [[1; 2; 3; 4; 5; 6; 7; 8; 9];
   [4; 5; 6; 7; 8; 9; 1; 2; 3];
   [7; 8; 9; 1; 2; 3; 4; 5; 6];
   [2; 1; 4; 3; 6; 5; 8; 9; 7];
   [3; 6; 5; 8; 9; 7; 2; 1; 4];
   [8; 9; 7; 2; 1; 4; 3; 6; 5];
   [5; 3; 1; 6; 4; 2; 9; 7; 8];
   [6; 4; 2; 9; 7; 8; 5; 3; 1];
   [9; 7; 8; 5; 3; 1; 6; 4; 2]].

(** A grid with an empty entry that no digit fits: the first row lacks a 9,
    and the last column holds one.  [dead_start] is the board built for it. *)
Definition dead_puzzle : list (list Z) :=
  [[1; 2; 3; 4; 5; 6; 7; 8; 0];
   [0; 0; 0; 0; 0; 0; 0; 0; 9];
   [0; 0; 0; 0; 0; 0; 0; 0; 0];
   [0; 0; 0; 0; 0; 0; 0; 0; 0];
   [0; 0; 0; 0; 0; 0; 0; 0; 0];
   [0; 0; 0; 0; 0; 0; 0; 0; 0];
   [0; 0; 0; 0; 0; 0; 0; 0; 0];
   [0; 0; 0; 0; 0; 0; 0; 0; 0];
   [0; 0; 0; 0; 0; 0; 0; 0; 0]].

(** What [is_valid] computes for the last cell of a 9 x 9 grid: whether its
    row, its column and its box hold no digit other than 0 twice. *)
Definition last_cell_valid (p : list (list Z)) : bool :=
  check_area (nth 8 p []) &&
  check_area (map (fun r => nth 8 r 0) p) &&
  check_area (sub_block p 6 6 3).

(** The state of a board whose cursor is at [k] and whose last cell (of 81)
    has candidate index [n]. *)
Definition waiting (g : SudokuSolver) (c : Cell) (k n : Z) : SudokuSolver :=
  mkSudokuSolver (puzzle g) (update (solve_puzzle g) 80 (with_current_index c n))
                 (box_size g) k.

(** A grid without an empty entry, whose last row holds two 9s. *)
Definition full_invalid : list (list Z) := update solution 8 [3; 4; 5; 2; 8; 6; 1; 9; 9].

(** An outcome that is not a division by zero: when it is an exception, the
    exception is [IndexError]. *)
Definition index_fault_only {A : Type} (o : outcome A) : Prop :=
  forall e, o = Raise e -> e = IndexError.
(** * Properties *)

(** ** Outcomes *)

Lemma bind_Ok {A B : Type} (m : outcome A) (k : A -> outcome B) (b : B) :
  bind m k = Ok b -> exists a, m = Ok a /\ k a = Ok b.
Proof.
  destruct m as [a| |]; simpl; intros H; try discriminate.
  exists a; split; [reflexivity | exact H].
Qed.

Ltac bind_inv H :=
  let a := fresh "a" in
  let Ha := fresh "E" in
  apply bind_Ok in H; destruct H as [a [Ha H]].

(** ** Python lists *)

Lemma len_nonneg {A : Type} (xs : list A) : 0 <= len xs.
Proof. unfold len; lia. Qed.

Lemma py_index_nonneg {A : Type} (xs : list A) (i : Z) :
  0 <= i ->
  py_index xs i = match nth_error xs (Z.to_nat i) with
                  | Some x => Ok x
                  | None => Raise IndexError
                  end.
Proof.
  intros Hi. unfold py_index, norm_index.
  destruct (i <? 0) eqn:E; [apply Z.ltb_lt in E; lia|].
  destruct (0 <=? i) eqn:E0; [|apply Z.leb_gt in E0; lia].
  destruct (i <? len xs) eqn:E1; simpl; [reflexivity|].
  apply Z.ltb_ge in E1. unfold len in E1.
  destruct (nth_error xs (Z.to_nat i)) eqn:En; [|reflexivity].
  assert (Z.to_nat i < length xs)%nat by (apply nth_error_Some; congruence). lia.
Qed.

Lemma py_index_Ok {A : Type} (xs : list A) (i : Z) (x : A) :
  py_index xs i = Ok x ->
  0 <= norm_index xs i < len xs /\
  nth_error xs (Z.to_nat (norm_index xs i)) = Some x.
Proof.
  unfold py_index. intros H.
  destruct (0 <=? norm_index xs i) eqn:E0; simpl in H; [|discriminate].
  destruct (norm_index xs i <? len xs) eqn:E1; simpl in H; [|discriminate].
  apply Z.leb_le in E0. apply Z.ltb_lt in E1.
  destruct (nth_error xs (Z.to_nat (norm_index xs i))) eqn:En; [|discriminate].
  inversion H; subst. split; [lia | reflexivity].
Qed.

Lemma py_index_range {A : Type} (xs : list A) (i : Z) (x : A) :
  py_index xs i = Ok x -> - len xs <= i < len xs.
Proof.
  intros H. apply py_index_Ok in H. destruct H as [H _].
  unfold norm_index in H. destruct (i <? 0) eqn:E.
  - apply Z.ltb_lt in E. lia.
  - apply Z.ltb_ge in E. lia.
Qed.

Lemma py_index_nth {A : Type} (xs : list A) (i : Z) (d : A) :
  0 <= i < len xs -> py_index xs i = Ok (nth (Z.to_nat i) xs d).
Proof.
  intros Hi. rewrite py_index_nonneg by lia.
  destruct (nth_error xs (Z.to_nat i)) eqn:E.
  - f_equal. symmetry. apply nth_error_nth. exact E.
  - apply nth_error_None in E. unfold len in Hi. lia.
Qed.

Lemma update_length {A : Type} (xs : list A) (n : nat) (v : A) :
  length (update xs n v) = length xs.
Proof.
  revert n; induction xs as [|h t IH]; intros [|n]; simpl; auto.
Qed.

Lemma nth_error_update_eq {A : Type} (xs : list A) (n : nat) (v : A) :
  (n < length xs)%nat -> nth_error (update xs n v) n = Some v.
Proof.
  revert n; induction xs as [|h t IH]; intros [|n] H; simpl in *; try lia; auto.
  apply IH; lia.
Qed.

Lemma nth_error_update_neq {A : Type} (xs : list A) (n m : nat) (v : A) :
  n <> m -> nth_error (update xs n v) m = nth_error xs m.
Proof.
  revert n m; induction xs as [|h t IH]; intros [|n] [|m] H; simpl; auto.
  congruence.
Qed.

Lemma nth_update_eq {A : Type} (xs : list A) (n : nat) (v d : A) :
  (n < length xs)%nat -> nth n (update xs n v) d = v.
Proof.
  intros H. apply nth_error_nth. apply nth_error_update_eq. exact H.
Qed.

Lemma nth_update_neq {A : Type} (xs : list A) (n m : nat) (v d : A) :
  n <> m -> nth m (update xs n v) d = nth m xs d.
Proof.
  revert n m; induction xs as [|h t IH]; intros [|n] [|m] H; simpl; auto.
  congruence.
Qed.

Lemma update_update {A : Type} (xs : list A) (n : nat) (v w : A) :
  update (update xs n v) n w = update xs n w.
Proof.
  revert n; induction xs as [|h t IH]; intros [|n]; simpl; auto.
  f_equal; apply IH.
Qed.

Lemma update_same {A : Type} (xs : list A) (n : nat) (v : A) :
  nth_error xs n = Some v -> update xs n v = xs.
Proof.
  revert n; induction xs as [|h t IH]; intros [|n] H; simpl in *; try discriminate.
  - congruence.
  - f_equal; apply IH; exact H.
Qed.

Lemma py_setitem_Ok {A : Type} (xs : list A) (i : Z) (v : A) (ys : list A) :
  py_setitem xs i v = Ok ys ->
  0 <= norm_index xs i < len xs /\ ys = update xs (Z.to_nat (norm_index xs i)) v.
Proof.
  unfold py_setitem. intros H.
  destruct (0 <=? norm_index xs i) eqn:E0; simpl in H; [|discriminate].
  destruct (norm_index xs i <? len xs) eqn:E1; simpl in H; [|discriminate].
  apply Z.leb_le in E0. apply Z.ltb_lt in E1.
  inversion H; subst. split; [lia | reflexivity].
Qed.

Lemma py_setitem_of_index {A : Type} (xs : list A) (i : Z) (x v : A) :
  py_index xs i = Ok x ->
  py_setitem xs i v = Ok (update xs (Z.to_nat (norm_index xs i)) v).
Proof.
  intros H. apply py_index_Ok in H. destruct H as [[H0 H1] _].
  unfold py_setitem.
  destruct (0 <=? norm_index xs i) eqn:E0; [|apply Z.leb_gt in E0; lia].
  destruct (norm_index xs i <? len xs) eqn:E1; [|apply Z.ltb_ge in E1; lia].
  reflexivity.
Qed.

Lemma norm_index_nonneg {A : Type} (xs : list A) (i : Z) :
  0 <= i -> norm_index xs i = i.
Proof.
  intros H. unfold norm_index. destruct (i <? 0) eqn:E; [apply Z.ltb_lt in E; lia|reflexivity].
Qed.

(** ** [set_number] on a fixed cell *)

Lemma set_number_fixed (self : Cell) (game : SudokuSolver) :
  solved self = true -> set_number self game = Ok (self, game).
Proof.
  intros H. unfold set_number. rewrite H. reflexivity.
Qed.

(** C10: on a cell whose [solved] flag is true, [set_number] changes neither
    the cell nor the game (hence neither [number] nor the grid entry),
    whatever the candidate list and [current_index] are. *)
Theorem set_number_solved_noop (self : Cell) (game : SudokuSolver) :
  solved self = true ->
  set_number self game = Ok (self, game) /\
  forall self' game',
    set_number self game = Ok (self', game') ->
    number self' = number self /\ puzzle game' = puzzle game.
Proof.
  intros H. unfold set_number. rewrite H. cbn [negb]. split; [reflexivity|].
  intros self' game' E. inversion E; subst. split; reflexivity.
Qed.

Lemma set_number_solved_noop_witness :
  set_number (mkCell true 7 [1; 2] 0 4 5) (SudokuSolver_init classic_puzzle)
  = Ok (mkCell true 7 [1; 2] 0 4 5, SudokuSolver_init classic_puzzle) /\
  forall self' game',
    set_number (mkCell true 7 [1; 2] 0 4 5) (SudokuSolver_init classic_puzzle)
    = Ok (self', game') ->
    number self' = number (mkCell true 7 [1; 2] 0 4 5) /\
    puzzle game' = puzzle (SudokuSolver_init classic_puzzle).
Proof.
  apply set_number_solved_noop. reflexivity.
Defined.

(** ** The single-candidate commit *)

Lemma handle_one_possibility_game (self : Cell) (game : SudokuSolver) :
  handle_one_possibility self game
  = Ok (if len (possibilities self) =? 1 then with_solved self true else self, game).
Proof.
  unfold handle_one_possibility.
  destruct (len (possibilities self) =? 1); [|reflexivity].
  apply set_number_fixed. reflexivity.
Qed.

(** C1: the cell at row 4, column 4 of [classic_puzzle] is empty and its
    candidate computation leaves the single candidate 5; construction marks it
    solved, but its number stays 0 and the game, grid included, is returned as
    it was: [handle_one_possibility] raises the flag before it calls
    [set_number], which then does nothing. *)
Theorem single_candidate_not_written :
  Cell_init 4 4 0 (SudokuSolver_init classic_puzzle)
  = Ok (mkCell true 0 [5] 4 4 0, SudokuSolver_init classic_puzzle)
  /\ entry (puzzle (SudokuSolver_init classic_puzzle)) 4 4 = 0.
Proof.
  split; vm_compute; reflexivity.
Qed.

(** ** The example of the source *)

Lemma run_solve_more_fuel (fuel extra : nat) (game game' : SudokuSolver) :
  run_solve fuel game = Ok game' -> run_solve (fuel + extra) game = Ok game'.
Proof.
  revert game. induction fuel as [|fuel IH]; intros game H; simpl in H.
  - destruct (backtrack_coord game <=? len (solve_puzzle game) - 1) eqn:E;
      [discriminate|].
    destruct extra; simpl; rewrite E; exact H.
  - simpl. destruct (backtrack_coord game <=? len (solve_puzzle game) - 1);
      [|exact H].
    destruct (solve_step game) as [g| |]; simpl in *; try discriminate.
    apply IH; exact H.
Qed.

Lemma solve_more_fuel (fuel extra : nat) (p r : list (list Z)) :
  solve fuel p = Ok r -> solve (fuel + extra) p = Ok r.
Proof.
  unfold solve. intros H.
  destruct (initialize_board (SudokuSolver_init p)) as [g| |];
    cbn [bind] in *; try discriminate.
  destruct (run_solve fuel g) as [g'| |] eqn:Er; cbn [bind] in H; try discriminate.
  rewrite (run_solve_more_fuel _ extra _ _ Er). cbn [bind]. exact H.
Qed.



(** ** Loops over lists *)

Lemma mapM_Ok_map {A B : Type} (f : A -> outcome B) (h : A -> B) (xs : list A) :
  (forall x, In x xs -> f x = Ok (h x)) -> mapM f xs = Ok (map h xs).
Proof.
  induction xs as [|x t IH]; intros H; simpl; [reflexivity|].
  rewrite (H x) by (left; reflexivity). simpl.
  rewrite IH by (intros y Hy; apply H; right; exact Hy). reflexivity.
Qed.

Lemma mapM_length {A B : Type} (f : A -> outcome B) (xs : list A) (ys : list B) :
  mapM f xs = Ok ys -> length ys = length xs.
Proof.
  revert ys; induction xs as [|x t IH]; intros ys H; simpl in H.
  - inversion H; reflexivity.
  - bind_inv H. bind_inv H. inversion H; subst. simpl. f_equal. apply IH. assumption.
Qed.

Lemma foldM_app {A S : Type} (f : S -> A -> outcome S) (xs ys : list A) (s : S) :
  foldM f (xs ++ ys) s = (s' <- foldM f xs s ;; foldM f ys s').
Proof.
  revert s; induction xs as [|x t IH]; intros s; simpl; [reflexivity|].
  destruct (f s x); simpl; auto.
Qed.

Lemma foldM_ext {A S : Type} (f g : S -> A -> outcome S) (xs : list A) (s : S) :
  (forall s' x, In x xs -> f s' x = g s' x) -> foldM f xs s = foldM g xs s.
Proof.
  revert s; induction xs as [|x t IH]; intros s H; simpl; [reflexivity|].
  rewrite (H s x) by (left; reflexivity).
  destruct (g s x); simpl; auto.
  apply IH. intros; apply H; right; assumption.
Qed.

Lemma in_py_range (a b i : Z) : In i (py_range a b) <-> a <= i < b.
Proof.
  unfold py_range. rewrite in_map_iff. split.
  - intros [k [Hk Hin]]. apply in_seq in Hin. lia.
  - intros H. exists (Z.to_nat (i - a)). split; [lia|]. apply in_seq. lia.
Qed.

Lemma py_range_length (a b : Z) : length (py_range a b) = Z.to_nat (b - a).
Proof. unfold py_range. rewrite length_map, length_seq. reflexivity. Qed.

Lemma py_range_empty (a b : Z) : b <= a -> py_range a b = [].
Proof.
  intros H. unfold py_range. replace (Z.to_nat (b - a)) with 0%nat by lia. reflexivity.
Qed.

Lemma py_range_cons (a b : Z) : a < b -> py_range a b = a :: py_range (a + 1) b.
Proof.
  intros H. unfold py_range.
  replace (Z.to_nat (b - a)) with (S (Z.to_nat (b - (a + 1)))) by lia.
  simpl. f_equal; [lia|].
  rewrite <- seq_shift, map_map. apply map_ext. intros k. lia.
Qed.

Lemma py_range_snoc (a b : Z) : a <= b -> py_range a (b + 1) = py_range a b ++ [b].
Proof.
  intros H. unfold py_range.
  replace (Z.to_nat (b + 1 - a)) with (Z.to_nat (b - a) + 1)%nat by lia.
  rewrite seq_app, map_app. simpl. f_equal. f_equal. lia.
Qed.

(** ** Slices *)

Lemma firstn_skipn_nth {A : Type} (l : list A) (a k : nat) (d : A) :
  (a + k <= length l)%nat ->
  firstn k (skipn a l) = map (fun b => nth (a + b) l d) (seq 0 k).
Proof.
  revert l a. induction k as [|k IH]; intros l a H; [reflexivity|].
  destruct (skipn a l) as [|x t] eqn:Es.
  - assert (length (skipn a l) = 0%nat) by (rewrite Es; reflexivity).
    rewrite length_skipn in *. lia.
  - simpl. f_equal.
    + assert (Hn : nth 0 (skipn a l) d = x) by (rewrite Es; reflexivity).
      rewrite nth_skipn in Hn. symmetry. exact Hn.
    + assert (Ht : t = skipn (S a) l).
      { replace (S a) with (1 + a)%nat by lia. rewrite <- skipn_skipn, Es. reflexivity. }
      rewrite Ht, IH by lia. rewrite <- seq_shift, map_map.
      apply map_ext. intros b. f_equal. lia.
Qed.

Lemma py_slice_nth (l : list Z) (a k : Z) :
  0 <= a -> 0 <= k -> a + k <= len l ->
  py_slice l a (a + k)
  = map (fun b => nth (Z.to_nat a + b) l 0) (seq 0 (Z.to_nat k)).
Proof.
  intros Ha Hk Hl. unfold py_slice, clip_index.
  destruct (a <? 0) eqn:E1; [apply Z.ltb_lt in E1; lia|].
  destruct (a + k <? 0) eqn:E2; [apply Z.ltb_lt in E2; lia|].
  rewrite !Z.min_l by lia.
  replace (a + k - a) with k by lia.
  apply firstn_skipn_nth. unfold len in Hl. lia.
Qed.

(** ** Reading rows, columns and boxes *)

Lemma get_row_Ok (game : SudokuSolver) (r : Z) :
  0 <= r < len (puzzle game) ->
  get_row game r = Ok (nth (Z.to_nat r) (puzzle game) []).
Proof. intros H. unfold get_row. apply py_index_nth. exact H. Qed.

Lemma get_column_Ok (game : SudokuSolver) (c : Z) :
  Forall (fun r => 0 <= c < len r) (puzzle game) ->
  get_column game c = Ok (map (fun r => nth (Z.to_nat c) r 0) (puzzle game)).
Proof.
  intros H. unfold get_column. apply mapM_Ok_map.
  intros r Hr. apply py_index_nth. rewrite Forall_forall in H. apply H; exact Hr.
Qed.

Lemma foldM_box (p : list (list Z)) (h : list Z -> list Z) (rows : list Z) (acc : list Z) :
  (forall i, In i rows -> 0 <= i < len p) ->
  foldM (fun box i => r <- py_index p i ;; Ok (box ++ h r)) rows acc
  = Ok (acc ++ flat_map (fun i => h (nth (Z.to_nat i) p [])) rows).
Proof.
  revert acc; induction rows as [|i t IH]; intros acc H; simpl.
  - rewrite app_nil_r. reflexivity.
  - rewrite (py_index_nth p i []) by (apply H; left; reflexivity). simpl.
    rewrite IH by (intros; apply H; right; assumption).
    rewrite app_assoc. reflexivity.
Qed.

Lemma get_box_Ok (game : SudokuSolver) (r c : Z) :
  0 < box_size game -> 0 <= r ->
  r / box_size game * box_size game + box_size game <= len (puzzle game) ->
  get_box game r c
  = Ok (flat_map
          (fun i => py_slice (nth (Z.to_nat i) (puzzle game) [])
                             (c / box_size game * box_size game)
                             (c / box_size game * box_size game + box_size game))
          (py_range (r / box_size game * box_size game)
                    (box_size game + r / box_size game * box_size game))).
Proof.
  intros Hb Hr Hl. unfold get_box, get_box_coordinates, find_box_start.
  destruct (box_size game =? 0) eqn:E; [apply Z.eqb_eq in E; lia|]. simpl.
  rewrite foldM_box; [reflexivity|].
  intros i Hi. apply in_py_range in Hi.
  assert (0 <= r / box_size game) by (apply Z.div_pos; lia).
  nia.
Qed.

Lemma square_len (n : nat) (p : list (list Z)) :
  square n p -> len p = Z.of_nat n.
Proof. intros [H _]. unfold len. rewrite H. reflexivity. Qed.

Lemma square_row_len (n : nat) (p : list (list Z)) (i : nat) :
  square n p -> (i < n)%nat -> len (nth i p []) = Z.of_nat n.
Proof.
  intros [Hl Hr] Hi. rewrite Forall_forall in Hr. unfold len.
  rewrite (Hr (nth i p [])); [reflexivity|]. apply nth_In. lia.
Qed.

Lemma flat_map_ext_in {A B : Type} (f g : A -> list B) (l : list A) :
  (forall a, In a l -> f a = g a) -> flat_map f l = flat_map g l.
Proof.
  induction l as [|x t IH]; intros H; simpl; [reflexivity|].
  rewrite (H x) by (left; reflexivity).
  rewrite IH by (intros; apply H; right; assumption). reflexivity.
Qed.

Lemma flat_map_map {A B C : Type} (g : A -> B) (f : B -> list C) (l : list A) :
  flat_map f (map g l) = flat_map (fun a => f (g a)) l.
Proof.
  induction l as [|x t IH]; simpl; [reflexivity|]. rewrite IH. reflexivity.
Qed.

(** The box read by [get_box] on a grid of side [bs * bs]. *)
Lemma get_box_square (game : SudokuSolver) (bs : nat) (r c : Z) :
  box_size game = Z.of_nat bs -> (0 < bs)%nat ->
  square (bs * bs) (puzzle game) ->
  0 <= r < Z.of_nat (bs * bs) -> 0 <= c < Z.of_nat (bs * bs) ->
  get_box game r c
  = Ok (sub_block (puzzle game)
                  (Z.to_nat (r / box_size game * box_size game))
                  (Z.to_nat (c / box_size game * box_size game))
                  (Z.to_nat (box_size game))).
Proof.
  intros Hbs Hpos Hsq Hr Hc.
  assert (Hlen : len (puzzle game) = Z.of_nat (bs * bs)) by (apply square_len; exact Hsq).
  set (b := box_size game) in *.
  assert (Hb : 0 < b) by lia.
  assert (Hstart : forall x, 0 <= x < Z.of_nat (bs * bs) ->
                             0 <= x / b * b /\ x / b * b + b <= Z.of_nat (bs * bs)).
  { intros x Hx.
    assert (0 <= x / b) by (apply Z.div_pos; lia).
    assert (x / b < b) by (apply Z.div_lt_upper_bound; nia).
    nia. }
  destruct (Hstart r Hr) as [Hr0 Hr1]. destruct (Hstart c Hc) as [Hc0 Hc1].
  rewrite get_box_Ok by (fold b; lia).
  fold b. f_equal. unfold sub_block, py_range.
  rewrite flat_map_map.
  replace (Z.to_nat (b + r / b * b - r / b * b)) with (Z.to_nat b) by lia.
  apply flat_map_ext_in. intros a Ha. apply in_seq in Ha.
  rewrite py_slice_nth.
  - apply map_ext. intros k. unfold entry. do 2 f_equal. lia.
  - lia.
  - lia.
  - rewrite (square_row_len (bs * bs)) by (auto; lia). lia.
Qed.

(** C9: on a 9 x 9 grid, where [box_size] is the square root 3 of the grid
    size, [get_box i j] for [i] and [j] in 0..8 returns the nine entries of
    the 3 x 3 block whose top-left corner is ((i // 3) * 3, (j // 3) * 3),
    row by row.  [get_box] only returns that list: it has no game to hand
    back, so the grid is as it was. *)
Theorem get_box_sub_block (game : SudokuSolver) (i j : Z) :
  square 9 (puzzle game) ->
  box_size game = Z.sqrt (len (puzzle game)) ->
  0 <= i <= 8 -> 0 <= j <= 8 ->
  box_size game = 3 /\
  get_box game i j
  = Ok (sub_block (puzzle game)
                  (Z.to_nat (i / box_size game * box_size game))
                  (Z.to_nat (j / box_size game * box_size game))
                  (Z.to_nat (box_size game))) /\
  length (sub_block (puzzle game)
                    (Z.to_nat (i / box_size game * box_size game))
                    (Z.to_nat (j / box_size game * box_size game))
                    (Z.to_nat (box_size game))) = 9%nat.
Proof.
  intros Hsq Hbs Hi Hj.
  assert (Hlen : len (puzzle game) = 9) by (apply (square_len 9); exact Hsq).
  assert (H3 : box_size game = 3) by (rewrite Hbs, Hlen; reflexivity).
  split; [exact H3|]. split.
  - apply (get_box_square game 3); auto; lia.
  - rewrite H3. reflexivity.
Qed.

Lemma get_box_sub_block_witness :
  box_size (SudokuSolver_init classic_puzzle) = 3 /\
  get_box (SudokuSolver_init classic_puzzle) 4 7
  = Ok (sub_block classic_puzzle 3 6 3) /\
  length (sub_block classic_puzzle 3 6 3) = 9%nat.
Proof.
  apply (get_box_sub_block (SudokuSolver_init classic_puzzle) 4 7).
  - split; [reflexivity | repeat constructor].
  - reflexivity.
  - lia.
  - lia.
Defined.

(** ** The candidate computation *)

Lemma set_remove_absent (item : Z) (s : list Z) :
  existsb (Z.eqb item) s = false -> set_remove item s = s.
Proof.
  unfold set_remove. induction s as [|x t IH]; simpl; intros H; [reflexivity|].
  apply orb_false_iff in H. destruct H as [Hx Ht].
  rewrite Z.eqb_sym, Hx. simpl. f_equal. apply IH. exact Ht.
Qed.

Lemma fold_remove (items s : list Z) :
  fold_left (fun s item => if existsb (Z.eqb item) s then set_remove item s else s)
            items s
  = remaining items s.
Proof.
  revert s. induction items as [|i t IH]; intros s; simpl.
  - unfold remaining. simpl. induction s as [|x s IHs]; simpl; [reflexivity|].
    f_equal. exact IHs.
  - rewrite IH.
    assert (E : (if existsb (Z.eqb i) s then set_remove i s else s) = set_remove i s).
    { destruct (existsb (Z.eqb i) s) eqn:Ei; [reflexivity|].
      symmetry. apply set_remove_absent. exact Ei. }
    rewrite E. unfold remaining, set_remove. clear.
    induction s as [|x s IHs]; simpl; [reflexivity|].
    destruct (x =? i) eqn:Exi; simpl.
    + exact IHs.
    + destruct (existsb (Z.eqb x) t); simpl; [exact IHs | f_equal; exact IHs].
Qed.

Lemma remaining_In (items s : list Z) (v : Z) :
  In v (remaining items s) <-> In v s /\ ~ In v items.
Proof.
  unfold remaining. rewrite filter_In. split; intros [H1 H2]; split; auto.
  - intros Hin. apply negb_true_iff in H2.
    assert (existsb (Z.eqb v) items = true).
    { apply existsb_exists. exists v. split; [exact Hin | apply Z.eqb_refl]. }
    congruence.
  - apply negb_true_iff. destruct (existsb (Z.eqb v) items) eqn:E; [|reflexivity].
    apply existsb_exists in E. destruct E as [x [Hx Hv]].
    apply Z.eqb_eq in Hv. subst. contradiction.
Qed.

Lemma remaining_NoDup (items s : list Z) : NoDup s -> NoDup (remaining items s).
Proof. intros H. unfold remaining. apply NoDup_filter. exact H. Qed.

Lemma py_range_1_10 : py_range 1 10 = [1; 2; 3; 4; 5; 6; 7; 8; 9].
Proof. reflexivity. Qed.

Lemma Cell_init_clue (column_number row_number num : Z) (game : SudokuSolver) :
  0 < num ->
  Cell_init column_number row_number num game
  = Ok (mkCell true num [] row_number column_number 0, game).
Proof.
  intros H. unfold Cell_init.
  assert (E : (0 <? num) = true) by (apply Z.ltb_lt; exact H).
  rewrite E. reflexivity.
Qed.

Lemma Cell_init_empty (column_number row_number num : Z) (game : SudokuSolver)
      (r c b : list Z) :
  num <= 0 ->
  get_row game row_number = Ok r ->
  get_column game column_number = Ok c ->
  get_box game row_number column_number = Ok b ->
  Cell_init column_number row_number num game
  = Ok (mkCell (len (remaining (r ++ c ++ b) (py_range 1 10)) =? 1) num
               (remaining (r ++ c ++ b) (py_range 1 10))
               row_number column_number 0, game).
Proof.
  intros Hn Hr Hc Hb. unfold Cell_init.
  assert (E : (0 <? num) = false) by (apply Z.ltb_ge; exact Hn).
  rewrite E. cbn [negb solved]. unfold find_possibilities.
  cbn [row column possibilities]. rewrite Hr, Hc, Hb. cbn [bind].
  rewrite fold_remove, handle_one_possibility_game.
  unfold with_possibilities, with_solved. cbn [possibilities solved number row column current_index].
  destruct (len (remaining (r ++ c ++ b) (py_range 1 10)) =? 1); reflexivity.
Qed.

Lemma Cell_init_game (column_number row_number num : Z) (game game' : SudokuSolver)
      (cell : Cell) :
  Cell_init column_number row_number num game = Ok (cell, game') ->
  game' = game /\ row cell = row_number /\ column cell = column_number /\
  current_index cell = 0 /\ number cell = num /\
  (0 < num -> solved cell = true /\ possibilities cell = []) /\
  (num <= 0 -> solved cell = (len (possibilities cell) =? 1)).
Proof.
  intros H. destruct (Z.lt_ge_cases 0 num) as [Hn|Hn].
  - rewrite Cell_init_clue in H by exact Hn. inversion H; subst; simpl.
    repeat split; auto; lia.
  - unfold Cell_init in H.
    assert (E : (0 <? num) = false) by (apply Z.ltb_ge; exact Hn).
    rewrite E in H. cbn [negb solved] in H. unfold find_possibilities in H.
    bind_inv H. bind_inv H. bind_inv H.
    rewrite handle_one_possibility_game in H. inversion H; subst; clear H.
    unfold with_possibilities, with_solved.
    cbn [possibilities solved number row column current_index].
    match goal with |- context [len ?l =? 1] => destruct (len l =? 1) eqn:El end;
      cbn [possibilities solved number row column current_index];
      repeat split; auto; try lia; intros; congruence.
Qed.

(** The single-candidate commit, in general: construction of an empty entry
    never writes, neither into the cell's number nor into the game. *)
Lemma single_candidate_never_written
      (column_number row_number num : Z) (game game' : SudokuSolver) (cell : Cell) :
  num <= 0 ->
  Cell_init column_number row_number num game = Ok (cell, game') ->
  len (possibilities cell) = 1 ->
  solved cell = true /\ number cell = num /\ game' = game.
Proof.
  intros Hn H Hl. apply Cell_init_game in H.
  destruct H as [Hg [_ [_ [_ [Hnum [_ Hs]]]]]].
  split; [|split; assumption].
  rewrite (Hs Hn), Hl. reflexivity.
Qed.

Lemma standard_units (game : SudokuSolver) (r c : Z) :
  standard_board game -> 0 <= r <= 8 -> 0 <= c <= 8 ->
  get_row game r = Ok (nth (Z.to_nat r) (puzzle game) []) /\
  get_column game c = Ok (map (fun x => nth (Z.to_nat c) x 0) (puzzle game)) /\
  get_box game r c
  = Ok (sub_block (puzzle game) (Z.to_nat (r / 3 * 3)) (Z.to_nat (c / 3 * 3)) 3).
Proof.
  intros [Hsq Hb] Hr Hc.
  assert (Hlen : len (puzzle game) = 9) by (apply (square_len 9); exact Hsq).
  split; [|split].
  - apply get_row_Ok. lia.
  - apply get_column_Ok. destruct Hsq as [_ Hrows].
    eapply Forall_impl; [|exact Hrows]. intros x Hx. simpl in Hx.
    unfold len. rewrite Hx. lia.
  - rewrite (get_box_square game 3) by (auto; lia). rewrite Hb. reflexivity.
Qed.

Lemma in_sub_block (p : list (list Z)) (top left size : nat) (v : Z) :
  In v (sub_block p top left size) <->
  exists a b, (a < size)%nat /\ (b < size)%nat /\ entry p (top + a) (left + b) = v.
Proof.
  unfold sub_block. rewrite in_flat_map. split.
  - intros [a [Ha Hv]]. apply in_seq in Ha. apply in_map_iff in Hv.
    destruct Hv as [b [Ev Hb]]. apply in_seq in Hb.
    exists a, b. split; [lia|]. split; [lia | exact Ev].
  - intros [a [b [Ha [Hb Ev]]]]. exists a. split; [apply in_seq; lia|].
    apply in_map_iff. exists b. split; [exact Ev | apply in_seq; lia].
Qed.

Lemma in_row_entries (p : list (list Z)) (i : nat) (v : Z) :
  square 9 p -> (i < 9)%nat ->
  (In v (nth i p []) <-> exists k, (k < 9)%nat /\ entry p i k = v).
Proof.
  intros Hsq Hi. pose proof (square_row_len 9 p i Hsq Hi) as Hl. unfold len in Hl.
  unfold entry. split.
  - intros Hin. destruct (In_nth _ _ 0 Hin) as [k [Hk Ek]]. exists k. split; [lia | exact Ek].
  - intros [k [Hk Ek]]. rewrite <- Ek. apply nth_In. lia.
Qed.

Lemma in_column_entries (p : list (list Z)) (j : nat) (v : Z) :
  square 9 p ->
  (In v (map (fun x => nth j x 0) p) <-> exists k, (k < 9)%nat /\ entry p k j = v).
Proof.
  intros [Hl _]. unfold entry. rewrite in_map_iff. split.
  - intros [x [Ev Hx]]. destruct (In_nth _ _ [] Hx) as [k [Hk Ek]].
    exists k. split; [lia|]. rewrite Ek. exact Ev.
  - intros [k [Hk Ek]]. exists (nth k p []). split; [exact Ek | apply nth_In; lia].
Qed.

(** C5: for an empty entry of a standard board, construction reads the row,
    the column and the box of the entry's coordinate in the grid as it is at
    that moment, and the candidate list it computes has no repetition and
    holds exactly the digits of 1..9 that are none of the nonzero digits of
    that row, that column and that box: a digit is a candidate exactly when
    it is one of 1..9 and no entry of the row, of the column or of the box
    equals it.  The list depends on the game through the grid (and the box
    size) only. *)
Theorem find_possibilities_candidates
        (game : SudokuSolver) (row_number column_number number : Z) :
  standard_board game ->
  0 <= row_number <= 8 -> 0 <= column_number <= 8 -> number <= 0 ->
  exists r c b cell,
    r = nth (Z.to_nat row_number) (puzzle game) [] /\
    c = map (fun x => nth (Z.to_nat column_number) x 0) (puzzle game) /\
    b = sub_block (puzzle game) (Z.to_nat (row_number / 3 * 3))
                  (Z.to_nat (column_number / 3 * 3)) 3 /\
    get_row game row_number = Ok r /\
    get_column game column_number = Ok c /\
    get_box game row_number column_number = Ok b /\
    Cell_init column_number row_number number game = Ok (cell, game) /\
    (forall v, In v (possibilities cell) <-> candidate_of r c b v) /\
    (forall v,
        In v (possibilities cell) <->
        1 <= v <= 9 /\
        (forall k, (k < 9)%nat ->
                   entry (puzzle game) (Z.to_nat row_number) k <> v) /\
        (forall k, (k < 9)%nat ->
                   entry (puzzle game) k (Z.to_nat column_number) <> v) /\
        (forall a' b', (a' < 3)%nat -> (b' < 3)%nat ->
                       entry (puzzle game) (Z.to_nat (row_number / 3 * 3) + a')
                             (Z.to_nat (column_number / 3 * 3) + b') <> v)) /\
    NoDup (possibilities cell) /\
    (forall game',
        puzzle game' = puzzle game -> box_size game' = box_size game ->
        exists cell',
          Cell_init column_number row_number number game' = Ok (cell', game') /\
          possibilities cell' = possibilities cell).
Proof.
  intros Hboard Hr Hc Hn.
  destruct (standard_units game row_number column_number Hboard Hr Hc)
    as [Er [Ec Eb]].
  eexists _, _, _, _.
  split; [reflexivity|]. split; [reflexivity|]. split; [reflexivity|].
  split; [exact Er|]. split; [exact Ec|]. split; [exact Eb|].
  split; [apply Cell_init_empty; eassumption|].
  cbn [possibilities].
  assert (Hcand : forall v,
             In v (remaining
                     (nth (Z.to_nat row_number) (puzzle game) [] ++
                      map (fun x => nth (Z.to_nat column_number) x 0) (puzzle game) ++
                      sub_block (puzzle game) (Z.to_nat (row_number / 3 * 3))
                                (Z.to_nat (column_number / 3 * 3)) 3)
                     (py_range 1 10)) <->
             1 <= v <= 9 /\
             ~ In v (nth (Z.to_nat row_number) (puzzle game) [] ++
                     map (fun x => nth (Z.to_nat column_number) x 0) (puzzle game) ++
                     sub_block (puzzle game) (Z.to_nat (row_number / 3 * 3))
                               (Z.to_nat (column_number / 3 * 3)) 3)).
  { intros v. rewrite remaining_In, py_range_1_10. split.
    - intros [Hv Hnot]. split; [simpl in Hv; lia | exact Hnot].
    - intros [Hv Hnot]. split; [simpl; lia | exact Hnot]. }
  split; [|split; [|split]].
  - intros v. rewrite Hcand. unfold candidate_of. rewrite filter_In. split.
    + intros [Hv Hnot]. split; [exact Hv|]. intros [Hin _]. contradiction.
    + intros [Hv Hnot]. split; [exact Hv|]. intros Hin. apply Hnot.
      split; [exact Hin|]. apply negb_true_iff. apply Z.eqb_neq. lia.
  - intros v. rewrite Hcand. destruct Hboard as [Hsq _].
    rewrite !in_app_iff.
    rewrite (in_row_entries _ _ v Hsq) by lia.
    rewrite (in_column_entries _ _ v Hsq).
    rewrite in_sub_block.
    split.
    + intros [Hv Hnot]. split; [exact Hv|]. split; [|split].
      * intros k Hk E. apply Hnot. left. exists k. auto.
      * intros k Hk E. apply Hnot. right. left. exists k. auto.
      * intros a' b' Ha Hb E. apply Hnot. right. right. exists a', b'. auto.
    + intros [Hv [H1 [H2 H3]]]. split; [exact Hv|].
      intros [[k [Hk E]]|[[k [Hk E]]|[a' [b' [Ha [Hb E]]]]]].
      * exact (H1 k Hk E).
      * exact (H2 k Hk E).
      * exact (H3 a' b' Ha Hb E).
  - apply remaining_NoDup. rewrite py_range_1_10.
    repeat constructor; simpl; intuition discriminate.
  - intros game' Hp Hb.
    assert (Hboard' : standard_board game').
    { destruct Hboard as [H1 H2]. split; [rewrite Hp; exact H1 | congruence]. }
    destruct (standard_units game' row_number column_number Hboard' Hr Hc)
      as [Er' [Ec' Eb']].
    eexists. split; [apply Cell_init_empty; eassumption|].
    cbn [possibilities]. rewrite Hp. reflexivity.
Qed.

Lemma find_possibilities_candidates_witness :
  exists r c b cell,
    r = nth (Z.to_nat 0) (puzzle (SudokuSolver_init classic_puzzle)) [] /\
    c = map (fun x => nth (Z.to_nat 2) x 0) (puzzle (SudokuSolver_init classic_puzzle)) /\
    b = sub_block (puzzle (SudokuSolver_init classic_puzzle)) (Z.to_nat (0 / 3 * 3))
                  (Z.to_nat (2 / 3 * 3)) 3 /\
    get_row (SudokuSolver_init classic_puzzle) 0 = Ok r /\
    get_column (SudokuSolver_init classic_puzzle) 2 = Ok c /\
    get_box (SudokuSolver_init classic_puzzle) 0 2 = Ok b /\
    Cell_init 2 0 0 (SudokuSolver_init classic_puzzle)
    = Ok (cell, SudokuSolver_init classic_puzzle) /\
    (forall v, In v (possibilities cell) <-> candidate_of r c b v) /\
    (forall v,
        In v (possibilities cell) <->
        1 <= v <= 9 /\
        (forall k, (k < 9)%nat ->
                   entry (puzzle (SudokuSolver_init classic_puzzle)) (Z.to_nat 0) k <> v) /\
        (forall k, (k < 9)%nat ->
                   entry (puzzle (SudokuSolver_init classic_puzzle)) k (Z.to_nat 2) <> v) /\
        (forall a' b', (a' < 3)%nat -> (b' < 3)%nat ->
                       entry (puzzle (SudokuSolver_init classic_puzzle))
                             (Z.to_nat (0 / 3 * 3) + a') (Z.to_nat (2 / 3 * 3) + b') <> v)) /\
    NoDup (possibilities cell) /\
    (forall game',
        puzzle game' = puzzle (SudokuSolver_init classic_puzzle) ->
        box_size game' = box_size (SudokuSolver_init classic_puzzle) ->
        exists cell',
          Cell_init 2 0 0 game' = Ok (cell', game') /\
          possibilities cell' = possibilities cell).
Proof.
  apply (find_possibilities_candidates (SudokuSolver_init classic_puzzle) 0 2 0).
  - split; [split; [reflexivity | repeat constructor] | reflexivity].
  - lia.
  - lia.
  - lia.
Defined.

(** ** Writing the grid *)

Lemma puzzle_set_Ok (game : SudokuSolver) (r c v : Z) :
  0 <= r < len (puzzle game) ->
  0 <= c < len (nth (Z.to_nat r) (puzzle game) []) ->
  puzzle_set game r c v
  = Ok (with_puzzle game (grid_set (puzzle game) (Z.to_nat r) (Z.to_nat c) v)).
Proof.
  intros Hr Hc. unfold puzzle_set.
  rewrite (py_index_nth _ _ []) by exact Hr. cbn [bind].
  unfold py_setitem. rewrite !norm_index_nonneg by lia.
  destruct (0 <=? c) eqn:E0; [|apply Z.leb_gt in E0; lia].
  destruct (c <? len (nth (Z.to_nat r) (puzzle game) [])) eqn:E1;
    [|apply Z.ltb_ge in E1; lia].
  cbn [andb bind].
  destruct (0 <=? r) eqn:E2; [|apply Z.leb_gt in E2; lia].
  destruct (r <? len (puzzle game)) eqn:E3; [|apply Z.ltb_ge in E3; lia].
  reflexivity.
Qed.

Lemma puzzle_set_inv (game game' : SudokuSolver) (r c v : Z) :
  0 <= r -> 0 <= c ->
  puzzle_set game r c v = Ok game' ->
  r < len (puzzle game) /\ c < len (nth (Z.to_nat r) (puzzle game) []) /\
  game' = with_puzzle game (grid_set (puzzle game) (Z.to_nat r) (Z.to_nat c) v).
Proof.
  intros Hr Hc H. unfold puzzle_set in H.
  bind_inv H. bind_inv H. bind_inv H. inversion H; subst; clear H.
  pose proof (py_index_range _ _ _ E) as Hr1.
  rewrite (py_index_nth _ _ []) in E by lia. inversion E; subst; clear E.
  apply py_setitem_Ok in E0. destruct E0 as [Hc1 Ea0].
  apply py_setitem_Ok in E1. destruct E1 as [_ Ea1].
  rewrite (norm_index_nonneg _ c Hc) in Hc1, Ea0.
  rewrite (norm_index_nonneg _ r Hr) in Ea1.
  split; [lia|]. split; [lia|]. subst. reflexivity.
Qed.

Lemma grid_set_square (n : nat) (p : list (list Z)) (i j : nat) (v : Z) :
  square n p -> square n (grid_set p i j v).
Proof.
  intros [Hl Hr]. unfold grid_set. split.
  - rewrite update_length. exact Hl.
  - rewrite Forall_forall in *. intros x Hx.
    apply In_nth_error in Hx. destruct Hx as [k Hk].
    destruct (Nat.eq_dec i k) as [->|Hne].
    + assert (Hlt : (k < length p)%nat).
      { rewrite <- (update_length p k (update (nth k p []) j v)).
        apply nth_error_Some. congruence. }
      rewrite nth_error_update_eq in Hk by exact Hlt. inversion Hk; subst.
      rewrite update_length. apply Hr. apply nth_In. exact Hlt.
    + rewrite nth_error_update_neq in Hk by exact Hne.
      apply Hr. eapply nth_error_In. exact Hk.
Qed.

Lemma entry_grid_set_eq (p : list (list Z)) (i j : nat) (v : Z) :
  (i < length p)%nat -> (j < length (nth i p []))%nat ->
  entry (grid_set p i j v) i j = v.
Proof.
  intros Hi Hj. unfold entry, grid_set.
  rewrite nth_update_eq by exact Hi. apply nth_update_eq. exact Hj.
Qed.

Lemma entry_grid_set_neq (p : list (list Z)) (i j i' j' : nat) (v : Z) :
  (i, j) <> (i', j') -> entry (grid_set p i j v) i' j' = entry p i' j'.
Proof.
  intros Hne. unfold entry, grid_set.
  destruct (Nat.eq_dec i i') as [->|Hi].
  - destruct (Nat.lt_ge_cases i' (length p)) as [Hlt|Hge].
    + rewrite nth_update_eq by exact Hlt.
      apply nth_update_neq. congruence.
    + rewrite !(nth_overflow _ []) by (rewrite ?update_length; lia).
      destruct j'; reflexivity.
  - rewrite nth_update_neq by exact Hi. reflexivity.
Qed.

Lemma grid_set_twice (p : list (list Z)) (i j : nat) (v w : Z) :
  grid_set (grid_set p i j v) i j w = grid_set p i j w.
Proof.
  unfold grid_set.
  destruct (Nat.lt_ge_cases i (length p)) as [Hlt|Hge].
  - rewrite nth_update_eq by exact Hlt. rewrite !update_update. reflexivity.
  - assert (Hu : forall x, update p i x = p).
    { clear -Hge. revert i Hge. induction p as [|h t IH]; intros [|i] H x; simpl in *;
        try reflexivity; try lia. f_equal. apply IH. lia. }
    rewrite !Hu. reflexivity.
Qed.

(** ** [is_valid] *)

Lemma is_valid_Ok (self : Cell) (game : SudokuSolver) (r c b : list Z) :
  get_row game (row self) = Ok r ->
  get_column game (column self) = Ok c ->
  get_box game (row self) (column self) = Ok b ->
  is_valid self game = Ok (check_area r && check_area c && check_area b).
Proof.
  intros Hr Hc Hb. unfold is_valid. rewrite Hr, Hc, Hb. cbn [bind].
  destruct (check_area r), (check_area c), (check_area b); reflexivity.
Qed.

Lemma is_valid_inv (self : Cell) (game : SudokuSolver) (v : bool) :
  is_valid self game = Ok v ->
  exists r c b,
    get_row game (row self) = Ok r /\
    get_column game (column self) = Ok c /\
    get_box game (row self) (column self) = Ok b /\
    v = check_area r && check_area c && check_area b.
Proof.
  intros H. unfold is_valid in H. bind_inv H. bind_inv H. bind_inv H.
  exists a, a0, a1. repeat split; auto. inversion H.
  destruct (check_area a), (check_area a0), (check_area a1); reflexivity.
Qed.

Lemma is_valid_standard (self : Cell) (game : SudokuSolver) :
  standard_board game -> 0 <= row self <= 8 -> 0 <= column self <= 8 ->
  exists v, is_valid self game = Ok v.
Proof.
  intros Hb Hr Hc.
  destruct (standard_units game (row self) (column self) Hb Hr Hc) as [E1 [E2 E3]].
  eexists. apply is_valid_Ok; eassumption.
Qed.

(** ** [set_number] and [increment_value] on an open cell *)

Lemma set_number_open (self : Cell) (game : SudokuSolver) :
  standard_board game -> 0 <= row self <= 8 -> 0 <= column self <= 8 ->
  solved self = false ->
  0 <= current_index self < len (possibilities self) ->
  set_number self game
  = Ok (with_number self (nth (Z.to_nat (current_index self)) (possibilities self) 0),
        with_puzzle game
          (grid_set (puzzle game) (Z.to_nat (row self)) (Z.to_nat (column self))
                    (nth (Z.to_nat (current_index self)) (possibilities self) 0))).
Proof.
  intros [Hsq Hbs] Hr Hc Hs Hi. unfold set_number. rewrite Hs. cbn [negb].
  rewrite (py_index_nth _ _ 0) by exact Hi. cbn [bind].
  unfold with_number at 1 2. cbn [possibilities current_index].
  rewrite (py_index_nth _ _ 0) by exact Hi. cbn [bind].
  unfold with_number at 1 2. cbn [row column].
  rewrite puzzle_set_Ok; [reflexivity| |].
  - rewrite (square_len 9) by exact Hsq. lia.
  - rewrite (square_row_len 9) by (auto; lia). lia.
Qed.

Lemma set_number_static (self self' : Cell) (game game' : SudokuSolver) :
  set_number self game = Ok (self', game') ->
  solved self' = solved self /\ possibilities self' = possibilities self /\
  row self' = row self /\ column self' = column self /\
  current_index self' = current_index self /\
  solve_puzzle game' = solve_puzzle game /\ box_size game' = box_size game /\
  backtrack_coord game' = backtrack_coord game.
Proof.
  unfold set_number. destruct (solved self) eqn:Es; cbn [negb]; intros H.
  - inversion H; subst. repeat split; auto.
  - bind_inv H. bind_inv H. bind_inv H. inversion H; subst; clear H.
    unfold puzzle_set in E1. bind_inv E1. bind_inv E1. bind_inv E1.
    inversion E1; subst. simpl. repeat split; auto.
Qed.

Lemma increment_value_unfold (self : Cell) (game : SudokuSolver) :
  increment_value self game
  = (v <- is_valid self game ;;
     if negb v && (current_index self <? len (possibilities self) - 1) then
       '(self2, game2) <-
          set_number (with_current_index self (current_index self + 1)) game ;;
       increment_value self2 game2
     else Ok (self, game)).
Proof.
  unfold increment_value at 1.
  destruct (Z.to_nat (len (possibilities self) - 1 - current_index self)) as [|n] eqn:En;
    cbn [increment_value_loop].
  - destruct (is_valid self game) as [v| |]; cbn [bind]; try reflexivity.
    destruct (current_index self <? len (possibilities self) - 1) eqn:E.
    + apply Z.ltb_lt in E. lia.
    + rewrite andb_false_r. reflexivity.
  - destruct (is_valid self game) as [v| |]; cbn [bind]; try reflexivity.
    destruct (negb v && (current_index self <? len (possibilities self) - 1));
      [|reflexivity].
    destruct (set_number (with_current_index self (current_index self + 1)) game)
      as [[self2 game2]| |] eqn:Es; cbn [bind]; try reflexivity.
    apply set_number_static in Es. destruct Es as [_ [Hp [_ [_ [Hi _]]]]].
    unfold increment_value. rewrite Hp, Hi. cbn [possibilities current_index with_current_index].
    f_equal. lia.
Qed.

Lemma increment_value_result (n : nat) :
  forall (self : Cell) (game : SudokuSolver),
    standard_board game -> 0 <= row self <= 8 -> 0 <= column self <= 8 ->
    solved self = false ->
    0 <= current_index self < len (possibilities self) ->
    Z.to_nat (len (possibilities self) - 1 - current_index self) = n ->
    exists self' game' v,
      increment_value self game = Ok (self', game') /\
      standard_board game' /\
      is_valid self' game' = Ok v /\
      (v = true \/ current_index self' = len (possibilities self') - 1) /\
      possibilities self' = possibilities self /\
      current_index self <= current_index self' < len (possibilities self).
Proof.
  induction n as [|n IH]; intros self game Hb Hr Hc Hs Hi Hn;
    rewrite increment_value_unfold;
    destruct (is_valid_standard self game Hb Hr Hc) as [v Ev]; rewrite Ev; cbn [bind].
  - assert (E : (current_index self <? len (possibilities self) - 1) = false)
      by (apply Z.ltb_ge; lia).
    rewrite E, andb_false_r. exists self, game, v.
    split; [reflexivity|]. split; [exact Hb|]. split; [exact Ev|].
    split; [right; lia|]. split; [reflexivity | lia].
  - destruct v; cbn [negb andb].
    + exists self, game, true.
      split; [reflexivity|]. split; [exact Hb|]. split; [exact Ev|].
      split; [left; reflexivity|]. split; [reflexivity | lia].
    + assert (E : (current_index self <? len (possibilities self) - 1) = true)
        by (apply Z.ltb_lt; lia).
      rewrite E.
      rewrite set_number_open;
        cbn [row column solved current_index possibilities with_current_index];
        [| exact Hb | exact Hr | exact Hc | exact Hs | lia].
      cbn [bind].
      set (self1 := with_number (with_current_index self (current_index self + 1))
                      (nth (Z.to_nat (current_index self + 1)) (possibilities self) 0)).
      set (game1 := with_puzzle game _).
      assert (Hb1 : standard_board game1).
      { destruct Hb as [Hsq Hbs]. split; [|exact Hbs].
        apply grid_set_square. exact Hsq. }
      destruct (IH self1 game1 Hb1 Hr Hc Hs) as
          [self' [game' [v' [H1 [H2 [H3 [H4 [H5 H6]]]]]]]].
      * subst self1. cbn [possibilities current_index with_number with_current_index]. lia.
      * subst self1. cbn [possibilities current_index with_number with_current_index]. lia.
      * exists self', game', v'.
        subst self1.
        cbn [possibilities current_index with_number with_current_index] in H5, H6.
        split; [exact H1|]. split; [exact H2|]. split; [exact H3|].
        split; [exact H4|]. split; [exact H5 | lia].
Qed.

Lemma game_with_twice (self : Cell) (game : SudokuSolver) (k k' : Z) :
  game_with (cell_with self k) (game_with self game k) k' = game_with self game k'.
Proof.
  unfold game_with, cell_with, candidate_at.
  cbn [puzzle solve_puzzle box_size backtrack_coord row column possibilities].
  rewrite grid_set_twice. reflexivity.
Qed.

(** What [increment_value] returns, candidate by candidate. *)
Lemma increment_value_exact (n : nat) :
  forall (self : Cell) (game : SudokuSolver),
    standard_board game -> 0 <= row self <= 8 -> 0 <= column self <= 8 ->
    solved self = false ->
    0 <= current_index self < len (possibilities self) ->
    Z.to_nat (len (possibilities self) - 1 - current_index self) = n ->
    exists self' game',
      increment_value self game = Ok (self', game') /\
      (((is_valid self game = Ok true \/
         current_index self = len (possibilities self) - 1) /\
        self' = self /\ game' = game) \/
       (is_valid self game = Ok false /\
        exists k',
          current_index self < k' <= len (possibilities self) - 1 /\
          self' = cell_with self k' /\ game' = game_with self game k' /\
          (forall k, current_index self < k < k' ->
                     is_valid (cell_with self k) (game_with self game k) = Ok false) /\
          (is_valid self' game' = Ok true \/ k' = len (possibilities self) - 1))).
Proof.
  induction n as [|n IH]; intros self game Hb Hr Hc Hs Hi Hn;
    rewrite increment_value_unfold;
    destruct (is_valid_standard self game Hb Hr Hc) as [v Ev]; rewrite Ev; cbn [bind].
  - assert (E : (current_index self <? len (possibilities self) - 1) = false)
      by (apply Z.ltb_ge; lia).
    rewrite E, andb_false_r. exists self, game.
    split; [reflexivity|]. left. split; [right; lia | auto].
  - destruct v; cbn [negb andb].
    + exists self, game. split; [reflexivity|]. left. auto.
    + assert (E : (current_index self <? len (possibilities self) - 1) = true)
        by (apply Z.ltb_lt; lia).
      rewrite E.
      rewrite set_number_open;
        cbn [row column solved current_index possibilities with_current_index];
        [| exact Hb | exact Hr | exact Hc | exact Hs | lia].
      cbn [bind].
      change (with_number (with_current_index self (current_index self + 1))
                (nth (Z.to_nat (current_index self + 1)) (possibilities self) 0))
        with (cell_with self (current_index self + 1)).
      change (with_puzzle game
                (grid_set (puzzle game) (Z.to_nat (row self)) (Z.to_nat (column self))
                   (nth (Z.to_nat (current_index self + 1)) (possibilities self) 0)))
        with (game_with self game (current_index self + 1)).
      set (k1 := current_index self + 1).
      assert (Hb1 : standard_board (game_with self game k1)).
      { destruct Hb as [Hsq Hbs]. split; [|exact Hbs].
        apply grid_set_square. exact Hsq. }
      destruct (IH (cell_with self k1) (game_with self game k1) Hb1 Hr Hc Hs)
        as [self' [game' [H1 H2]]].
      * cbn [possibilities current_index cell_with]. lia.
      * cbn [possibilities current_index cell_with]. lia.
      * exists self', game'. split; [exact H1|]. right. split; [reflexivity|].
        cbn [possibilities current_index cell_with] in H2.
        destruct H2 as [[Hstop [-> ->]]|[Hbad [k' [Hk' [-> [-> [Hskip Hend]]]]]]].
        -- exists k1. split; [lia|]. split; [reflexivity|]. split; [reflexivity|].
           split; [intros k Hk; lia|].
           destruct Hstop as [Hv|Hl]; [left; exact Hv | right; exact Hl].
        -- exists k'. split; [lia|]. split; [reflexivity|].
           split; [apply game_with_twice|]. split.
           ++ intros k Hk. destruct (Z.eq_dec k k1) as [->|Hne]; [exact Hbad|].
              rewrite <- (game_with_twice self game k1 k). apply Hskip. lia.
           ++ exact Hend.
Qed.

(** C7: [increment_value] on an open cell of a standard board whose cursor
    points into its non-empty candidate list.  The loop steps the cursor and
    reassigns only while the cell is invalid and the cursor is below the last
    index; it returns, and then the cell is valid or the cursor is at the last
    index; a cell that is valid on entry is returned with the game as they
    were; and the cell can still be invalid on exit, as [stuck_cell] is.
    What is returned is pinned down: a cell that is valid on entry, or whose
    cursor is at the last index, is returned with the game as they were;
    otherwise the cursor ends at the first later index [k'] whose candidate,
    once written, makes the cell valid (the last index when there is none),
    the cell's number is the candidate at [k'], the grid is the one it was
    given with that candidate written at the cell's coordinate and nothing
    else changed, and every candidate passed over was invalid when written. *)
Theorem increment_value_spec (self : Cell) (game : SudokuSolver) :
  standard_board game -> 0 <= row self <= 8 -> 0 <= column self <= 8 ->
  solved self = false ->
  0 <= current_index self < len (possibilities self) ->
  increment_value self game
  = (v <- is_valid self game ;;
     if negb v && (current_index self <? len (possibilities self) - 1) then
       '(self2, game2) <-
          set_number (with_current_index self (current_index self + 1)) game ;;
       increment_value self2 game2
     else Ok (self, game))
  /\ (exists self' game' v,
         increment_value self game = Ok (self', game') /\
         is_valid self' game' = Ok v /\
         (v = true \/ current_index self' = len (possibilities self') - 1))
  /\ (is_valid self game = Ok true -> increment_value self game = Ok (self, game))
  /\ (exists self' game',
         solved stuck_cell = false /\ possibilities stuck_cell <> [] /\
         standard_board stuck_game /\
         increment_value stuck_cell stuck_game = Ok (self', game') /\
         is_valid self' game' = Ok false)
  /\ (exists self' game',
         increment_value self game = Ok (self', game') /\
         (((is_valid self game = Ok true \/
            current_index self = len (possibilities self) - 1) /\
           self' = self /\ game' = game) \/
          (is_valid self game = Ok false /\
           exists k',
             current_index self < k' <= len (possibilities self) - 1 /\
             self' = cell_with self k' /\ game' = game_with self game k' /\
             current_index self' = k' /\
             number self' = nth (Z.to_nat k') (possibilities self) 0 /\
             possibilities self' = possibilities self /\
             entry (puzzle game') (Z.to_nat (row self)) (Z.to_nat (column self))
             = number self' /\
             (forall i j, (i, j) <> (Z.to_nat (row self), Z.to_nat (column self)) ->
                          entry (puzzle game') i j = entry (puzzle game) i j) /\
             (forall k, current_index self < k < k' ->
                        is_valid (cell_with self k) (game_with self game k) = Ok false) /\
             (is_valid self' game' = Ok true \/ k' = len (possibilities self) - 1)))).
Proof.
  intros Hb Hr Hc Hs Hi. split; [apply increment_value_unfold|].
  split; [|split; [|split]].
  - destruct (increment_value_result _ self game Hb Hr Hc Hs Hi eq_refl)
      as [self' [game' [v [H1 [_ [H3 [H4 _]]]]]]].
    exists self', game', v. auto.
  - intros Hv. rewrite increment_value_unfold, Hv. reflexivity.
  - eexists _, _. split; [reflexivity|]. split; [discriminate|].
    split; [split; [split; [reflexivity | repeat constructor] | reflexivity]|].
    split; vm_compute; reflexivity.
  - destruct (increment_value_exact _ self game Hb Hr Hc Hs Hi eq_refl)
      as [self' [game' [H1 H2]]].
    exists self', game'. split; [exact H1|].
    destruct H2 as [H2|[Hbad [k' [Hk' [E1 [E2 [Hskip Hend]]]]]]]; [left; exact H2|].
    right. split; [exact Hbad|]. exists k'.
    split; [exact Hk'|]. split; [exact E1|]. split; [exact E2|].
    subst self' game'. cbn [current_index number possibilities puzzle cell_with game_with].
    split; [reflexivity|]. split; [reflexivity|]. split; [reflexivity|].
    destruct Hb as [Hsq _].
    split; [|split; [|split; [exact Hskip | exact Hend]]].
    + apply entry_grid_set_eq.
      * destruct Hsq as [Hl _]. lia.
      * pose proof (square_row_len 9 (puzzle game) (Z.to_nat (row self)) Hsq ltac:(lia))
          as Hl. unfold len in Hl. lia.
    + intros i j Hne. apply entry_grid_set_neq. congruence.
Qed.

Lemma increment_value_spec_witness :
  increment_value stuck_cell stuck_game
  = (v <- is_valid stuck_cell stuck_game ;;
     if negb v && (current_index stuck_cell <? len (possibilities stuck_cell) - 1) then
       '(self2, game2) <-
          set_number (with_current_index stuck_cell (current_index stuck_cell + 1))
                     stuck_game ;;
       increment_value self2 game2
     else Ok (stuck_cell, stuck_game))
  /\ (exists self' game' v,
         increment_value stuck_cell stuck_game = Ok (self', game') /\
         is_valid self' game' = Ok v /\
         (v = true \/ current_index self' = len (possibilities self') - 1))
  /\ (is_valid stuck_cell stuck_game = Ok true ->
      increment_value stuck_cell stuck_game = Ok (stuck_cell, stuck_game))
  /\ (exists self' game',
         solved stuck_cell = false /\ possibilities stuck_cell <> [] /\
         standard_board stuck_game /\
         increment_value stuck_cell stuck_game = Ok (self', game') /\
         is_valid self' game' = Ok false)
  /\ (exists self' game',
         increment_value stuck_cell stuck_game = Ok (self', game') /\
         (((is_valid stuck_cell stuck_game = Ok true \/
            current_index stuck_cell = len (possibilities stuck_cell) - 1) /\
           self' = stuck_cell /\ game' = stuck_game) \/
          (is_valid stuck_cell stuck_game = Ok false /\
           exists k',
             current_index stuck_cell < k' <= len (possibilities stuck_cell) - 1 /\
             self' = cell_with stuck_cell k' /\ game' = game_with stuck_cell stuck_game k' /\
             current_index self' = k' /\
             number self' = nth (Z.to_nat k') (possibilities stuck_cell) 0 /\
             possibilities self' = possibilities stuck_cell /\
             entry (puzzle game') (Z.to_nat (row stuck_cell)) (Z.to_nat (column stuck_cell))
             = number self' /\
             (forall i j,
                 (i, j) <> (Z.to_nat (row stuck_cell), Z.to_nat (column stuck_cell)) ->
                 entry (puzzle game') i j = entry (puzzle stuck_game) i j) /\
             (forall k, current_index stuck_cell < k < k' ->
                        is_valid (cell_with stuck_cell k) (game_with stuck_cell stuck_game k)
                        = Ok false) /\
             (is_valid self' game' = Ok true \/
              k' = len (possibilities stuck_cell) - 1)))).
Proof.
  apply (increment_value_spec stuck_cell stuck_game).
  - split; [split; [reflexivity | repeat constructor] | reflexivity].
  - unfold stuck_cell; cbn; lia.
  - unfold stuck_cell; cbn; lia.
  - reflexivity.
  - unfold stuck_cell, len; cbn; lia.
Defined.

(** ** [initialize_board] *)

Lemma py_index_entry {A : Type} (xs : list A) (i : Z) (x d : A) :
  0 <= i -> py_index xs i = Ok x -> nth (Z.to_nat i) xs d = x /\ i < len xs.
Proof.
  intros Hi H. pose proof (py_index_range _ _ _ H) as Hr.
  rewrite (py_index_nth _ _ d) in H by lia. inversion H. split; [reflexivity | lia].
Qed.

Lemma initialize_cell_inv (g g' : SudokuSolver) (r c : Z) :
  0 <= r -> 0 <= c ->
  initialize_cell g r c = Ok g' ->
  exists cell,
    g' = with_solve_puzzle g (solve_puzzle g ++ [cell]) /\
    built_from (puzzle g) (r, c) cell.
Proof.
  intros Hr Hc H. unfold initialize_cell in H.
  bind_inv H. bind_inv H. bind_inv H. destruct a1 as [cell g1].
  inversion H; subst; clear H.
  apply Cell_init_game in E1.
  destruct E1 as [Hg [H1 [H2 [H3 [H4 [H5 H6]]]]]]. subst g1.
  exists cell. split; [reflexivity|].
  apply (py_index_entry _ _ _ []) in E; [|exact Hr]. destruct E as [E _].
  apply (py_index_entry _ _ _ 0) in E0; [|exact Hc]. destruct E0 as [E0 _].
  unfold built_from, entry. cbn [fst snd]. rewrite E, E0, H4.
  split; [exact H1|]. split; [exact H2|]. split; [exact H3|].
  split; [reflexivity|]. split; [exact H5 | exact H6].
Qed.

Lemma initialize_row_inv (r : Z) (cols : list Z) :
  0 <= r -> (forall c, In c cols -> 0 <= c) ->
  forall g g',
    foldM (fun g1 c => initialize_cell g1 r c) cols g = Ok g' ->
    exists cells,
      g' = with_solve_puzzle g (solve_puzzle g ++ cells) /\
      Forall2 (built_from (puzzle g)) (map (fun c => (r, c)) cols) cells.
Proof.
  intros Hr. induction cols as [|c t IH]; intros Hc g g' H; simpl in H.
  - inversion H; subst. exists []. split; [|constructor].
    destruct g'; unfold with_solve_puzzle; simpl. rewrite app_nil_r. reflexivity.
  - bind_inv H. apply initialize_cell_inv in E; [|exact Hr|apply Hc; left; reflexivity].
    destruct E as [cell [Ea Hcell]]. subst a.
    apply IH in H; [|intros; apply Hc; right; assumption].
    destruct H as [cells [Eg Hcells]]. exists (cell :: cells). split.
    + rewrite Eg. unfold with_solve_puzzle. simpl. rewrite <- app_assoc. reflexivity.
    + simpl. constructor; [exact Hcell | exact Hcells].
Qed.

Lemma initialize_rows_inv (rows : list Z) :
  (forall r, In r rows -> 0 <= r) ->
  forall g g',
    foldM (fun g1 row_number =>
             r <- py_index (puzzle g1) row_number ;;
             foldM (fun g2 column_number => initialize_cell g2 row_number column_number)
                   (py_range 0 (len r)) g1)
          rows g = Ok g' ->
    exists cells,
      g' = with_solve_puzzle g (solve_puzzle g ++ cells) /\
      Forall2 (built_from (puzzle g)) (flat_map (row_coords (puzzle g)) rows) cells.
Proof.
  induction rows as [|r t IH]; intros Hr g g' H; simpl in H.
  - inversion H; subst. exists []. split; [|constructor].
    destruct g'; unfold with_solve_puzzle; simpl. rewrite app_nil_r. reflexivity.
  - apply bind_Ok in H. destruct H as [a [E0 H]].
    apply bind_Ok in E0. destruct E0 as [x [E E0]].
    assert (Hr0 : 0 <= r) by (apply Hr; left; reflexivity).
    apply (py_index_entry _ _ _ []) in E; [|exact Hr0]. destruct E as [E _].
    apply initialize_row_inv in E0;
      [|exact Hr0|intros c Hc; apply in_py_range in Hc; lia].
    destruct E0 as [cells1 [Ea H1]]. subst a.
    apply IH in H; [|intros; apply Hr; right; assumption].
    destruct H as [cells2 [Eg H2]]. cbn [puzzle with_solve_puzzle] in *.
    exists (cells1 ++ cells2). split.
    + rewrite Eg. unfold with_solve_puzzle. simpl. rewrite <- app_assoc. reflexivity.
    + simpl. apply Forall2_app; [|exact H2].
      unfold row_coords. rewrite E. exact H1.
Qed.

Lemma initialize_board_inv (g g' : SudokuSolver) :
  initialize_board g = Ok g' ->
  exists cells,
    g' = with_solve_puzzle g (solve_puzzle g ++ cells) /\
    Forall2 (built_from (puzzle g)) (all_coords (puzzle g)) cells.
Proof.
  intros H. apply initialize_rows_inv in H; [exact H|].
  intros r Hr. apply in_py_range in Hr. lia.
Qed.

(** On a standard board construction never raises. *)
Lemma foldM_total {A S : Type} (f : S -> A -> outcome S) (I : S -> Prop) (xs : list A) :
  (forall s x, I s -> In x xs -> exists s', f s x = Ok s' /\ I s') ->
  forall s, I s -> exists s', foldM f xs s = Ok s' /\ I s'.
Proof.
  induction xs as [|x t IH]; intros Hf s Hs; simpl.
  - exists s. split; [reflexivity | exact Hs].
  - destruct (Hf s x Hs) as [s1 [E1 H1]]; [left; reflexivity|].
    rewrite E1. cbn [bind]. apply IH; [|exact H1].
    intros s2 y H2 Hy. apply Hf; [exact H2 | right; exact Hy].
Qed.

Lemma initialize_cell_standard (g : SudokuSolver) (r c : Z) :
  standard_board g -> 0 <= r <= 8 -> 0 <= c <= 8 ->
  exists g', initialize_cell g r c = Ok g' /\ standard_board g'.
Proof.
  intros Hb Hr Hc. unfold initialize_cell.
  destruct Hb as [Hsq Hbs].
  rewrite (py_index_nth _ _ []) by (rewrite (square_len 9) by exact Hsq; lia).
  cbn [bind].
  rewrite (py_index_nth _ _ 0) by (rewrite (square_row_len 9) by (auto; lia); lia).
  cbn [bind].
  set (item := nth (Z.to_nat c) (nth (Z.to_nat r) (puzzle g) []) 0).
  destruct (Z.lt_ge_cases 0 item) as [Hn|Hn].
  - rewrite Cell_init_clue by exact Hn. cbn [bind]. eexists. split; [reflexivity|].
    split; assumption.
  - destruct (standard_units g r c (conj Hsq Hbs) Hr Hc) as [E1 [E2 E3]].
    rewrite (Cell_init_empty c r item g _ _ _ Hn E1 E2 E3). cbn [bind].
    eexists. split; [reflexivity|]. split; assumption.
Qed.

Lemma initialize_board_standard (g : SudokuSolver) :
  standard_board g -> exists g', initialize_board g = Ok g' /\ standard_board g'.
Proof.
  intros Hb. unfold initialize_board.
  assert (Hlen : len (puzzle g) = 9) by (apply (square_len 9); apply Hb).
  rewrite Hlen.
  apply (foldM_total _ standard_board); [|exact Hb].
  intros s r Hs Hr. apply in_py_range in Hr.
  destruct Hs as [Hsq Hbs].
  rewrite (py_index_nth _ _ []) by (rewrite (square_len 9) by exact Hsq; lia).
  cbn [bind]. rewrite (square_row_len 9) by (auto; lia).
  apply (foldM_total _ standard_board); [|split; assumption].
  intros s' c Hs' Hc. apply in_py_range in Hc.
  apply initialize_cell_standard; [exact Hs' | lia | lia].
Qed.

(** ** [check_area] *)

Lemma distinct_In (xs : list Z) (x : Z) : In x (distinct xs) <-> In x xs.
Proof.
  induction xs as [|h t IH]; simpl; [tauto|].
  destruct (existsb (Z.eqb h) (distinct t)) eqn:E.
  - apply existsb_exists in E. destruct E as [y [Hy Hhy]].
    apply Z.eqb_eq in Hhy. subst y. rewrite IH. split; [tauto|].
    intros [->|H]; [apply IH; exact Hy | exact H].
  - simpl. rewrite IH. tauto.
Qed.

Lemma distinct_length (xs : list Z) : (length (distinct xs) <= length xs)%nat.
Proof.
  induction xs as [|h t IH]; simpl; [lia|].
  destruct (existsb (Z.eqb h) (distinct t)); simpl; lia.
Qed.

Lemma distinct_NoDup (xs : list Z) :
  length (distinct xs) = length xs <-> NoDup xs.
Proof.
  induction xs as [|h t IH]; simpl.
  - split; [constructor | reflexivity].
  - destruct (existsb (Z.eqb h) (distinct t)) eqn:E.
    + pose proof (distinct_length t). split; [lia|].
      intros Hnd. inversion Hnd; subst. exfalso.
      apply existsb_exists in E. destruct E as [y [Hy Hhy]].
      apply Z.eqb_eq in Hhy. subst y. apply (proj1 (distinct_In _ _)) in Hy.
      match goal with Hn : ~ In _ _ |- _ => exact (Hn Hy) end.
    + simpl. split.
      * intros Hl. constructor.
        -- intros Hin. apply (proj2 (distinct_In _ _)) in Hin.
           assert (existsb (Z.eqb h) (distinct t) = true)
             by (apply existsb_exists; exists h; split; [exact Hin | apply Z.eqb_refl]).
           congruence.
        -- apply IH. lia.
      * intros Hnd. inversion Hnd; subst. f_equal. apply IH. assumption.
Qed.

Lemma check_area_NoDup (area : list Z) :
  check_area area = true <-> NoDup (filter (fun item => negb (item =? 0)) area).
Proof.
  unfold check_area. rewrite Nat.eqb_eq. rewrite <- distinct_NoDup.
  split; intros H; symmetry; exact H.
Qed.

(** ** Cells built by [initialize_board] *)

Lemma Forall2_nth_error {A B : Type} (R : A -> B -> Prop) (l : list A) (l' : list B) :
  Forall2 R l l' ->
  forall n y, nth_error l' n = Some y -> exists x, nth_error l n = Some x /\ R x y.
Proof.
  induction 1 as [|x y l l' Hxy H IH]; intros n z Hn.
  - destruct n; discriminate.
  - destruct n as [|n]; simpl in *.
    + inversion Hn; subst. exists x. split; [reflexivity | exact Hxy].
    + apply IH. exact Hn.
Qed.

Lemma Forall2_In_r {A B : Type} (R : A -> B -> Prop) (l : list A) (l' : list B) :
  Forall2 R l l' -> forall y, In y l' -> exists x, In x l /\ R x y.
Proof.
  intros H y Hy. apply In_nth_error in Hy. destruct Hy as [n Hn].
  destruct (Forall2_nth_error _ _ _ H n _ Hn) as [x [Hx Hr]].
  exists x. split; [eapply nth_error_In; exact Hx | exact Hr].
Qed.

Lemma in_all_coords (p : list (list Z)) (r c : Z) :
  In (r, c) (all_coords p) <->
  0 <= r < len p /\ 0 <= c < len (nth (Z.to_nat r) p []).
Proof.
  unfold all_coords, row_coords. rewrite in_flat_map. split.
  - intros [x [Hx Hin]]. apply in_map_iff in Hin. destruct Hin as [y [Hy Hin]].
    inversion Hy; subst. apply in_py_range in Hx. apply in_py_range in Hin. lia.
  - intros [Hr Hc]. exists r. split; [apply in_py_range; lia|].
    apply in_map_iff. exists c. split; [reflexivity | apply in_py_range; lia].
Qed.

Lemma all_coords_square9 (p : list (list Z)) :
  square 9 p -> all_coords p = all_coords classic_puzzle.
Proof.
  intros Hsq. unfold all_coords. rewrite (square_len 9) by exact Hsq.
  change (len classic_puzzle) with 9.
  apply flat_map_ext_in. intros r Hr. apply in_py_range in Hr.
  unfold row_coords. rewrite (square_row_len 9) by (auto; lia).
  rewrite (square_row_len 9 classic_puzzle);
    [reflexivity | split; [reflexivity | repeat constructor] | lia].
Qed.

Lemma entry_bounds (p : list (list Z)) (lo hi : Z) (i j : nat) :
  Forall (Forall (fun v => lo <= v <= hi)) p ->
  (i < length p)%nat -> (j < length (nth i p []))%nat ->
  lo <= entry p i j <= hi.
Proof.
  intros H Hi Hj. unfold entry. rewrite Forall_forall in H.
  assert (Hrow : Forall (fun v => lo <= v <= hi) (nth i p []))
    by (apply H; apply nth_In; exact Hi).
  rewrite Forall_forall in Hrow. apply Hrow. apply nth_In. exact Hj.
Qed.

(** ** Moving the cursor *)

Lemma with_backtrack_coord_twice (g : SudokuSolver) (a b : Z) :
  with_backtrack_coord (with_backtrack_coord g a) b = with_backtrack_coord g b.
Proof. reflexivity. Qed.

Lemma with_backtrack_coord_same (g : SudokuSolver) :
  with_backtrack_coord g (backtrack_coord g) = g.
Proof. destruct g; reflexivity. Qed.

Lemma py_index_fail {A : Type} (xs : list A) (i : Z) :
  - len xs <= i < len xs -> exists x, py_index xs i = Ok x.
Proof.
  intros H. unfold py_index.
  assert (Hn : 0 <= norm_index xs i < len xs).
  { unfold norm_index. destruct (i <? 0) eqn:E;
      [apply Z.ltb_lt in E | apply Z.ltb_ge in E]; lia. }
  destruct (0 <=? norm_index xs i) eqn:E0; [|apply Z.leb_gt in E0; lia].
  destruct (norm_index xs i <? len xs) eqn:E1; [|apply Z.ltb_ge in E1; lia].
  cbn [andb].
  destruct (nth_error xs (Z.to_nat (norm_index xs i))) eqn:En; [eauto|].
  apply nth_error_None in En. unfold len in Hn. lia.
Qed.

Lemma py_index_raise {A : Type} (xs : list A) (i : Z) (e : exn) :
  py_index xs i = Raise e -> e = IndexError /\ (i < - len xs \/ len xs <= i).
Proof.
  intros H.
  destruct (Z.lt_ge_cases i (- len xs)) as [Hlo|Hlo];
    [|destruct (Z.lt_ge_cases i (len xs)) as [Hhi|Hhi]].
  - split; [|left; exact Hlo].
    unfold py_index in H.
    destruct ((0 <=? norm_index xs i) && (norm_index xs i <? len xs));
      [destruct (nth_error xs (Z.to_nat (norm_index xs i)))|];
      congruence.
  - destruct (py_index_fail xs i) as [x Hx]; [lia | congruence].
  - split; [|right; exact Hhi].
    unfold py_index in H.
    destruct ((0 <=? norm_index xs i) && (norm_index xs i <? len xs));
      [destruct (nth_error xs (Z.to_nat (norm_index xs i)))|];
      congruence.
Qed.

Lemma py_index_no_timeout {A : Type} (xs : list A) (i : Z) : py_index xs i <> Timeout.
Proof.
  unfold py_index.
  destruct ((0 <=? norm_index xs i) && (norm_index xs i <? len xs));
    [destruct (nth_error xs (Z.to_nat (norm_index xs i)))|]; discriminate.
Qed.

Lemma move_forward_loop_spec (fuel : nat) :
  forall g : SudokuSolver,
    (Z.to_nat (len (solve_puzzle g) - 1 - backtrack_coord g) <= fuel)%nat ->
    match move_forward_loop fuel g with
    | Ok g' =>
        exists k', g' = with_backtrack_coord g k' /\
                   backtrack_coord g <= k' /\
                   (forall i, backtrack_coord g <= i < k' ->
                              solved_at (solve_puzzle g) i true) /\
                   (k' < len (solve_puzzle g) - 1 ->
                    solved_at (solve_puzzle g) k' false) /\
                   (backtrack_coord g <= len (solve_puzzle g) - 1 ->
                    k' <= len (solve_puzzle g) - 1)
    | Raise e => backtrack_coord g < - len (solve_puzzle g)
    | Timeout => False
    end.
Proof.
  induction fuel as [|fuel IH]; intros g Hf.
  - cbn [move_forward_loop].
    destruct (backtrack_coord g <? len (solve_puzzle g) - 1) eqn:E.
    + apply Z.ltb_lt in E. lia.
    + exists (backtrack_coord g). rewrite with_backtrack_coord_same.
      apply Z.ltb_ge in E. repeat split; intros; lia.
  - cbn [move_forward_loop].
    destruct (backtrack_coord g <? len (solve_puzzle g) - 1) eqn:E.
    + apply Z.ltb_lt in E.
      destruct (py_index (solve_puzzle g) (backtrack_coord g)) as [c|e|] eqn:Ec;
        cbn [bind].
      * destruct (solved c) eqn:Es.
        -- specialize (IH (with_backtrack_coord g (backtrack_coord g + 1))).
           cbn [solve_puzzle backtrack_coord with_backtrack_coord] in IH.
           destruct (move_forward_loop fuel
                       (with_backtrack_coord g (backtrack_coord g + 1)))
             as [g'|e|];
             [| apply py_index_range in Ec; assert (IH' := IH ltac:(lia)); lia
              | apply IH; lia ].
           destruct IH as [k' [Eg [H1 [H2 [H3 H4]]]]]; [lia|].
           exists k'. rewrite with_backtrack_coord_twice in Eg.
           split; [exact Eg|]. split; [lia|]. split; [|split; [exact H3 | lia]].
           intros i Hi. destruct (Z.eq_dec i (backtrack_coord g)) as [->|Hne].
           ++ exists c. split; assumption.
           ++ apply H2. lia.
        -- exists (backtrack_coord g). rewrite with_backtrack_coord_same.
           split; [reflexivity|]. split; [lia|]. split; [intros; lia|].
           split; [intros _; exists c; split; assumption | lia].
      * apply py_index_raise in Ec. lia.
      * apply py_index_no_timeout in Ec. exact Ec.
    + exists (backtrack_coord g). rewrite with_backtrack_coord_same.
      apply Z.ltb_ge in E. repeat split; intros; lia.
Qed.

Lemma move_forward_spec (g : SudokuSolver) :
  match move_forward g with
  | Ok g' =>
      exists k', g' = with_backtrack_coord g k' /\
                 backtrack_coord g <= k' /\
                 (forall i, backtrack_coord g <= i < k' ->
                            solved_at (solve_puzzle g) i true) /\
                 (k' < len (solve_puzzle g) - 1 ->
                  solved_at (solve_puzzle g) k' false) /\
                 (backtrack_coord g <= len (solve_puzzle g) - 1 ->
                  k' <= len (solve_puzzle g) - 1)
  | Raise e => backtrack_coord g < - len (solve_puzzle g)
  | Timeout => False
  end.
Proof. apply move_forward_loop_spec. lia. Qed.

Lemma backtrack_loop_spec (fuel : nat) :
  forall g : SudokuSolver,
    (Z.to_nat (backtrack_coord g + len (solve_puzzle g) + 1) <= fuel)%nat ->
    match backtrack_loop fuel g with
    | Ok g' =>
        exists k', g' = with_backtrack_coord g k' /\
                   k' <= backtrack_coord g /\
                   (forall i, k' < i <= backtrack_coord g ->
                              solved_at (solve_puzzle g) i true) /\
                   solved_at (solve_puzzle g) k' false
    | Raise e =>
        e = IndexError /\
        (len (solve_puzzle g) <= backtrack_coord g \/
         forall i, - len (solve_puzzle g) <= i <= backtrack_coord g ->
                   solved_at (solve_puzzle g) i true)
    | Timeout => False
    end.
Proof.
  induction fuel as [|fuel IH]; intros g Hf; cbn [backtrack_loop];
    destruct (py_index (solve_puzzle g) (backtrack_coord g)) as [c|e|] eqn:Ec;
    cbn [bind]; try (apply py_index_no_timeout in Ec; exact Ec).
  - apply py_index_range in Ec. lia.
  - apply py_index_raise in Ec. destruct Ec as [-> [Hlo|Hhi]].
    + split; [reflexivity|]. right. intros; lia.
    + split; [reflexivity|]. left. exact Hhi.
  - destruct (solved c) eqn:Es.
    + specialize (IH (with_backtrack_coord g (backtrack_coord g - 1))).
      cbn [solve_puzzle backtrack_coord with_backtrack_coord] in IH.
      pose proof (py_index_range _ _ _ Ec) as Hrange.
      destruct (backtrack_loop fuel (with_backtrack_coord g (backtrack_coord g - 1)))
        as [g'|e|].
      * destruct IH as [k' [Eg [H1 [H2 H3]]]]; [lia|].
        exists k'. rewrite with_backtrack_coord_twice in Eg.
        split; [exact Eg|]. split; [lia|]. split; [|exact H3].
        intros i Hi. destruct (Z.eq_dec i (backtrack_coord g)) as [->|Hne].
        -- exists c. split; assumption.
        -- apply H2. lia.
      * destruct IH as [He H1]; [lia|]. split; [exact He|]. right.
        destruct H1 as [H1|H1]; [lia|].
        intros i Hi. destruct (Z.eq_dec i (backtrack_coord g)) as [->|Hne].
        -- exists c. split; assumption.
        -- apply H1. lia.
      * apply IH. lia.
    + exists (backtrack_coord g). rewrite with_backtrack_coord_same.
      split; [reflexivity|]. split; [lia|]. split; [intros; lia|].
      exists c. split; assumption.
  - apply py_index_raise in Ec. destruct Ec as [-> [Hlo|Hhi]].
    + split; [reflexivity|]. right. intros; lia.
    + split; [reflexivity|]. left. exact Hhi.
Qed.

Lemma backtrack_spec (g : SudokuSolver) :
  match backtrack g with
  | Ok g' =>
      exists k', g' = with_backtrack_coord g k' /\
                 k' <= backtrack_coord g - 1 /\
                 (forall i, k' < i <= backtrack_coord g - 1 ->
                            solved_at (solve_puzzle g) i true) /\
                 solved_at (solve_puzzle g) k' false
  | Raise e =>
      e = IndexError /\
      (len (solve_puzzle g) <= backtrack_coord g - 1 \/
       forall i, - len (solve_puzzle g) <= i <= backtrack_coord g - 1 ->
                 solved_at (solve_puzzle g) i true)
  | Timeout => False
  end.
Proof.
  unfold backtrack.
  pose proof (backtrack_loop_spec
                (Z.to_nat (backtrack_coord (with_backtrack_coord g (backtrack_coord g - 1))
                           + len (solve_puzzle (with_backtrack_coord g (backtrack_coord g - 1)))
                           + 1))
                (with_backtrack_coord g (backtrack_coord g - 1)) (le_n _)) as H.
  cbn [solve_puzzle backtrack_coord with_backtrack_coord] in *.
  destruct (backtrack_loop _ _) as [g'|e|]; [|exact H..].
  destruct H as [k' [Eg H]]. exists k'.
  rewrite with_backtrack_coord_twice in Eg. split; [exact Eg | exact H].
Qed.

(** ** Methods run on the cell at the cursor *)

Lemma with_solve_puzzle_same (g : SudokuSolver) :
  with_solve_puzzle g (solve_puzzle g) = g.
Proof. destruct g; reflexivity. Qed.

Lemma store_cell_same (g : SudokuSolver) (k : Z) (c : Cell) :
  py_index (solve_puzzle g) k = Ok c -> store_cell g k c = Ok g.
Proof.
  intros H. unfold store_cell.
  rewrite (py_setitem_of_index _ _ _ c H). cbn [bind].
  apply py_index_Ok in H. destruct H as [_ H].
  rewrite (update_same _ _ _ H), with_solve_puzzle_same. reflexivity.
Qed.

Lemma on_cell_unchanged (m : Cell -> SudokuSolver -> outcome (Cell * SudokuSolver))
      (k : Z) (g : SudokuSolver) (c : Cell) :
  py_index (solve_puzzle g) k = Ok c -> m c g = Ok (c, g) -> on_cell m k g = Ok g.
Proof.
  intros Hc Hm. unfold on_cell. rewrite Hc. cbn [bind]. rewrite Hm. cbn [bind].
  apply store_cell_same. exact Hc.
Qed.

(** ** A solved grid *)

Lemma complete_grid_cells (p : list (list Z)) (g : SudokuSolver) :
  complete_grid p ->
  initialize_board (SudokuSolver_init p) = Ok g ->
  g = with_solve_puzzle (SudokuSolver_init p) (solve_puzzle g) /\
  Forall (fun c => solved c = true /\ possibilities c = []) (solve_puzzle g) /\
  length (solve_puzzle g) = 81%nat /\
  exists c, py_index (solve_puzzle g) 80 = Ok c /\ row c = 8 /\ column c = 8.
Proof.
  intros [Hsq [Hd _]] Hi.
  apply initialize_board_inv in Hi. destruct Hi as [cells [Eg Hcells]].
  cbn [solve_puzzle puzzle SudokuSolver_init app] in Eg, Hcells.
  assert (Ecells : solve_puzzle g = cells) by (rewrite Eg; reflexivity).
  rewrite Ecells. split; [exact Eg|]. split; [|split].
  - apply Forall_forall. intros c Hc.
    destruct (Forall2_In_r _ _ _ Hcells c Hc) as [[r k] [Hin Hb]].
    apply in_all_coords in Hin. destruct Hin as [Hr Hk].
    destruct Hb as [_ [_ [_ [Hn [Hpos _]]]]]. cbn [fst snd] in Hn.
    apply Hpos. rewrite Hn.
    assert (1 <= entry p (Z.to_nat r) (Z.to_nat k) <= 9); [|lia].
    apply entry_bounds; [exact Hd | unfold len in Hr; lia | unfold len in Hk; lia].
  - rewrite <- (Forall2_length Hcells), (all_coords_square9 p Hsq). reflexivity.
  - assert (Hlen : length cells = 81%nat)
      by (rewrite <- (Forall2_length Hcells), (all_coords_square9 p Hsq); reflexivity).
    destruct (nth_error cells 80) as [c|] eqn:Ec;
      [|apply nth_error_None in Ec; lia].
    destruct (Forall2_nth_error _ _ _ Hcells 80%nat c Ec) as [[r k] [Hx Hb]].
    rewrite (all_coords_square9 p Hsq) in Hx.
    vm_compute in Hx. inversion Hx; subst r k.
    exists c. split.
    + rewrite py_index_nonneg by lia. change (Z.to_nat 80) with 80%nat.
      rewrite Ec. reflexivity.
    + destruct Hb as [H1 [H2 _]]. split; assumption.
Qed.

Lemma complete_grid_last_cell_valid (p : list (list Z)) (g : SudokuSolver) (c : Cell) :
  complete_grid p -> puzzle g = p -> box_size g = 3 ->
  row c = 8 -> column c = 8 -> is_valid c g = Ok true.
Proof.
  intros [Hsq [_ [Hrows [Hcols Hboxes]]]] Hp Hbs Hr Hc.
  assert (Hb : standard_board g) by (split; [rewrite Hp; exact Hsq | exact Hbs]).
  destruct (standard_units g 8 8 Hb) as [E1 [E2 E3]]; [lia | lia |].
  rewrite (is_valid_Ok c g _ _ _) by (rewrite ?Hr, ?Hc; eassumption).
  f_equal. rewrite Hp.
  rewrite !andb_true_iff. split; [split|]; apply check_area_NoDup; apply NoDup_filter.
  - apply Hrows. change (Z.to_nat 8) with 8%nat. lia.
  - apply Hcols. change (Z.to_nat 8) with 8%nat. lia.
  - apply (Hboxes 2%nat 2%nat); lia.
Qed.

(** C8: on a fully solved grid every cell is fixed at construction, the one
    round of the main loop skips to the last cell, finds it valid and steps
    past it, changing nothing but the cursor (no cell is reset, no retreat is
    made), and [solve] returns the grid it was given. *)
Theorem solved_grid_unchanged (p : list (list Z)) :
  complete_grid p ->
  exists g,
    initialize_board (SudokuSolver_init p) = Ok g /\
    puzzle g = p /\
    Forall (fun c => solved c = true) (solve_puzzle g) /\
    move_forward g = Ok (with_backtrack_coord g 80) /\
    solve_step g = Ok (with_backtrack_coord g 81) /\
    (forall fuel, run_solve (S fuel) g = Ok (with_backtrack_coord g 81)) /\
    (forall fuel, solve (S fuel) p = Ok p).
Proof.
  intros Hp.
  assert (Hsq : square 9 p) by apply Hp.
  assert (Hb0 : standard_board (SudokuSolver_init p)).
  { split; [exact Hsq|]. cbn [box_size SudokuSolver_init].
    rewrite (square_len 9 p Hsq). reflexivity. }
  destruct (initialize_board_standard _ Hb0) as [g [Hi Hb]].
  destruct (complete_grid_cells p g Hp Hi) as [Eg [Hall [Hlen [c [Hc [Hcr Hcc]]]]]].
  assert (Hpz : puzzle g = p) by (rewrite Eg; reflexivity).
  assert (Hk : backtrack_coord g = 0) by (rewrite Eg; reflexivity).
  assert (Hn : len (solve_puzzle g) = 81) by (unfold len; rewrite Hlen; reflexivity).
  assert (Hcs : solved c = true).
  { apply py_index_Ok in Hc. destruct Hc as [_ Hc]. apply nth_error_In in Hc.
    rewrite Forall_forall in Hall. apply Hall. exact Hc. }
  assert (Hmove : move_forward g = Ok (with_backtrack_coord g 80)).
  { pose proof (move_forward_spec g) as H.
    destruct (move_forward g) as [g'|e|]; [|lia|contradiction].
    destruct H as [k' [Eg' [H1 [H2 [H3 H4]]]]]. rewrite Eg'. do 2 f_equal.
    assert (k' <= 80) by lia.
    destruct (Z.eq_dec k' 80) as [E|E]; [exact E|].
    destruct H3 as [c' [Hc' Hs']]; [lia|].
    apply py_index_Ok in Hc'. destruct Hc' as [_ Hc']. apply nth_error_In in Hc'.
    rewrite Forall_forall in Hall. destruct (Hall c' Hc'). congruence. }
  assert (Hvalid : is_valid c (with_backtrack_coord g 80) = Ok true).
  { apply (complete_grid_last_cell_valid p); auto. apply Hb. }
  assert (Hstep : solve_step g = Ok (with_backtrack_coord g 81)).
  { unfold solve_step. rewrite Hmove. cbn [bind]. unfold set_cell.
    cbn [backtrack_coord with_backtrack_coord].
    rewrite (on_cell_unchanged set_number 80 (with_backtrack_coord g 80) c Hc
               (set_number_fixed _ _ Hcs)). cbn [bind].
    rewrite (on_cell_unchanged increment_value 80 (with_backtrack_coord g 80) c Hc)
      by (rewrite increment_value_unfold, Hvalid; reflexivity).
    cbn [bind]. unfold change_cells.
    cbn [solve_puzzle with_backtrack_coord]. rewrite Hc. cbn [bind].
    rewrite Hvalid. cbn [bind]. reflexivity. }
  assert (Hrun : forall fuel, run_solve (S fuel) g = Ok (with_backtrack_coord g 81)).
  { intros fuel. cbn [run_solve]. rewrite Hk, Hn. cbn [Z.leb Z.sub Z.add Z.compare
      Z.opp Z.pos_sub Pos.compare Pos.compare_cont Pos.pred_double].
    change (0 <=? 81 - 1) with true. cbv iota. rewrite Hstep. cbn [bind].
    destruct fuel; cbn [run_solve backtrack_coord solve_puzzle with_backtrack_coord];
      rewrite Hn; reflexivity. }
  exists g. split; [exact Hi|]. split; [exact Hpz|]. split.
  { eapply Forall_impl; [|exact Hall]. intros x [Hx _]. exact Hx. }
  split; [exact Hmove|]. split; [exact Hstep|]. split; [exact Hrun|].
  intros fuel. unfold solve. rewrite Hi. cbn [bind]. rewrite Hrun. cbn [bind].
  cbn [puzzle with_backtrack_coord]. rewrite Hpz. reflexivity.
Qed.

Ltac nodup_by_check :=
  match goal with
  | |- NoDup ?l => exact (proj1 (check_area_NoDup l) eq_refl)
  end.

Lemma solved_grid_unchanged_witness :
  exists g,
    initialize_board (SudokuSolver_init solution) = Ok g /\
    puzzle g = solution /\
    Forall (fun c => solved c = true) (solve_puzzle g) /\
    move_forward g = Ok (with_backtrack_coord g 80) /\
    solve_step g = Ok (with_backtrack_coord g 81) /\
    (forall fuel, run_solve (S fuel) g = Ok (with_backtrack_coord g 81)) /\
    (forall fuel, solve (S fuel) solution = Ok solution).
Proof.
  apply (solved_grid_unchanged solution).
  split; [split; [reflexivity | repeat constructor]|].
  split; [repeat constructor; lia|].
  split; [|split].
  - intros i Hi.
    do 9 (destruct i as [|i]; [nodup_by_check|]). lia.
  - intros j Hj.
    do 9 (destruct j as [|j]; [nodup_by_check|]). lia.
  - intros i j Hi Hj.
    do 3 (destruct i as [|i];
          [do 3 (destruct j as [|j]; [nodup_by_check|]); lia|]). lia.
Defined.

(** ** The retreat past the first cell *)



Lemma solved_at_fun (cells : list Cell) (i : Z) :
  solved_at cells i true -> solved_at cells i false -> False.
Proof.
  intros [c [H1 H2]] [c' [H3 H4]]. congruence.
Qed.

Lemma solved_at_range (cells : list Cell) (i : Z) (b : bool) :
  solved_at cells i b -> - len cells <= i < len cells.
Proof. intros [c [H _]]. eapply py_index_range. exact H. Qed.





(** ** A run that neither ends nor raises *)







(** ** What one method changes *)

Lemma static_coords (cs cs' : list Cell) :
  map static cs = map static cs' -> map coords cs = map coords cs'.
Proof.
  intros H.
  assert (E : forall l, map coords l = map (fun s : bool * list Z * Z * Z =>
                                              (snd (fst s), snd s)) (map static l)).
  { intros l. rewrite map_map. apply map_ext. intros c. reflexivity. }
  rewrite (E cs), (E cs'), H. reflexivity.
Qed.

Lemma map_update {A B : Type} (f : A -> B) (xs : list A) (n : nat) (x y : A) :
  nth_error xs n = Some x -> f y = f x -> map f (update xs n y) = map f xs.
Proof.
  revert n. induction xs as [|h t IH]; intros [|n] H E; simpl in *; try discriminate.
  - inversion H; subst. rewrite E. reflexivity.
  - f_equal. apply IH; assumption.
Qed.

Lemma Forall_update {A : Type} (P : A -> Prop) (xs : list A) (n : nat) (y : A) :
  Forall P xs -> P y -> Forall P (update xs n y).
Proof.
  intros H Hy. revert n. induction H as [|h t Hh Ht IH]; intros [|n]; simpl;
    constructor; auto.
Qed.

Lemma len_update {A : Type} (xs : list A) (n : nat) (v : A) :
  len (update xs n v) = len xs.
Proof. unfold len. rewrite update_length. reflexivity. Qed.

Lemma norm_index_update {A : Type} (xs : list A) (n : nat) (v : A) (i : Z) :
  norm_index (update xs n v) i = norm_index xs i.
Proof. unfold norm_index. rewrite len_update. reflexivity. Qed.

Lemma py_index_update_eq {A : Type} (xs : list A) (i : Z) (x v : A) :
  py_index xs i = Ok x ->
  py_index (update xs (Z.to_nat (norm_index xs i)) v) i = Ok v.
Proof.
  intros H. apply py_index_Ok in H. destruct H as [[H0 H1] _].
  unfold py_index. rewrite norm_index_update, len_update.
  destruct (0 <=? norm_index xs i) eqn:E0; [|apply Z.leb_gt in E0; lia].
  destruct (norm_index xs i <? len xs) eqn:E1; [|apply Z.ltb_ge in E1; lia].
  cbn [andb]. rewrite nth_error_update_eq; [reflexivity|]. unfold len in H1. lia.
Qed.

Lemma norm_index_ge {A : Type} (xs : list A) (i : Z) : i <= norm_index xs i.
Proof.
  unfold norm_index. pose proof (len_nonneg xs).
  destruct (i <? 0); lia.
Qed.

Lemma store_cell_inv (g g' : SudokuSolver) (k : Z) (c' : Cell) :
  store_cell g k c' = Ok g' ->
  g' = with_solve_puzzle g
         (update (solve_puzzle g) (Z.to_nat (norm_index (solve_puzzle g) k)) c').
Proof.
  unfold store_cell. intros H. bind_inv H. inversion H; subst; clear H.
  apply py_setitem_Ok in E. destruct E as [_ E]. rewrite E. reflexivity.
Qed.

Lemma set_number_inv (self self' : Cell) (game game' : SudokuSolver) :
  set_number self game = Ok (self', game') ->
  0 <= row self -> 0 <= column self ->
  (solved self = true /\ self' = self /\ game' = game) \/
  (solved self = false /\
   exists v,
     py_index (possibilities self) (current_index self) = Ok v /\
     self' = with_number self v /\
     game' = with_puzzle game
               (grid_set (puzzle game) (Z.to_nat (row self)) (Z.to_nat (column self)) v) /\
     row self < len (puzzle game) /\
     column self < len (nth (Z.to_nat (row self)) (puzzle game) [])).
Proof.
  unfold set_number. intros H Hr Hc. destruct (solved self) eqn:Es; cbn [negb] in H.
  - left. inversion H; subst. auto.
  - right. split; [reflexivity|].
    apply bind_Ok in H. destruct H as [v [Ev H]].
    apply bind_Ok in H. destruct H as [w [Ew H]].
    apply bind_Ok in H. destruct H as [g1 [Eg H]].
    inversion H; subst; clear H.
    unfold with_number in Ew at 1 2. cbn [possibilities current_index] in Ew.
    assert (w = v) by congruence. subst w.
    unfold with_number in Eg at 1 2. cbn [row column] in Eg.
    apply puzzle_set_inv in Eg; [|exact Hr|exact Hc].
    destruct Eg as [H1 [H2 H3]].
    exists v. repeat split; assumption.
Qed.

Lemma is_valid_ext (c c' : Cell) (g g' : SudokuSolver) :
  puzzle g' = puzzle g -> box_size g' = box_size g ->
  row c' = row c -> column c' = column c ->
  is_valid c' g' = is_valid c g.
Proof.
  intros Hp Hb Hr Hc.
  unfold is_valid, get_row, get_column, get_box, get_box_coordinates, find_box_start.
  rewrite Hp, Hb, Hr, Hc. reflexivity.
Qed.

Lemma grid_set_len (p : list (list Z)) (i j : nat) (v : Z) :
  len (grid_set p i j v) = len p.
Proof. unfold grid_set. apply len_update. Qed.

Lemma grid_set_row_len (p : list (list Z)) (i j k : nat) (v : Z) :
  len (nth k (grid_set p i j v) []) = len (nth k p []).
Proof.
  unfold grid_set. destruct (Nat.eq_dec i k) as [->|Hne].
  - destruct (Nat.lt_ge_cases k (length p)) as [Hlt|Hge].
    + rewrite nth_update_eq by exact Hlt. apply len_update.
    + rewrite !nth_overflow by (rewrite ?update_length; lia). reflexivity.
  - rewrite nth_update_neq by exact Hne. reflexivity.
Qed.

Lemma increment_value_loop_inv (fuel : nat) :
  forall (self self' : Cell) (game game' : SudokuSolver),
    increment_value_loop fuel self game = Ok (self', game') ->
    0 <= row self -> 0 <= column self ->
    static self' = static self /\
    current_index self <= current_index self' /\
    solve_puzzle game' = solve_puzzle game /\
    box_size game' = box_size game /\
    backtrack_coord game' = backtrack_coord game /\
    ((self' = self /\ game' = game) \/
     (solved self = true /\ puzzle game' = puzzle game) \/
     wrote self self' (puzzle game) (puzzle game')) /\
    exists b, is_valid self' game' = Ok b /\
              (b = false -> len (possibilities self') - 1 <= current_index self').
Proof.
  induction fuel as [|fuel IH]; intros self self' game game' H Hr Hc;
    cbn [increment_value_loop] in H;
    apply bind_Ok in H; destruct H as [b [Eb H]];
    destruct (negb b && (current_index self <? len (possibilities self) - 1)) eqn:Econd;
    try discriminate.
  1, 3: inversion H; subst; clear H;
    split; [reflexivity|]; split; [lia|]; do 3 (split; [reflexivity|]);
    split; [left; split; reflexivity|];
    exists b; split; [exact Eb|]; intros ->; cbn [negb andb] in Econd;
    apply Z.ltb_ge in Econd; lia.
  apply bind_Ok in H. destruct H as [[self2 game2] [Es H]].
  pose proof (set_number_static _ _ _ _ Es) as Hst.
  cbn [solved possibilities row column current_index with_current_index] in Hst.
  destruct Hst as [S1 [S2 [S3 [S4 [S5 [S6 [S7 S8]]]]]]].
  apply set_number_inv in Es;
    [|cbn [row with_current_index]; exact Hr|cbn [column with_current_index]; exact Hc].
  apply IH in H; [|rewrite S3; exact Hr|rewrite S4; exact Hc].
  destruct H as [T1 [T2 [T3 [T4 [T5 [T6 T7]]]]]].
  split. { rewrite T1. unfold static. rewrite S1, S2, S3, S4. reflexivity. }
  split. { rewrite S5 in T2. lia. }
  split. { congruence. }
  split. { congruence. }
  split. { congruence. }
  split; [|exact T7].
  destruct Es as [[Hs [E2 Eg]]|[Hs [v [Ev [E2 [Eg [Rr Rc]]]]]]];
    cbn [solved possibilities row column current_index with_current_index] in *.
  - (* a fixed cell: only the cursor of the cell moves *)
    right. left. split; [exact Hs|].
    destruct T6 as [[_ Eg']|[[_ Ep]|[Hw _]]].
    + rewrite Eg', Eg. reflexivity.
    + rewrite Ep, Eg. reflexivity.
    + rewrite S1 in Hw. congruence.
  - right. right. split; [exact Hs|].
    destruct T6 as [[Ec' Eg']|[[Hs' _]|[_ [w [Ep [En [Ei [Rr' Rc']]]]]]]].
    + exists v. subst self' game' self2 game2.
      cbn [puzzle with_puzzle number with_number possibilities current_index
           with_current_index].
      repeat split; auto.
    + rewrite S1 in Hs'. congruence.
    + exists w. rewrite Ep, Eg, S3, S4. cbn [puzzle with_puzzle].
      rewrite grid_set_twice. repeat split; auto.
Qed.

Lemma Forall_py_index {A : Type} (P : A -> Prop) (xs : list A) (i : Z) (x : A) :
  Forall P xs -> py_index xs i = Ok x -> P x.
Proof.
  intros H Hx. apply py_index_Ok in Hx. destruct Hx as [_ Hx].
  rewrite Forall_forall in H. apply H. eapply nth_error_In. exact Hx.
Qed.

Lemma coords_nonneg (cells : list Cell) (i : Z) (c : Cell) :
  Forall (fun rc => 0 <= fst rc /\ 0 <= snd rc) (map coords cells) ->
  py_index cells i = Ok c -> 0 <= row c /\ 0 <= column c.
Proof.
  intros H Hc. rewrite Forall_map in H.
  apply (Forall_py_index _ _ _ _ H Hc).
Qed.

(** [set_cell] followed by [increment_value] on the cell at the cursor. *)
Lemma cell_phase (g1 g2 g3 : SudokuSolver) (k : Z) :
  set_cell g1 = Ok (k, g2) ->
  on_cell increment_value k g2 = Ok g3 ->
  Forall (fun c => 0 <= current_index c) (solve_puzzle g1) ->
  Forall (fun rc => 0 <= fst rc /\ 0 <= snd rc) (map coords (solve_puzzle g1)) ->
  k = backtrack_coord g1 /\
  exists c c3,
    py_index (solve_puzzle g1) k = Ok c /\
    static c3 = static c /\
    0 <= current_index c3 /\
    solve_puzzle g3
    = update (solve_puzzle g1) (Z.to_nat (norm_index (solve_puzzle g1) k)) c3 /\
    box_size g3 = box_size g1 /\
    backtrack_coord g3 = backtrack_coord g1 /\
    ((solved c = true /\ puzzle g3 = puzzle g1) \/ wrote c c3 (puzzle g1) (puzzle g3)) /\
    exists b, is_valid c3 g3 = Ok b /\
              (b = false -> len (possibilities c3) - 1 <= current_index c3).
Proof.
  intros Hset Hinc Hidx Hco.
  unfold set_cell in Hset. apply bind_Ok in Hset. destruct Hset as [g2' [Hset E]].
  inversion E; subst k g2'; clear E. split; [reflexivity|].
  set (k := backtrack_coord g1) in *.
  unfold on_cell in Hset.
  apply bind_Ok in Hset. destruct Hset as [c [Hc Hset]].
  apply bind_Ok in Hset. destruct Hset as [[c2 g1a] [Hsn Hst]].
  destruct (coords_nonneg _ _ _ Hco Hc) as [Hr Hcl].
  pose proof (Forall_py_index _ _ _ _ Hidx Hc) as Hi. cbn beta in Hi.
  pose proof (set_number_static _ _ _ _ Hsn) as [S1 [S2 [S3 [S4 [S5 [S6 [S7 S8]]]]]]].
  apply store_cell_inv in Hst. rewrite S6 in Hst.
  set (n := Z.to_nat (norm_index (solve_puzzle g1) k)) in *.
  unfold on_cell in Hinc.
  apply bind_Ok in Hinc. destruct Hinc as [c2' [Hc2 Hinc]].
  apply bind_Ok in Hinc. destruct Hinc as [[c3 g2a] [Hiv Hst3]].
  assert (Ecells2 : solve_puzzle g2 = update (solve_puzzle g1) n c2)
    by (rewrite Hst; reflexivity).
  rewrite Ecells2 in Hc2.
  pose proof (py_index_update_eq _ _ _ c2 Hc) as Hx. fold n in Hx.
  rewrite Hx in Hc2. inversion Hc2; subst c2'; clear Hc2 Hx.
  unfold increment_value in Hiv.
  apply increment_value_loop_inv in Hiv; [|rewrite S3; exact Hr|rewrite S4; exact Hcl].
  destruct Hiv as [T1 [T2 [T3 [T4 [T5 [T6 [b [Tb Tx]]]]]]]].
  apply store_cell_inv in Hst3. rewrite T3, Ecells2 in Hst3.
  rewrite norm_index_update in Hst3. fold n in Hst3. rewrite update_update in Hst3.
  assert (Ep3 : puzzle g3 = puzzle g2a) by (rewrite Hst3; reflexivity).
  assert (Ep2 : puzzle g2 = puzzle g1a) by (rewrite Hst; reflexivity).
  assert (Eb2 : box_size g2 = box_size g1a) by (rewrite Hst; reflexivity).
  assert (Ek2 : backtrack_coord g2 = backtrack_coord g1a) by (rewrite Hst; reflexivity).
  exists c, c3.
  split; [exact Hc|].
  split. { rewrite T1. unfold static. rewrite S1, S2, S3, S4. reflexivity. }
  split. { lia. }
  split. { rewrite Hst3. reflexivity. }
  split. { rewrite Hst3. cbn [box_size with_solve_puzzle]. rewrite T4, Eb2. exact S7. }
  split. { rewrite Hst3. cbn [backtrack_coord with_solve_puzzle]. rewrite T5, Ek2. exact S8. }
  split.
  - apply set_number_inv in Hsn; [|exact Hr|exact Hcl].
    destruct Hsn as [[Hs [E2 Eg]]|[Hs [v [Ev [E2 [Eg [Rr Rc]]]]]]].
    + left. split; [exact Hs|]. subst c2 g1a.
      destruct T6 as [[_ Eg']|[[_ Ep]|[Hw _]]].
      * rewrite Ep3, Eg', Ep2. reflexivity.
      * rewrite Ep3, Ep, Ep2. reflexivity.
      * congruence.
    + right. split; [exact Hs|].
      assert (Epa : puzzle g1a
                    = grid_set (puzzle g1) (Z.to_nat (row c)) (Z.to_nat (column c)) v)
        by (rewrite Eg; reflexivity).
      destruct T6 as [[Ec' Eg']|[[Hs' _]|[_ [w [Ep [En [Ei [Rr' Rc']]]]]]]].
      * exists v. subst c3.
        split; [rewrite Ep3, Eg', Ep2; exact Epa|].
        split; [rewrite E2; reflexivity|].
        split; [rewrite E2; exact Ev|]. split; assumption.
      * congruence.
      * exists w. split.
        { rewrite Ep3, Ep, Ep2, Epa, S3, S4. apply grid_set_twice. }
        split; [exact En|]. split; [exact Ei|]. split; assumption.
  - exists b. split; [|exact Tx].
    rewrite <- Tb. apply is_valid_ext; auto.
    rewrite Hst3. reflexivity.
Qed.

(** ** Cleared grids *)

Lemma faded_refl (a : Z) : faded a a.
Proof. left. reflexivity. Qed.

Lemma faded_trans (a b c : Z) : faded a b -> faded b c -> faded a c.
Proof. unfold faded. intros [ -> | -> ] [ -> | -> ]; auto. Qed.

Lemma Forall2_refl {A : Type} (R : A -> A -> Prop) (xs : list A) :
  (forall x, R x x) -> Forall2 R xs xs.
Proof. intros H. induction xs; constructor; auto. Qed.

Lemma Forall2_trans {A : Type} (R : A -> A -> Prop) (xs ys zs : list A) :
  (forall x y z, R x y -> R y z -> R x z) ->
  Forall2 R xs ys -> Forall2 R ys zs -> Forall2 R xs zs.
Proof.
  intros HR H. revert zs. induction H as [|x y xs ys Hxy H IH]; intros zs Hz;
    inversion Hz; subst; constructor; eauto.
Qed.

Lemma Forall2_update_r {A : Type} (R : A -> A -> Prop) (xs : list A) (n : nat) (d y : A) :
  (forall x, R x x) -> R (nth n xs d) y -> Forall2 R xs (update xs n y).
Proof.
  intros Hrefl. revert n. induction xs as [|h t IH]; intros [|n] Hy; simpl in *;
    constructor; auto. apply Forall2_refl. exact Hrefl.
Qed.

Lemma cleared_refl (p : list (list Z)) : cleared p p.
Proof. apply Forall2_refl. intros r. apply Forall2_refl. exact faded_refl. Qed.

Lemma cleared_trans (p q r : list (list Z)) : cleared p q -> cleared q r -> cleared p r.
Proof.
  apply Forall2_trans. intros x y z. apply Forall2_trans. exact faded_trans.
Qed.

Lemma cleared_grid_set (p : list (list Z)) (i j : nat) : cleared p (grid_set p i j 0).
Proof.
  unfold cleared, grid_set. apply (Forall2_update_r _ _ _ []).
  - intros r. apply Forall2_refl. exact faded_refl.
  - apply (Forall2_update_r _ _ _ 0); [exact faded_refl | right; reflexivity].
Qed.

(** ** [reset_cell], [backtrack] and the loop of [decrement_cell] *)

Lemma reset_cell_inv (g g' : SudokuSolver) (k : Z) :
  reset_cell g k = Ok g' ->
  Forall (fun rc => 0 <= fst rc /\ 0 <= snd rc) (map coords (solve_puzzle g)) ->
  exists c,
    py_index (solve_puzzle g) k = Ok c /\
    g' = mkSudokuSolver
           (grid_set (puzzle g) (Z.to_nat (row c)) (Z.to_nat (column c)) 0)
           (update (solve_puzzle g) (Z.to_nat (norm_index (solve_puzzle g) k))
                   (with_number (with_current_index c 0) 0))
           (box_size g) (backtrack_coord g).
Proof.
  unfold reset_cell. intros H Hco.
  apply bind_Ok in H. destruct H as [c [Hc H]].
  apply bind_Ok in H. destruct H as [g1 [Hst H]].
  destruct (coords_nonneg _ _ _ Hco Hc) as [Hr Hcl].
  apply store_cell_inv in Hst.
  cbn [row column with_number with_current_index] in H.
  apply puzzle_set_inv in H; [|exact Hr|exact Hcl].
  destruct H as [_ [_ H]]. exists c. split; [exact Hc|].
  rewrite H, Hst. reflexivity.
Qed.

Lemma backtrack_inv (g g' : SudokuSolver) :
  backtrack g = Ok g' ->
  exists k', g' = with_backtrack_coord g k' /\ k' <= backtrack_coord g - 1 /\
             solved_at (solve_puzzle g) k' false.
Proof.
  intros H. pose proof (backtrack_spec g) as Hs. rewrite H in Hs.
  destruct Hs as [k' [E [H1 [_ H2]]]]. exists k'. auto.
Qed.

Lemma nth_error_update_static (cells : list Cell) (n m : nat) (c c0 c1 : Cell) :
  nth_error cells n = Some c -> static c0 = static c ->
  nth_error (update cells n c0) m = Some c1 ->
  exists c', nth_error cells m = Some c' /\ static c' = static c1.
Proof.
  intros Hn Hs Hm. destruct (Nat.eq_dec n m) as [->|Hne].
  - rewrite nth_error_update_eq in Hm
      by (apply nth_error_Some; congruence).
    inversion Hm; subst. exists c. split; [exact Hn | symmetry; exact Hs].
  - rewrite nth_error_update_neq in Hm by exact Hne. exists c1. auto.
Qed.

Lemma decrement_cell_loop_effect (fuel : nat) :
  forall g g' : SudokuSolver,
    decrement_cell_loop fuel g (backtrack_coord g) = Ok g' ->
    Forall (fun c => 0 <= current_index c) (solve_puzzle g) ->
    Forall (fun rc => 0 <= fst rc /\ 0 <= snd rc) (map coords (solve_puzzle g)) ->
    retreat_effect g g'.
Proof.
  induction fuel as [|fuel IH]; intros g g' H Hidx Hco;
    cbn [decrement_cell_loop] in H;
    apply bind_Ok in H; destruct H as [c [Hc H]];
    destruct (current_index c =? len (possibilities c) - 1) eqn:Elast;
    try discriminate.
  1, 3: apply store_cell_inv in H; subst g';
    pose proof (py_index_Ok _ _ _ Hc) as [Hrange Hnth];
    pose proof (norm_index_ge (solve_puzzle g) (backtrack_coord g)) as Hge;
    pose proof (Forall_py_index _ _ _ _ Hidx Hc) as Hi; cbn beta in Hi;
    unfold retreat_effect;
    cbn [box_size solve_puzzle puzzle backtrack_coord with_solve_puzzle];
    (split; [reflexivity|]);
    (split; [apply (map_update static _ _ c); [exact Hnth | reflexivity]|]);
    (split; [apply Forall_update; [exact Hidx | cbn [current_index with_current_index]; lia]|]);
    (split; [lia|]);
    (split; [apply cleared_refl|]);
    (split; [intros n' Hn'; apply nth_error_update_neq; lia
            | intros i j; left; reflexivity]).
  apply bind_Ok in H. destruct H as [g1 [Hreset H]].
  apply bind_Ok in H. destruct H as [g2 [Hback H]].
  apply reset_cell_inv in Hreset; [|exact Hco].
  destruct Hreset as [c' [Hc' Eg1]].
  assert (c' = c) by congruence. subst c'. clear Hc'.
  pose proof (py_index_Ok _ _ _ Hc) as [Hrange Hnth].
  pose proof (norm_index_ge (solve_puzzle g) (backtrack_coord g)) as Hge.
  pose proof (Forall_py_index _ _ _ _ Hidx Hc) as Hi. cbn beta in Hi.
  destruct (coords_nonneg _ _ _ Hco Hc) as [Hr Hcl].
  set (n := Z.to_nat (norm_index (solve_puzzle g) (backtrack_coord g))) in *.
  set (c0 := with_number (with_current_index c 0) 0) in *.
  apply backtrack_inv in Hback. destruct Hback as [k2 [Eg2 [Hk2 _]]].
  assert (Ecells2 : solve_puzzle g2 = update (solve_puzzle g) n c0)
    by (rewrite Eg2, Eg1; reflexivity).
  assert (Ep2 : puzzle g2
                = grid_set (puzzle g) (Z.to_nat (row c)) (Z.to_nat (column c)) 0)
    by (rewrite Eg2, Eg1; reflexivity).
  assert (Eb2 : box_size g2 = box_size g) by (rewrite Eg2, Eg1; reflexivity).
  assert (Ek2 : backtrack_coord g2 = k2) by (rewrite Eg2; reflexivity).
  assert (Hk2' : k2 <= backtrack_coord g - 1) by (rewrite Eg1 in Hk2; exact Hk2).
  assert (Hstat : map static (solve_puzzle g2) = map static (solve_puzzle g)).
  { rewrite Ecells2. apply (map_update static _ _ c); [exact Hnth | reflexivity]. }
  apply IH in H.
  - destruct H as [R1 [R2 [R3 [R4 [R5 [R6 R7]]]]]].
    unfold retreat_effect.
    split; [congruence|]. split; [congruence|]. split; [exact R3|].
    split; [lia|]. split; [|split].
    + apply (cleared_trans _ (puzzle g2)); [|exact R5].
      rewrite Ep2. apply cleared_grid_set.
    + intros n' Hn'. rewrite R6 by exact Hn'. rewrite Ecells2.
      apply nth_error_update_neq. lia.
    + intros i j. destruct (R7 i j) as [E|[n1 [c1 [Hn1 [Hr1 [Hc1 [Hle Hp]]]]]]].
      * rewrite E, Ep2.
        destruct (Nat.eq_dec (Z.to_nat (row c)) i) as [Ei|Ei];
          [destruct (Nat.eq_dec (Z.to_nat (column c)) j) as [Ej|Ej]|].
        -- right. exists n, c. split; [exact Hnth|].
           split; [lia|]. split; [lia|]. split; [lia|].
           intros Hnil. rewrite Hnil in Elast. apply Z.eqb_eq in Elast.
           change (len (@nil Z)) with 0 in Elast. lia.
        -- left. apply entry_grid_set_neq. congruence.
        -- left. apply entry_grid_set_neq. congruence.
      * right. rewrite Ecells2 in Hn1.
        destruct (nth_error_update_static _ _ _ c c0 c1 Hnth eq_refl Hn1)
          as [c1' [Hn1' Hs1]].
        exists n1, c1'. inversion Hs1.
        split; [exact Hn1'|]. split; [congruence|]. split; [congruence|].
        split; [exact Hle | congruence].
  - rewrite Ecells2. apply Forall_update; [exact Hidx|]. subst c0. simpl. lia.
  - rewrite (static_coords _ _ Hstat). exact Hco.
Qed.

(** ** Validity in a grid some entries of which were cleared *)

Lemma Forall2_len {A B : Type} (R : A -> B -> Prop) (xs : list A) (ys : list B) :
  Forall2 R xs ys -> len ys = len xs.
Proof. intros H. unfold len. rewrite (Forall2_length H). reflexivity. Qed.

Lemma Forall2_nth_error_l {A B : Type} (R : A -> B -> Prop) (l : list A) (l' : list B) :
  Forall2 R l l' ->
  forall n x, nth_error l n = Some x -> exists y, nth_error l' n = Some y /\ R x y.
Proof.
  induction 1 as [|x y l l' Hxy H IH]; intros n z Hn.
  - destruct n; discriminate.
  - destruct n as [|n]; simpl in *.
    + inversion Hn; subst. exists y. split; [reflexivity | exact Hxy].
    + apply IH. exact Hn.
Qed.

Lemma py_index_Forall2 {A B : Type} (R : A -> B -> Prop) (xs : list A) (ys : list B)
      (i : Z) (x : A) :
  Forall2 R xs ys -> py_index xs i = Ok x ->
  exists y, py_index ys i = Ok y /\ R x y.
Proof.
  intros H Hx. pose proof (Forall2_len _ _ _ H) as Hl.
  apply py_index_Ok in Hx. destruct Hx as [[H0 H1] Hn].
  destruct (Forall2_nth_error_l _ _ _ H _ _ Hn) as [y [Hy HR]].
  exists y. split; [|exact HR].
  unfold py_index, norm_index in *. rewrite Hl.
  destruct (0 <=? (if i <? 0 then i + len xs else i)) eqn:E0;
    [|apply Z.leb_gt in E0; lia].
  destruct ((if i <? 0 then i + len xs else i) <? len xs) eqn:E1;
    [|apply Z.ltb_ge in E1; lia].
  cbn [andb]. rewrite Hy. reflexivity.
Qed.

Lemma mapM_Forall2 (c : Z) (p p' : list (list Z)) (l : list Z) :
  cleared p p' ->
  mapM (fun r => py_index r c) p = Ok l ->
  exists l', mapM (fun r => py_index r c) p' = Ok l' /\ Forall2 faded l l'.
Proof.
  intros H. revert l. induction H as [|r r' p p' Hr H IH]; intros l Hl; simpl in *.
  - inversion Hl. exists []. split; [reflexivity | constructor].
  - apply bind_Ok in Hl. destruct Hl as [x [Hx Hl]].
    apply bind_Ok in Hl. destruct Hl as [xs [Hxs Hl]]. inversion Hl; subst.
    destruct (py_index_Forall2 _ _ _ _ _ Hr Hx) as [y [Hy Hxy]].
    destruct (IH _ Hxs) as [ys [Hys Hf]].
    exists (y :: ys). rewrite Hy, Hys. split; [reflexivity | constructor; assumption].
Qed.

Lemma Forall2_skipn {A B : Type} (R : A -> B -> Prop) (n : nat) :
  forall (xs : list A) (ys : list B),
    Forall2 R xs ys -> Forall2 R (skipn n xs) (skipn n ys).
Proof.
  induction n as [|n IH]; intros xs ys H; [exact H|].
  destruct H; simpl; [constructor | apply IH; assumption].
Qed.

Lemma Forall2_firstn {A B : Type} (R : A -> B -> Prop) (n : nat) :
  forall (xs : list A) (ys : list B),
    Forall2 R xs ys -> Forall2 R (firstn n xs) (firstn n ys).
Proof.
  induction n as [|n IH]; intros xs ys H; [constructor|].
  destruct H; simpl; constructor; [assumption | apply IH; assumption].
Qed.

Lemma py_slice_Forall2 (r r' : list Z) (a b : Z) :
  Forall2 faded r r' -> Forall2 faded (py_slice r a b) (py_slice r' a b).
Proof.
  intros H. unfold py_slice, clip_index. rewrite (Forall2_len _ _ _ H).
  apply Forall2_firstn. apply Forall2_skipn. exact H.
Qed.

Lemma foldM_box_Forall2 (p p' : list (list Z)) (a b : Z) (rows : list Z) :
  cleared p p' ->
  forall acc acc' l,
    Forall2 faded acc acc' ->
    foldM (fun box i => r <- py_index p i ;; Ok (box ++ py_slice r a b)) rows acc = Ok l ->
    exists l',
      foldM (fun box i => r <- py_index p' i ;; Ok (box ++ py_slice r a b)) rows acc'
      = Ok l' /\ Forall2 faded l l'.
Proof.
  intros Hp. induction rows as [|i t IH]; intros acc acc' l Hacc H; simpl in *.
  - inversion H; subst. exists acc'. split; [reflexivity | exact Hacc].
  - apply bind_Ok in H. destruct H as [acc1 [H1 H]].
    apply bind_Ok in H1. destruct H1 as [r [Hr H1]]. inversion H1; subst acc1.
    destruct (py_index_Forall2 _ _ _ _ _ Hp Hr) as [r' [Hr' Hrr]].
    rewrite Hr'. cbn [bind].
    apply (IH _ _ _ (Forall2_app Hacc (py_slice_Forall2 _ _ a b Hrr)) H).
Qed.

Lemma faded_filter_In (l l' : list Z) (x : Z) :
  Forall2 faded l l' ->
  In x (filter (fun item => negb (item =? 0)) l') ->
  In x (filter (fun item => negb (item =? 0)) l).
Proof.
  induction 1 as [|a b l l' Hab H IH]; intros Hin; [exact Hin|].
  simpl in *. destruct Hab as [ -> | -> ].
  - destruct (negb (a =? 0)); simpl in *; [destruct Hin; auto | auto].
  - simpl in Hin. destruct (negb (a =? 0)); simpl; auto.
Qed.

Lemma check_area_cleared (l l' : list Z) :
  Forall2 faded l l' -> check_area l = true -> check_area l' = true.
Proof.
  intros H. rewrite !check_area_NoDup.
  induction H as [|a b l l' Hab H IH]; intros Hnd; [exact Hnd|].
  simpl in *. destruct Hab as [ -> | -> ].
  - destruct (negb (a =? 0)); [|auto].
    inversion Hnd; subst. constructor; [|auto].
    intros Hin. apply (faded_filter_In _ _ _ H) in Hin. contradiction.
  - simpl. apply IH. destruct (negb (a =? 0)); [inversion Hnd; assumption | exact Hnd].
Qed.

Lemma is_valid_cleared (c : Cell) (g g' : SudokuSolver) :
  cleared (puzzle g) (puzzle g') -> box_size g' = box_size g ->
  is_valid c g = Ok true -> is_valid c g' = Ok true.
Proof.
  intros Hp Hb Hv. apply is_valid_inv in Hv.
  destruct Hv as [r [cl [b [Hr [Hc [Hbx Hv]]]]]].
  symmetry in Hv. apply andb_true_iff in Hv. destruct Hv as [Hv Hv3].
  apply andb_true_iff in Hv. destruct Hv as [Hv1 Hv2].
  destruct (py_index_Forall2 _ _ _ _ _ Hp Hr) as [r' [Hr' Hrr]].
  destruct (mapM_Forall2 _ _ _ _ Hp Hc) as [cl' [Hc' Hcc]].
  assert (Hb' : exists b', get_box g' (row c) (column c) = Ok b' /\ Forall2 faded b b').
  { unfold get_box, get_box_coordinates, find_box_start in *. rewrite Hb.
    destruct (box_size g =? 0); [discriminate|]. cbn [bind] in *.
    apply (foldM_box_Forall2 _ _ _ _ _ Hp [] [] b (Forall2_nil _) Hbx). }
  destruct Hb' as [b' [Hbx' Hbb]].
  rewrite (is_valid_Ok c g' r' cl' b' Hr' Hc' Hbx').
  rewrite (check_area_cleared _ _ Hrr Hv1), (check_area_cleared _ _ Hcc Hv2),
    (check_area_cleared _ _ Hbb Hv3). reflexivity.
Qed.

(** ** Validity after a write at another cell *)

Lemma update_overflow {A : Type} (xs : list A) (n : nat) (v : A) :
  (length xs <= n)%nat -> update xs n v = xs.
Proof.
  revert n. induction xs as [|h t IH]; intros [|n] H; simpl in *; try reflexivity; try lia.
  f_equal. apply IH. lia.
Qed.

Lemma py_index_update {A : Type} (xs : list A) (n : nat) (v : A) (k : Z) :
  py_index (update xs n v) k
  = match py_index xs k with
    | Ok x => Ok (if Nat.eqb n (Z.to_nat (norm_index xs k)) then v else x)
    | o => o
    end.
Proof.
  unfold py_index. rewrite norm_index_update, len_update.
  destruct ((0 <=? norm_index xs k) && (norm_index xs k <? len xs)) eqn:E;
    [|reflexivity].
  apply andb_true_iff in E. destruct E as [E0 E1].
  apply Z.leb_le in E0. apply Z.ltb_lt in E1. unfold len in E1.
  destruct (Nat.eqb n (Z.to_nat (norm_index xs k))) eqn:En.
  - apply Nat.eqb_eq in En. subst n.
    rewrite nth_error_update_eq by lia.
    destruct (nth_error xs (Z.to_nat (norm_index xs k))) eqn:Ex; [reflexivity|].
    apply nth_error_None in Ex. lia.
  - apply Nat.eqb_neq in En. rewrite nth_error_update_neq by exact En.
    destruct (nth_error xs (Z.to_nat (norm_index xs k))); reflexivity.
Qed.

Lemma py_index_update_neq {A : Type} (xs : list A) (n : nat) (v : A) (k : Z) :
  0 <= k -> Z.to_nat k <> n -> py_index (update xs n v) k = py_index xs k.
Proof.
  intros Hk Hne. rewrite py_index_update, norm_index_nonneg by exact Hk.
  destruct (py_index xs k); try reflexivity.
  destruct (Nat.eqb n (Z.to_nat k)) eqn:E; [|reflexivity].
  apply Nat.eqb_eq in E. congruence.
Qed.

Lemma mapM_update {A B : Type} (f : A -> outcome B) (p : list A) (n : nat) (new : A) :
  (forall old, nth_error p n = Some old -> f new = f old) ->
  mapM f (update p n new) = mapM f p.
Proof.
  revert n. induction p as [|h t IH]; intros [|n] H; simpl; try reflexivity.
  - rewrite (H h eq_refl). reflexivity.
  - rewrite IH by (intros old Ho; apply H; exact Ho). reflexivity.
Qed.

Lemma firstn_skipn_update {A : Type} (xs : list A) (j a k : nat) (v : A) :
  (k = 0 \/ j < a \/ a + k <= j)%nat ->
  firstn k (skipn a (update xs j v)) = firstn k (skipn a xs).
Proof.
  revert j a k. induction xs as [|h t IH]; intros j a k H.
  - destruct j; reflexivity.
  - destruct j as [|j], a as [|a]; simpl.
    + destruct k as [|k]; [reflexivity | lia].
    + reflexivity.
    + destruct k as [|k]; [reflexivity|]. simpl. f_equal.
      apply (IH j 0%nat k). lia.
    + apply IH. lia.
Qed.

Lemma py_slice_update (xs : list Z) (j : nat) (v : Z) (a b : Z) :
  0 <= a -> 0 <= b -> Z.of_nat j < a \/ b <= Z.of_nat j ->
  py_slice (update xs j v) a b = py_slice xs a b.
Proof.
  intros Ha Hb Hj.
  destruct (Nat.lt_ge_cases j (length xs)) as [Hlt|Hge];
    [|rewrite update_overflow by exact Hge; reflexivity].
  unfold py_slice, clip_index. rewrite len_update.
  destruct (a <? 0) eqn:Ea; [apply Z.ltb_lt in Ea; lia|].
  destruct (b <? 0) eqn:Eb; [apply Z.ltb_lt in Eb; lia|].
  apply firstn_skipn_update. unfold len. lia.
Qed.

Lemma box_start_unique (bs x y : Z) :
  0 < bs -> x / bs * bs <= y < x / bs * bs + bs -> y / bs * bs = x / bs * bs.
Proof.
  intros Hb H. f_equal. symmetry.
  apply (Z.div_unique y bs (x / bs) (y - x / bs * bs)); lia.
Qed.

Lemma get_box_starts (g : SudokuSolver) (r c r' c' : Z) :
  r / box_size g * box_size g = r' / box_size g * box_size g ->
  c / box_size g * box_size g = c' / box_size g * box_size g ->
  get_box g r c = get_box g r' c'.
Proof.
  intros Hr Hc. unfold get_box, get_box_coordinates, find_box_start.
  destruct (box_size g =? 0); [reflexivity|]. cbn [bind]. rewrite Hr, Hc. reflexivity.
Qed.

Lemma get_box_frame (g g' : SudokuSolver) (r c : Z) (i j : nat) (v : Z) :
  puzzle g' = grid_set (puzzle g) i j v -> box_size g' = box_size g ->
  0 <= box_size g -> 0 <= r -> 0 <= c ->
  r / box_size g * box_size g <> Z.of_nat i / box_size g * box_size g \/
  c / box_size g * box_size g <> Z.of_nat j / box_size g * box_size g ->
  get_box g' r c = get_box g r c.
Proof.
  intros Hp Hb Hbs Hr Hc Hne.
  unfold get_box, get_box_coordinates, find_box_start. rewrite Hb.
  destruct (box_size g =? 0) eqn:E0; [reflexivity|]. apply Z.eqb_neq in E0.
  cbn [bind].
  set (bs := box_size g) in *.
  assert (Hpos : 0 < bs) by lia.
  assert (Hsx : 0 <= r / bs * bs).
  { assert (0 <= r / bs) by (apply Z.div_pos; lia). nia. }
  assert (Hsy : 0 <= c / bs * bs).
  { assert (0 <= c / bs) by (apply Z.div_pos; lia). nia. }
  apply foldM_ext. intros box x Hx. apply in_py_range in Hx.
  rewrite Hp. unfold grid_set. rewrite py_index_update.
  rewrite norm_index_nonneg by lia.
  destruct (py_index (puzzle g) x) as [old| |] eqn:Eo; try reflexivity.
  destruct (Nat.eqb i (Z.to_nat x)) eqn:Ei; [|reflexivity].
  apply Nat.eqb_eq in Ei. cbn [bind]. do 2 f_equal.
  assert (Hold : nth i (puzzle g) [] = old).
  { apply (py_index_entry _ _ _ []) in Eo; [|lia]. destruct Eo as [Eo _].
    rewrite Ei. exact Eo. }
  rewrite Hold. apply py_slice_update; [lia | lia |].
  destruct Hne as [Hne|Hne].
  - exfalso. apply Hne. symmetry. apply box_start_unique; [exact Hpos|]. lia.
  - destruct (Z.lt_ge_cases (Z.of_nat j) (c / bs * bs)) as [H1|H1]; [left; exact H1|].
    destruct (Z.lt_ge_cases (Z.of_nat j) (c / bs * bs + bs)) as [H2|H2];
      [|right; exact H2].
    exfalso. apply Hne. symmetry. apply box_start_unique; [exact Hpos|]. lia.
Qed.

Lemma get_row_frame (g g' : SudokuSolver) (r : Z) (i j : nat) (v : Z) :
  puzzle g' = grid_set (puzzle g) i j v -> 0 <= r -> Z.to_nat r <> i ->
  get_row g' r = get_row g r.
Proof.
  intros Hp Hr Hne. unfold get_row. rewrite Hp. unfold grid_set.
  apply py_index_update_neq; assumption.
Qed.

Lemma get_column_frame (g g' : SudokuSolver) (c : Z) (i j : nat) (v : Z) :
  puzzle g' = grid_set (puzzle g) i j v -> 0 <= c -> Z.to_nat c <> j ->
  get_column g' c = get_column g c.
Proof.
  intros Hp Hc Hne. unfold get_column. rewrite Hp. unfold grid_set.
  apply mapM_update. intros old Ho.
  rewrite (nth_error_nth _ _ [] Ho).
  apply py_index_update_neq; [exact Hc | congruence].
Qed.

Lemma is_valid_after_write (c1 c : Cell) (g g3 : SudokuSolver) (v : Z) :
  puzzle g3 = grid_set (puzzle g) (Z.to_nat (row c1)) (Z.to_nat (column c1)) v ->
  box_size g3 = box_size g -> 0 <= box_size g ->
  0 <= row c1 -> 0 <= column c1 -> 0 <= row c -> 0 <= column c ->
  is_valid c1 g3 = Ok true -> is_valid c g = Ok true -> is_valid c g3 = Ok true.
Proof.
  intros Hp Hb Hbs Hr1 Hc1 Hr Hc H1 H.
  apply is_valid_inv in H1. destruct H1 as [r1 [cl1 [b1 [Er1 [Ec1 [Eb1 Hv1]]]]]].
  apply is_valid_inv in H. destruct H as [r [cl [b [Er [Ec [Eb Hv]]]]]].
  symmetry in Hv1. apply andb_true_iff in Hv1. destruct Hv1 as [Hv1 Hv13].
  apply andb_true_iff in Hv1. destruct Hv1 as [Hv11 Hv12].
  symmetry in Hv. apply andb_true_iff in Hv. destruct Hv as [Hv Hv3].
  apply andb_true_iff in Hv. destruct Hv as [Hv1 Hv2].
  assert (Hrow : exists r', get_row g3 (row c) = Ok r' /\ check_area r' = true).
  { destruct (Z.eq_dec (row c) (row c1)) as [E|E].
    - exists r1. rewrite E. auto.
    - exists r. rewrite (get_row_frame g g3 _ _ _ _ Hp Hr) by lia. auto. }
  assert (Hcol : exists cl', get_column g3 (column c) = Ok cl' /\ check_area cl' = true).
  { destruct (Z.eq_dec (column c) (column c1)) as [E|E].
    - exists cl1. rewrite E. auto.
    - exists cl. rewrite (get_column_frame g g3 _ _ _ _ Hp Hc) by lia. auto. }
  assert (Hbox : exists b', get_box g3 (row c) (column c) = Ok b' /\ check_area b' = true).
  { destruct (Z.eq_dec (row c / box_size g * box_size g)
                       (row c1 / box_size g * box_size g)) as [E1|E1];
      [destruct (Z.eq_dec (column c / box_size g * box_size g)
                          (column c1 / box_size g * box_size g)) as [E2|E2]|].
    - exists b1. rewrite (get_box_starts g3 _ _ (row c1) (column c1))
        by (rewrite Hb; assumption). auto.
    - exists b. rewrite (get_box_frame g g3 _ _ _ _ _ Hp Hb Hbs Hr Hc); [auto|].
      right. rewrite Z2Nat.id by exact Hc1. exact E2.
    - exists b. rewrite (get_box_frame g g3 _ _ _ _ _ Hp Hb Hbs Hr Hc); [auto|].
      left. rewrite Z2Nat.id by exact Hr1. exact E1. }
  destruct Hrow as [r' [Er' Hr']]. destruct Hcol as [cl' [Ec' Hc']].
  destruct Hbox as [b' [Eb' Hb']].
  rewrite (is_valid_Ok c g3 r' cl' b' Er' Ec' Eb'), Hr', Hc', Hb'. reflexivity.
Qed.

(** ** One round of the main loop *)

Lemma NoDup_nth_error_neq {A : Type} (l : list A) (n m : nat) (x y : A) :
  NoDup l -> nth_error l n = Some x -> nth_error l m = Some y -> n <> m -> x <> y.
Proof.
  intros Hnd Hn Hm Hne E. subst y.
  rewrite NoDup_nth_error in Hnd.
  apply Hne. apply Hnd; [apply nth_error_Some; congruence | congruence].
Qed.

Lemma coords_distinct (cells : list Cell) (n m : nat) (x y : Cell) :
  NoDup (map coords cells) ->
  Forall (fun rc => 0 <= fst rc /\ 0 <= snd rc) (map coords cells) ->
  nth_error cells n = Some x -> nth_error cells m = Some y -> n <> m ->
  (Z.to_nat (row x), Z.to_nat (column x)) <> (Z.to_nat (row y), Z.to_nat (column y)).
Proof.
  intros Hnd Hco Hn Hm Hne E.
  assert (Hx : 0 <= row x /\ 0 <= column x).
  { rewrite Forall_map, Forall_forall in Hco. apply Hco. eapply nth_error_In; eauto. }
  assert (Hy : 0 <= row y /\ 0 <= column y).
  { rewrite Forall_map, Forall_forall in Hco. apply Hco. eapply nth_error_In; eauto. }
  apply (NoDup_nth_error_neq (map coords cells) n m (coords x) (coords y) Hnd).
  - rewrite nth_error_map, Hn. reflexivity.
  - rewrite nth_error_map, Hm. reflexivity.
  - exact Hne.
  - unfold coords. inversion E. f_equal; lia.
Qed.

Lemma map_eq_Forall2 {A B : Type} (f : A -> B) (l l' : list A) :
  map f l = map f l' -> Forall2 (fun a b => f a = f b) l l'.
Proof.
  revert l'. induction l as [|x t IH]; intros [|y t'] H; simpl in *;
    try discriminate; constructor.
  - congruence.
  - apply IH. congruence.
Qed.

Lemma solved_at_static (cells cells' : list Cell) (i : Z) (b : bool) :
  map static cells' = map static cells ->
  solved_at cells i b -> solved_at cells' i b.
Proof.
  intros Hs [c [Hc Hb]]. symmetry in Hs. apply map_eq_Forall2 in Hs.
  destruct (py_index_Forall2 _ _ _ _ _ Hs Hc) as [c' [Hc' E]].
  exists c'. split; [exact Hc'|]. inversion E. congruence.
Qed.

Lemma py_index_nth_error {A : Type} (xs : list A) (n : nat) (x : A) :
  py_index xs (Z.of_nat n) = Ok x <-> nth_error xs n = Some x.
Proof.
  rewrite py_index_nonneg by lia. rewrite Nat2Z.id.
  destruct (nth_error xs n); split; intros H; inversion H; reflexivity.
Qed.

Lemma settled_after_move (g : SudokuSolver) (k1 : Z) :
  settled_before_cursor g ->
  (forall i, backtrack_coord g <= i < k1 -> solved_at (solve_puzzle g) i true) ->
  settled_below k1 g.
Proof.
  intros Hs Hm n c Hn Hc.
  destruct (Z.lt_ge_cases (Z.of_nat n) (backtrack_coord g)) as [Hlt|Hge].
  - apply (Hs n c Hlt Hc).
  - left. destruct (Hm (Z.of_nat n)) as [c' [Hc' Hs']]; [lia|].
    apply py_index_nth_error in Hc'. congruence.
Qed.

Lemma after_retreat (g gz g' : SudokuSolver) (k1 : Z) (n : nat) (c cz : Cell) :
  well_formed g ->
  nth_error (solve_puzzle g) n = Some c -> k1 <= Z.of_nat n ->
  static cz = static c ->
  solve_puzzle gz = update (solve_puzzle g) n cz ->
  box_size gz = box_size g ->
  backtrack_coord gz <= k1 ->
  (puzzle gz = puzzle g \/
   (solved c = false /\
    puzzle gz = grid_set (puzzle g) (Z.to_nat (row c)) (Z.to_nat (column c)) 0)) ->
  retreat_effect gz g' ->
  box_size g' = box_size g /\
  map static (solve_puzzle g') = map static (solve_puzzle g) /\
  Forall (fun c => 0 <= current_index c) (solve_puzzle g') /\
  writes_own_entries g g' /\
  (settled_below k1 g -> settled_before_cursor g') /\
  backtrack_coord g' <= k1.
Proof.
  intros [Hidx [Hco [Hnd Hbs]]] Hn Hk Hst Ecz Ebz Hkz Hpz
         [R1 [R2 [R3 [R4 [R5 [R6 R7]]]]]].
  assert (Hstat_z : map static (solve_puzzle gz) = map static (solve_puzzle g)).
  { rewrite Ecz. apply (map_update static _ _ c); assumption. }
  assert (Hclr : cleared (puzzle g) (puzzle gz)).
  { destruct Hpz as [Ep|[_ Ep]]; rewrite Ep;
      [apply cleared_refl | apply cleared_grid_set]. }
  assert (Hentry_z : forall i j,
             (Z.to_nat (row c), Z.to_nat (column c)) <> (i, j) ->
             entry (puzzle gz) i j = entry (puzzle g) i j).
  { intros i j Hne. destruct Hpz as [Ep|[_ Ep]]; rewrite Ep;
      [reflexivity | apply entry_grid_set_neq; exact Hne]. }
  assert (Hc0 : 0 <= row c /\ 0 <= column c).
  { rewrite Forall_map, Forall_forall in Hco. apply Hco. eapply nth_error_In; eauto. }
  split; [congruence|]. split; [congruence|]. split; [exact R3|].
  split; [|split].
  - intros i j. destruct (R7 i j) as [E|[n1 [c1 [Hn1 [Hr1 [Hc1 [_ Hp1]]]]]]].
    + rewrite E. destruct Hpz as [Ep|[Hs Ep]]; [left; rewrite Ep; reflexivity|].
      destruct (Nat.eq_dec (Z.to_nat (row c)) i) as [Ei|Ei];
        [destruct (Nat.eq_dec (Z.to_nat (column c)) j) as [Ej|Ej]|].
      * right. exists n, c. split; [exact Hn|]. split; [lia|]. split; [lia|].
        left. exact Hs.
      * left. rewrite Ep. apply entry_grid_set_neq. congruence.
      * left. rewrite Ep. apply entry_grid_set_neq. congruence.
    + right. rewrite Ecz in Hn1.
      destruct (nth_error_update_static _ _ _ c cz c1 Hn Hst Hn1) as [c1' [Hn1' Hs1]].
      exists n1, c1'. inversion Hs1.
      split; [exact Hn1'|]. split; [congruence|]. split; [congruence|].
      right. congruence.
  - intros Hsettled n' x Hn' Hx.
    assert (Hlt : Z.of_nat n' < k1) by lia.
    rewrite R6 in Hx by exact Hn'. rewrite Ecz in Hx.
    rewrite nth_error_update_neq in Hx by lia.
    destruct (Hsettled n' x Hlt Hx) as [Hs|[Hv [A1 A2]]]; [left; exact Hs|].
    right. split.
    + apply (is_valid_cleared x g g'); [|congruence|exact Hv].
      apply (cleared_trans _ (puzzle gz)); assumption.
    + split; [exact A1|]. rewrite <- A2.
      destruct (R7 (Z.to_nat (row x)) (Z.to_nat (column x)))
        as [E|[n1 [c1 [Hn1 [Hr1 [Hc1 [Hle _]]]]]]].
      * rewrite E. apply Hentry_z.
        apply (coords_distinct (solve_puzzle g) n n'); auto. lia.
      * exfalso. rewrite Ecz in Hn1.
        destruct (nth_error_update_static _ _ _ c cz c1 Hn Hst Hn1)
          as [c1' [Hn1' Hs1]].
        inversion Hs1 as [[E1 E2 E3 E4]].
        assert (Hx0 : 0 <= row x /\ 0 <= column x).
        { rewrite Forall_map, Forall_forall in Hco. apply Hco.
          eapply nth_error_In; eauto. }
        apply (coords_distinct (solve_puzzle g) n1 n' c1' x); auto; [lia|].
        rewrite E3, E4, Hr1, Hc1, !Nat2Z.id. reflexivity.
  - lia.
Qed.

Lemma after_accept (g g3 : SudokuSolver) (k1 : Z) (n : nat) (c c3 : Cell) :
  well_formed g ->
  nth_error (solve_puzzle g) n = Some c -> k1 <= Z.of_nat n ->
  (0 <= k1 -> Z.of_nat n = k1) ->
  static c3 = static c ->
  solve_puzzle g3 = update (solve_puzzle g) n c3 ->
  box_size g3 = box_size g ->
  ((solved c = true /\ puzzle g3 = puzzle g) \/ wrote c c3 (puzzle g) (puzzle g3)) ->
  writes_own_entries g g3 /\
  (is_valid c3 g3 = Ok true -> settled_below k1 g -> settled_below (k1 + 1) g3).
Proof.
  intros [Hidx [Hco [Hnd Hbs]]] Hn Hk Hk0 Hst Ec3 Eb3 Hp3.
  assert (Hc0 : 0 <= row c /\ 0 <= column c).
  { rewrite Forall_map, Forall_forall in Hco. apply Hco. eapply nth_error_In; eauto. }
  inversion Hst as [[S1 S2 S3 S4]].
  split.
  - intros i j. destruct Hp3 as [[_ Ep]|[Hs [v [Ep _]]]];
      [left; rewrite Ep; reflexivity|].
    destruct (Nat.eq_dec (Z.to_nat (row c)) i) as [Ei|Ei];
      [destruct (Nat.eq_dec (Z.to_nat (column c)) j) as [Ej|Ej]|].
    + right. exists n, c. split; [exact Hn|]. split; [lia|]. split; [lia|].
      left. exact Hs.
    + left. rewrite Ep. apply entry_grid_set_neq. congruence.
    + left. rewrite Ep. apply entry_grid_set_neq. congruence.
  - intros Hv Hsettled n' x Hn' Hx. rewrite Ec3 in Hx.
    destruct (Z.eq_dec (Z.of_nat n') k1) as [E|E].
    + assert (n' = n) by (specialize (Hk0 ltac:(lia)); lia). subst n'.
      rewrite nth_error_update_eq in Hx by (apply nth_error_Some; congruence).
      inversion Hx; subst x; clear Hx.
      destruct (solved c3) eqn:Es3; [left; reflexivity|right].
      split; [exact Hv|].
      destruct Hp3 as [[Hs _]|[_ [v [Ep [En [Ei [Rr Rc]]]]]]]; [congruence|].
      split; [rewrite En; exact Ei|].
      rewrite Ep, S3, S4, En. apply entry_grid_set_eq; unfold len in *; lia.
    + rewrite nth_error_update_neq in Hx by lia.
      destruct (Hsettled n' x ltac:(lia) Hx) as [Hs|[Hvx [A1 A2]]]; [left; exact Hs|].
      assert (Hx0 : 0 <= row x /\ 0 <= column x).
      { rewrite Forall_map, Forall_forall in Hco. apply Hco.
        eapply nth_error_In; eauto. }
      right. destruct Hp3 as [[_ Ep]|[_ [v [Ep _]]]].
      * split; [|split; [exact A1|rewrite Ep; exact A2]].
        rewrite <- Hvx. apply is_valid_ext; auto.
      * split; [|split; [exact A1|]].
        -- apply (is_valid_after_write c3 x g g3 v); try tauto; try lia.
           rewrite S3, S4. exact Ep.
        -- rewrite <- A2, Ep. apply entry_grid_set_neq.
           apply (coords_distinct (solve_puzzle g) n n'); auto. lia.
Qed.

Lemma well_formed_static (g g' : SudokuSolver) :
  well_formed g ->
  box_size g' = box_size g ->
  map static (solve_puzzle g') = map static (solve_puzzle g) ->
  Forall (fun c => 0 <= current_index c) (solve_puzzle g') ->
  well_formed g'.
Proof.
  intros [_ [Hco [Hnd Hbs]]] Eb Es Hidx.
  pose proof (static_coords _ _ Es) as Ec.
  split; [exact Hidx|]. rewrite Ec, Eb. auto.
Qed.

(** What a round of the main loop does to a well-formed state. *)
Lemma solve_step_effect (g g' : SudokuSolver) :
  solve_step g = Ok g' -> well_formed g ->
  well_formed g' /\
  writes_own_entries g g' /\
  (settled_before_cursor g -> settled_before_cursor g') /\
  (forall i, backtrack_coord g <= i < backtrack_coord g' ->
             exists x, py_index (solve_puzzle g') i = Ok x /\
                       (solved x = true \/
                        (i = backtrack_coord g' - 1 /\ is_valid x g' = Ok true))) /\
  map static (solve_puzzle g') = map static (solve_puzzle g).
Proof.
  intros Hstep W. pose proof W as [Hidx [Hco [Hnd Hbs]]].
  unfold solve_step in Hstep.
  apply bind_Ok in Hstep. destruct Hstep as [g1 [Hmove Hstep]].
  apply bind_Ok in Hstep. destruct Hstep as [[k g2] [Hset Hstep]].
  apply bind_Ok in Hstep. destruct Hstep as [g3 [Hinc Hchange]].
  pose proof (move_forward_spec g) as Hm. rewrite Hmove in Hm.
  destruct Hm as [k1 [Eg1 [Hk01 [Hskip _]]]]. subst g1.
  destruct (cell_phase _ _ _ _ Hset Hinc Hidx Hco)
    as [Ek [c [c3 [Hc [Hst [Hi3 [Ec3 [Eb3 [Ek3 [Hp3 [b [Hb Hlast]]]]]]]]]]]].
  cbn [solve_puzzle box_size backtrack_coord puzzle with_backtrack_coord] in *.
  subst k.
  pose proof (py_index_Ok _ _ _ Hc) as [Hrange Hnth].
  pose proof (norm_index_ge (solve_puzzle g) k1) as Hge.
  set (n := Z.to_nat (norm_index (solve_puzzle g) k1)) in *.
  assert (Hkn : k1 <= Z.of_nat n) by lia.
  assert (Hk0 : 0 <= k1 -> Z.of_nat n = k1).
  { intros H0. subst n. rewrite norm_index_nonneg by exact H0. lia. }
  assert (Hstat3 : map static (solve_puzzle g3) = map static (solve_puzzle g)).
  { rewrite Ec3. apply (map_update static _ _ c); assumption. }
  assert (Hc3 : py_index (solve_puzzle g3) k1 = Ok c3).
  { rewrite Ec3. apply (py_index_update_eq _ _ c). exact Hc. }
  assert (Hpassed : forall g'' i,
             map static (solve_puzzle g'') = map static (solve_puzzle g) ->
             backtrack_coord g <= i < k1 ->
             exists x, py_index (solve_puzzle g'') i = Ok x /\ solved x = true).
  { intros g'' i Hs Hi. apply (solved_at_static _ _ _ _ Hs). apply Hskip. exact Hi. }
  unfold change_cells in Hchange. rewrite Hc3 in Hchange. cbn [bind] in Hchange.
  rewrite Hb in Hchange. cbn [bind] in Hchange.
  destruct b.
  - (* the cell at the cursor is valid: the cursor steps past it *)
    inversion Hchange; subst g'; clear Hchange.
    cbn [solve_puzzle box_size backtrack_coord puzzle with_backtrack_coord].
    destruct (after_accept g g3 k1 n c c3 W Hnth Hkn Hk0 Hst Ec3 Eb3 Hp3) as [A1 A2].
    split; [|split; [exact A1|split; [|split; [|exact Hstat3]]]].
    + apply (well_formed_static g);
        cbn [solve_puzzle box_size with_backtrack_coord]; auto.
      rewrite Ec3. apply Forall_update; assumption.
    + intros Hs. rewrite Ek3.
      apply (A2 Hb (settled_after_move g k1 Hs Hskip)).
    + intros i Hi. rewrite Ek3 in Hi.
      destruct (Z.eq_dec i k1) as [->|Hne].
      * exists c3. split; [exact Hc3|]. right. split; [lia | exact Hb].
      * destruct (Hpassed g3 i Hstat3) as [x [Hx Hsx]]; [lia|].
        exists x. split; [exact Hx | left; exact Hsx].
  - (* the cell is invalid: retreat *)
    specialize (Hlast eq_refl).
    unfold decrement_cell in Hchange.
    assert (Hgoal :
              box_size g' = box_size g /\
              map static (solve_puzzle g') = map static (solve_puzzle g) /\
              Forall (fun c => 0 <= current_index c) (solve_puzzle g') /\
              writes_own_entries g g' /\
              (settled_below k1 g -> settled_before_cursor g') /\
              backtrack_coord g' <= k1).
    { destruct Hp3 as [[Hs Ep3]|Hw].
      - (* a fixed cell: the grid is as it was before the loop *)
        rewrite <- Ek3 in Hchange.
        apply decrement_cell_loop_effect in Hchange.
        + apply (after_retreat g g3 g' k1 n c c3); auto; lia.
        + rewrite Ec3. apply Forall_update; assumption.
        + rewrite (static_coords _ _ Hstat3). exact Hco.
      - (* an open cell, at its last candidate: the first round resets it *)
        destruct Hw as [Hs [v [Ep3 [En [Ei [Rr Rc]]]]]].
        pose proof (py_index_range _ _ _ Ei) as Hin.
        assert (Hl : current_index c3 = len (possibilities c3) - 1) by lia.
        pose proof (py_index_range _ _ _ Hc3) as Hr3.
        destruct (Z.to_nat (backtrack_coord g3 + len (solve_puzzle g3) + 1))
          as [|fuel] eqn:Ef; [lia|].
        cbn [decrement_cell_loop] in Hchange. rewrite Hc3 in Hchange.
        cbn [bind] in Hchange.
        assert (Et : (current_index c3 =? len (possibilities c3) - 1) = true)
          by (apply Z.eqb_eq; exact Hl).
        rewrite Et in Hchange.
        apply bind_Ok in Hchange. destruct Hchange as [g4 [Hreset Hchange]].
        apply bind_Ok in Hchange. destruct Hchange as [g5 [Hback Hchange]].
        apply reset_cell_inv in Hreset;
          [|rewrite (static_coords _ _ Hstat3); exact Hco].
        destruct Hreset as [c3' [Hc3' Eg4]].
        assert (c3' = c3) by congruence. subst c3'. clear Hc3'.
        apply backtrack_inv in Hback. destruct Hback as [k5 [Eg5 [Hk5 _]]].
        inversion Hst as [[S1 S2 S3 S4]].
        set (c4 := with_number (with_current_index c3 0) 0) in *.
        assert (Ec5 : solve_puzzle g5 = update (solve_puzzle g) n c4).
        { rewrite Eg5, Eg4. cbn [solve_puzzle with_backtrack_coord].
          rewrite Ec3, norm_index_update. fold n. apply update_update. }
        assert (Ep5 : puzzle g5
                      = grid_set (puzzle g) (Z.to_nat (row c)) (Z.to_nat (column c)) 0).
        { rewrite Eg5, Eg4. cbn [puzzle with_backtrack_coord].
          rewrite Ep3, S3, S4. apply grid_set_twice. }
        assert (Eb5 : box_size g5 = box_size g)
          by (rewrite Eg5, Eg4; cbn [box_size with_backtrack_coord]; exact Eb3).
        assert (Ek5 : backtrack_coord g5 = k5) by (rewrite Eg5; reflexivity).
        assert (Hk5' : k5 <= k1 - 1).
        { rewrite Eg4 in Hk5. cbn [backtrack_coord] in Hk5. lia. }
        assert (Hstat5 : map static (solve_puzzle g5) = map static (solve_puzzle g)).
        { rewrite Ec5. apply (map_update static _ _ c); [exact Hnth|].
          subst c4. unfold static. cbn. exact Hst. }
        apply decrement_cell_loop_effect in Hchange.
        + apply (after_retreat g g5 g' k1 n c c4); auto; lia.
        + rewrite Ec5. apply Forall_update; [exact Hidx|]. subst c4. cbn. lia.
        + rewrite (static_coords _ _ Hstat5). exact Hco. }
    destruct Hgoal as [G1 [G2 [G3 [G4 [G5 G6]]]]].
    split; [apply (well_formed_static g); auto|].
    split; [exact G4|]. split; [|split; [|exact G2]].
    + intros Hs. apply G5. apply (settled_after_move g k1 Hs Hskip).
    + intros i Hi. destruct (Hpassed g' i G2) as [x [Hx Hsx]]; [lia|].
      exists x. split; [exact Hx | left; exact Hsx].
Qed.

(** ** The board built by [initialize_board] is well formed *)

Lemma py_range_NoDup (a b : Z) : NoDup (py_range a b).
Proof.
  unfold py_range. generalize (Z.to_nat (b - a)) as n. intros n.
  generalize 0%nat as s. induction n as [|n IH]; intros s; simpl; constructor.
  - rewrite in_map_iff. intros [k [Hk Hin]]. apply in_seq in Hin. lia.
  - apply IH.
Qed.

Lemma all_coords_NoDup (p : list (list Z)) : NoDup (all_coords p).
Proof.
  unfold all_coords. generalize (py_range_NoDup 0 (len p)).
  generalize (py_range 0 (len p)) as rows.
  induction rows as [|r t IH]; intros Hnd; simpl; [constructor|].
  inversion Hnd; subst. apply NoDup_app.
  - unfold row_coords. generalize (py_range_NoDup 0 (len (nth (Z.to_nat r) p []))).
    generalize (py_range 0 (len (nth (Z.to_nat r) p []))) as cols.
    induction cols as [|c cols IHc]; intros Hc; simpl; constructor.
    + inversion Hc; subst. rewrite in_map_iff. intros [c' [E Hin]].
      inversion E; subst. contradiction.
    + apply IHc. inversion Hc; assumption.
  - apply IH. assumption.
  - intros [r' c'] Hin Hin'. unfold row_coords in Hin.
    apply in_map_iff in Hin. destruct Hin as [c'' [E _]]. inversion E; subst.
    apply in_flat_map in Hin'. destruct Hin' as [r'' [Hr'' Hin']].
    unfold row_coords in Hin'. apply in_map_iff in Hin'.
    destruct Hin' as [c'' [E' _]]. inversion E'; subst. contradiction.
Qed.

Lemma built_from_coords (p : list (list Z)) (cs : list (Z * Z)) (cells : list Cell) :
  Forall2 (built_from p) cs cells -> map coords cells = cs.
Proof.
  induction 1 as [|rc c cs cells H _ IH]; simpl; [reflexivity|].
  rewrite IH. destruct H as [H1 [H2 _]]. unfold coords. rewrite H1, H2.
  destruct rc; reflexivity.
Qed.

Lemma initial_state (p : list (list Z)) (g : SudokuSolver) :
  initialize_board (SudokuSolver_init p) = Ok g ->
  puzzle g = p /\ backtrack_coord g = 0 /\ well_formed g /\
  Forall2 (built_from p) (all_coords p) (solve_puzzle g).
Proof.
  intros H. apply initialize_board_inv in H. destruct H as [cells [Eg Hcells]].
  cbn [solve_puzzle puzzle SudokuSolver_init app] in Eg, Hcells.
  assert (Ec : solve_puzzle g = cells) by (rewrite Eg; reflexivity).
  split; [rewrite Eg; reflexivity|]. split; [rewrite Eg; reflexivity|].
  rewrite Ec. split; [|exact Hcells].
  pose proof (built_from_coords _ _ _ Hcells) as Hco.
  unfold well_formed. rewrite Ec, Hco. split; [|split; [|split]].
  - apply Forall_forall. intros c Hc.
    destruct (Forall2_In_r _ _ _ Hcells c Hc) as [rc [_ Hb]].
    destruct Hb as [_ [_ [Hi _]]]. lia.
  - apply Forall_forall. intros [r c] Hin. apply in_all_coords in Hin.
    cbn [fst snd]. lia.
  - apply all_coords_NoDup.
  - rewrite Eg. cbn [box_size with_solve_puzzle SudokuSolver_init].
    apply Z.sqrt_nonneg.
Qed.

(** ** Invariants of the main loop *)

Lemma reachable_well_formed (p : list (list Z)) (g : SudokuSolver) :
  reachable p g -> well_formed g.
Proof.
  induction 1 as [g Hi|g g' Hr IH Hk Hs].
  - apply (initial_state p g Hi).
  - apply (solve_step_effect g g' Hs IH).
Qed.

Lemma reachable_settled (p : list (list Z)) (g : SudokuSolver) :
  reachable p g -> settled_before_cursor g.
Proof.
  induction 1 as [g Hi|g g' Hr IH Hk Hs].
  - destruct (initial_state p g Hi) as [_ [Hk _]].
    intros n c Hn. rewrite Hk in Hn. lia.
  - apply (solve_step_effect g g' Hs (reachable_well_formed p g Hr)). exact IH.
Qed.




(** ** Clues *)

Lemma entry_nonneg (p : list (list Z)) (i j : nat) :
  digit_grid p -> 0 <= entry p i j.
Proof.
  intros H. unfold entry.
  destruct (Nat.lt_ge_cases i (length p)) as [Hi|Hi];
    [|rewrite (nth_overflow p) by exact Hi; destruct j; simpl; lia].
  destruct (Nat.lt_ge_cases j (length (nth i p []))) as [Hj|Hj];
    [|rewrite nth_overflow by exact Hj; lia].
  apply (entry_bounds p 0 9 i j H Hi Hj).
Qed.

Lemma reachable_clues (p : list (list Z)) (g : SudokuSolver) :
  reachable p g -> clues_fixed p g /\ clues_kept p g.
Proof.
  induction 1 as [g Hi|g g' Hr [IH1 IH2] Hk Hs].
  - destruct (initial_state p g Hi) as [Hp [_ [_ Hcells]]]. split.
    + unfold clues_fixed. rewrite Forall_map. apply Forall_forall. intros c Hc.
      destruct (Forall2_In_r _ _ _ Hcells c Hc) as [rc [_ Hb]].
      destruct Hb as [H1 [H2 [_ [H4 [H5 _]]]]].
      unfold clue_rule, static. cbn [fst snd]. rewrite H1, H2, <- H4. exact H5.
    + intros i j _. rewrite Hp. reflexivity.
  - destruct (solve_step_effect g g' Hs (reachable_well_formed p g Hr))
      as [_ [Hw [_ [_ Hst]]]].
    split.
    + unfold clues_fixed. rewrite Hst. exact IH1.
    + intros i j Hij. destruct (Hw i j) as [E|[n [c [Hn [Hr' [Hc' Hopen]]]]]].
      * rewrite E. apply IH2. exact Hij.
      * exfalso. unfold clues_fixed in IH1. rewrite Forall_map, Forall_forall in IH1.
        specialize (IH1 c (nth_error_In _ _ Hn)).
        unfold clue_rule, static in IH1. cbn [fst snd] in IH1.
        rewrite Hr', Hc', !Nat2Z.id in IH1. destruct (IH1 Hij) as [Hs1 Hp1].
        destruct Hopen; congruence.
Qed.

Lemma run_solve_reachable (p : list (list Z)) (fuel : nat) :
  forall g g', reachable p g -> run_solve fuel g = Ok g' -> reachable p g'.
Proof.
  induction fuel as [|fuel IH]; intros g g' Hr H; cbn [run_solve] in H;
    destruct (backtrack_coord g <=? len (solve_puzzle g) - 1) eqn:E;
    try discriminate; try (inversion H; subst; exact Hr).
  apply bind_Ok in H. destruct H as [g1 [Hs H]].
  apply (IH g1 g'); [|exact H].
  apply (reach_round p g g1 Hr); [apply Z.leb_le; exact E | exact Hs].
Qed.

(** C3: when [solve] returns on a grid of digits, every entry of the input
    that is not 0 is found unchanged in the output; and in every state the
    main loop reaches, the grid still shows that entry: [set_number],
    [reset_cell], [decrement_cell] and [backtrack] write only at coordinates
    of cells that the puzzle left empty. *)
Theorem clues_never_overwritten
        (p p' : list (list Z)) (fuel : nat) (i j : nat) :
  digit_grid p ->
  solve fuel p = Ok p' ->
  entry p i j <> 0 ->
  entry p' i j = entry p i j /\
  forall g, reachable p g -> entry (puzzle g) i j = entry p i j.
Proof.
  intros Hd Hs Hij.
  assert (Hpos : 0 < entry p i j) by (pose proof (entry_nonneg p i j Hd); lia).
  assert (Hall : forall g, reachable p g -> entry (puzzle g) i j = entry p i j).
  { intros g Hr. apply (reachable_clues p g Hr). exact Hpos. }
  split; [|exact Hall].
  unfold solve in Hs.
  apply bind_Ok in Hs. destruct Hs as [g0 [Hi Hs]].
  apply bind_Ok in Hs. destruct Hs as [g1 [Hrun Hs]]. inversion Hs; subst p'.
  apply Hall. apply (run_solve_reachable p fuel g0 g1); [|exact Hrun].
  apply reach_start. exact Hi.
Qed.

Lemma clues_never_overwritten_witness :
  entry easy_result 1 3 = entry easy_puzzle 1 3 /\
  forall g, reachable easy_puzzle g -> entry (puzzle g) 1 3 = entry easy_puzzle 1 3.
Proof.
  apply (clues_never_overwritten easy_puzzle easy_result 6 1 3).
  - repeat constructor; lia.
  - vm_compute. reflexivity.
  - vm_compute. discriminate.
Defined.

(** ** The inner loops have fuel enough

    [Timeout] comes from the main loop only: a round of it always returns or
    raises. *)

Lemma bind_finishes {A B : Type} (m : outcome A) (k : A -> outcome B) :
  m <> Timeout -> (forall a, m = Ok a -> k a <> Timeout) -> bind m k <> Timeout.
Proof.
  intros Hm Hk. destruct m as [a| |]; cbn [bind];
    [apply Hk; reflexivity | discriminate | exfalso; apply Hm; reflexivity].
Qed.

Lemma py_setitem_finishes {A : Type} (xs : list A) (i : Z) (v : A) :
  py_setitem xs i v <> Timeout.
Proof.
  unfold py_setitem.
  destruct ((0 <=? norm_index xs i) && (norm_index xs i <? len xs)); discriminate.
Qed.

Lemma mapM_finishes {A B : Type} (f : A -> outcome B) (xs : list A) :
  (forall x, f x <> Timeout) -> mapM f xs <> Timeout.
Proof.
  intros Hf. induction xs as [|x t IH]; simpl; [discriminate|].
  apply bind_finishes; [apply Hf|]. intros y _.
  apply bind_finishes; [exact IH|]. intros ys _. discriminate.
Qed.

Lemma foldM_finishes {A S : Type} (f : S -> A -> outcome S) (xs : list A) :
  (forall s x, f s x <> Timeout) -> forall s, foldM f xs s <> Timeout.
Proof.
  intros Hf. induction xs as [|x t IH]; intros s; simpl; [discriminate|].
  apply bind_finishes; [apply Hf|]. intros s' _. apply IH.
Qed.

Lemma puzzle_set_finishes (g : SudokuSolver) (r c v : Z) :
  puzzle_set g r c v <> Timeout.
Proof.
  unfold puzzle_set.
  apply bind_finishes; [apply py_index_no_timeout|]. intros old _.
  apply bind_finishes; [apply py_setitem_finishes|]. intros new _.
  apply bind_finishes; [apply py_setitem_finishes|]. intros p _. discriminate.
Qed.

Lemma set_number_finishes (self : Cell) (g : SudokuSolver) :
  set_number self g <> Timeout.
Proof.
  unfold set_number. destruct (negb (solved self)); [|discriminate].
  apply bind_finishes; [apply py_index_no_timeout|]. intros v _.
  apply bind_finishes; [apply py_index_no_timeout|]. intros w _.
  apply bind_finishes; [apply puzzle_set_finishes|]. intros g1 _. discriminate.
Qed.

Lemma is_valid_finishes (self : Cell) (g : SudokuSolver) : is_valid self g <> Timeout.
Proof.
  unfold is_valid, get_row, get_column, get_box, get_box_coordinates, find_box_start.
  apply bind_finishes; [apply py_index_no_timeout|]. intros r _.
  apply bind_finishes;
    [apply mapM_finishes; intros x; apply py_index_no_timeout|]. intros c _.
  apply bind_finishes; [|intros b _; discriminate].
  destruct (box_size g =? 0); cbn [bind]; [discriminate|].
  apply foldM_finishes. intros box i.
  apply bind_finishes; [apply py_index_no_timeout|]. intros x _. discriminate.
Qed.

Lemma store_cell_finishes (g : SudokuSolver) (k : Z) (c : Cell) :
  store_cell g k c <> Timeout.
Proof.
  unfold store_cell.
  apply bind_finishes; [apply py_setitem_finishes|]. intros cs _. discriminate.
Qed.

Lemma on_cell_finishes (m : Cell -> SudokuSolver -> outcome (Cell * SudokuSolver))
      (k : Z) (g : SudokuSolver) :
  (forall c g1, m c g1 <> Timeout) -> on_cell m k g <> Timeout.
Proof.
  intros Hm. unfold on_cell.
  apply bind_finishes; [apply py_index_no_timeout|]. intros c _.
  apply bind_finishes; [apply Hm|]. intros [c1 g1] _. apply store_cell_finishes.
Qed.

Lemma increment_value_loop_finishes (fuel : nat) :
  forall (self : Cell) (g : SudokuSolver),
    (Z.to_nat (len (possibilities self) - 1 - current_index self) <= fuel)%nat ->
    increment_value_loop fuel self g <> Timeout.
Proof.
  induction fuel as [|fuel IH]; intros self g Hf; cbn [increment_value_loop];
    (apply bind_finishes; [apply is_valid_finishes|]); intros v _;
    destruct (negb v && (current_index self <? len (possibilities self) - 1)) eqn:E;
    try discriminate.
  - apply andb_true_iff in E. destruct E as [_ E]. apply Z.ltb_lt in E. lia.
  - apply andb_true_iff in E. destruct E as [_ E]. apply Z.ltb_lt in E.
    apply bind_finishes; [apply set_number_finishes|]. intros [self2 g2] Hs.
    apply set_number_static in Hs. destruct Hs as [_ [Hp [_ [_ [Hi _]]]]].
    apply IH. rewrite Hp, Hi. cbn [possibilities current_index with_current_index]. lia.
Qed.

Lemma increment_value_finishes (self : Cell) (g : SudokuSolver) :
  increment_value self g <> Timeout.
Proof. apply increment_value_loop_finishes. lia. Qed.

Lemma backtrack_finishes (g : SudokuSolver) : backtrack g <> Timeout.
Proof.
  pose proof (backtrack_spec g) as H.
  destruct (backtrack g); [discriminate.. | contradiction].
Qed.

Lemma move_forward_finishes (g : SudokuSolver) : move_forward g <> Timeout.
Proof.
  pose proof (move_forward_spec g) as H.
  destruct (move_forward g); [discriminate.. | contradiction].
Qed.

Lemma reset_cell_frame (g g' : SudokuSolver) (k : Z) :
  reset_cell g k = Ok g' ->
  len (solve_puzzle g') = len (solve_puzzle g) /\
  backtrack_coord g' = backtrack_coord g.
Proof.
  unfold reset_cell. intros H.
  apply bind_Ok in H. destruct H as [c [_ H]].
  apply bind_Ok in H. destruct H as [g1 [Hst H]].
  apply store_cell_inv in Hst.
  unfold puzzle_set in H.
  apply bind_Ok in H. destruct H as [old [_ H]].
  apply bind_Ok in H. destruct H as [new [_ H]].
  apply bind_Ok in H. destruct H as [p [_ H]]. inversion H; subst.
  cbn [solve_puzzle backtrack_coord with_puzzle with_solve_puzzle].
  split; [apply len_update | reflexivity].
Qed.

Lemma reset_cell_finishes (g : SudokuSolver) (k : Z) : reset_cell g k <> Timeout.
Proof.
  unfold reset_cell.
  apply bind_finishes; [apply py_index_no_timeout|]. intros c _.
  apply bind_finishes; [apply store_cell_finishes|]. intros g1 _.
  apply puzzle_set_finishes.
Qed.

Lemma decrement_cell_loop_finishes (fuel : nat) :
  forall g : SudokuSolver,
    (Z.to_nat (backtrack_coord g + len (solve_puzzle g) + 1) <= fuel)%nat ->
    decrement_cell_loop fuel g (backtrack_coord g) <> Timeout.
Proof.
  induction fuel as [|fuel IH]; intros g Hf; cbn [decrement_cell_loop];
    (apply bind_finishes; [apply py_index_no_timeout|]); intros c Hc;
    apply py_index_range in Hc;
    (destruct (current_index c =? len (possibilities c) - 1);
     [|apply store_cell_finishes]).
  - lia.
  - apply bind_finishes; [apply reset_cell_finishes|]. intros g1 H1.
    apply reset_cell_frame in H1. destruct H1 as [Hl Hk].
    apply bind_finishes; [apply backtrack_finishes|]. intros g2 H2.
    apply backtrack_inv in H2. destruct H2 as [k2 [Eg2 [Hk2 _]]].
    apply IH. rewrite Eg2. cbn [backtrack_coord solve_puzzle with_backtrack_coord]. lia.
Qed.

Lemma increment_value_loop_cursor (fuel : nat) :
  forall (self self' : Cell) (g g' : SudokuSolver),
    increment_value_loop fuel self g = Ok (self', g') ->
    backtrack_coord g' = backtrack_coord g /\ solve_puzzle g' = solve_puzzle g.
Proof.
  induction fuel as [|fuel IH]; intros self self' g g' H;
    cbn [increment_value_loop] in H;
    apply bind_Ok in H; destruct H as [v [_ H]];
    destruct (negb v && (current_index self <? len (possibilities self) - 1));
    try discriminate; try (inversion H; subst; split; reflexivity).
  apply bind_Ok in H. destruct H as [[self2 g2] [Hs H]].
  apply set_number_static in Hs. destruct Hs as [_ [_ [_ [_ [_ [Hc [_ Hk]]]]]]].
  apply IH in H. destruct H as [H1 H2]. split; congruence.
Qed.

Lemma on_cell_cursor (m : Cell -> SudokuSolver -> outcome (Cell * SudokuSolver))
      (k : Z) (g g' : SudokuSolver) :
  (forall c c' g1 g1', m c g1 = Ok (c', g1') ->
                       backtrack_coord g1' = backtrack_coord g1 /\
                       solve_puzzle g1' = solve_puzzle g1) ->
  on_cell m k g = Ok g' ->
  backtrack_coord g' = backtrack_coord g /\
  len (solve_puzzle g') = len (solve_puzzle g).
Proof.
  intros Hm H. unfold on_cell in H.
  apply bind_Ok in H. destruct H as [c [_ H]].
  apply bind_Ok in H. destruct H as [[c1 g1] [Hc H]].
  apply Hm in Hc. destruct Hc as [Hk Hcs].
  apply store_cell_inv in H. rewrite H.
  cbn [backtrack_coord solve_puzzle with_solve_puzzle].
  rewrite len_update, Hcs. split; [exact Hk | reflexivity].
Qed.

Lemma solve_step_finishes (g : SudokuSolver) : solve_step g <> Timeout.
Proof.
  unfold solve_step.
  apply bind_finishes; [apply move_forward_finishes|]. intros g1 _.
  apply bind_finishes.
  { unfold set_cell.
    apply bind_finishes; [apply on_cell_finishes; apply set_number_finishes|].
    intros g2 _. discriminate. }
  intros [k g2] Hset.
  apply bind_finishes; [apply on_cell_finishes; apply increment_value_finishes|].
  intros g3 Hinc. unfold change_cells.
  apply bind_finishes; [apply py_index_no_timeout|]. intros c _.
  apply bind_finishes; [apply is_valid_finishes|]. intros [|] _; [discriminate|].
  unfold set_cell in Hset. apply bind_Ok in Hset. destruct Hset as [g2' [Hset E]].
  inversion E; subst k g2'; clear E.
  apply on_cell_cursor in Hset.
  2:{ intros c0 c' g0 g0' H0. apply set_number_static in H0.
      destruct H0 as [_ [_ [_ [_ [_ [Hc [_ Hk]]]]]]]. split; assumption. }
  apply on_cell_cursor in Hinc.
  2:{ intros c0 c' g0 g0' H0. unfold increment_value in H0.
      apply increment_value_loop_cursor in H0. exact H0. }
  destruct Hset as [K1 _]. destruct Hinc as [K2 _].
  unfold decrement_cell. rewrite <- K1, <- K2.
  apply decrement_cell_loop_finishes. lia.
Qed.

(** * Further properties of the code *)

(** ** [check_area] and [is_valid] *)

Lemma NoDup_filter_positions (f : Z -> bool) (l : list Z) :
  NoDup (filter f l) <->
  forall i j, (i < j < length l)%nat -> nth i l 0 = nth j l 0 -> f (nth i l 0) = false.
Proof.
  induction l as [|x t IH].
  - cbn. split; [intros _ i j H; lia | intros _; constructor].
  - cbn [filter length]. destruct (f x) eqn:Ex.
    + split.
      * intros Hnd i j Hij E. inversion Hnd as [|? ? Hx Ht]; subst.
        destruct i as [|i'].
        -- destruct j as [|j']; [lia|]. cbn [nth] in E. exfalso. apply Hx.
           apply filter_In. split; [|exact Ex].
           rewrite E. apply nth_In. lia.
        -- destruct j as [|j']; [lia|]. cbn [nth] in *.
           apply (proj1 IH Ht i' j'); [lia | exact E].
      * intros H. constructor.
        -- intros Hin. apply filter_In in Hin. destruct Hin as [Hin _].
           destruct (In_nth _ _ 0 Hin) as [k [Hk Ek]].
           specialize (H O (S k)). cbn [nth] in H.
           rewrite Ex in H. discriminate H; [lia | symmetry; exact Ek].
        -- apply IH. intros i j Hij E.
           apply (H (S i) (S j)); [lia | exact E].
    + split.
      * intros Hnd i j Hij E. destruct i as [|i'].
        -- exact Ex.
        -- destruct j as [|j']; [lia|]. cbn [nth] in *.
           apply (proj1 IH Hnd i' j'); [lia | exact E].
      * intros H. apply IH. intros i j Hij E.
        apply (H (S i) (S j)); [lia | exact E].
Qed.

(** X1: [check_area] accepts a unit exactly when no two of its positions hold
    the same digit other than 0. *)
Theorem check_area_no_repeated_digit (area : list Z) :
  check_area area = true <->
  forall i j, (i < j < length area)%nat ->
              nth i area 0 = nth j area 0 -> nth i area 0 = 0.
Proof.
  rewrite check_area_NoDup, NoDup_filter_positions.
  split; intros H i j Hij E; specialize (H i j Hij E).
  - apply negb_false_iff in H. apply Z.eqb_eq in H. exact H.
  - apply negb_false_iff. apply Z.eqb_eq. exact H.
Qed.

(** X2: on a standard board [is_valid] never raises; it accepts exactly when
    the row, the column and the box of the cell's coordinate each hold no
    digit other than 0 twice, and it looks at nothing of the cell but its
    coordinate. *)
Theorem is_valid_checks_three_units (self : Cell) (game : SudokuSolver) :
  standard_board game -> 0 <= row self <= 8 -> 0 <= column self <= 8 ->
  is_valid self game
  = Ok (check_area (nth (Z.to_nat (row self)) (puzzle game) []) &&
        check_area (map (fun r => nth (Z.to_nat (column self)) r 0) (puzzle game)) &&
        check_area (sub_block (puzzle game) (Z.to_nat (row self / 3 * 3))
                              (Z.to_nat (column self / 3 * 3)) 3)) /\
  (is_valid self game = Ok true <->
   NoDup (filter (fun item => negb (item =? 0))
                 (nth (Z.to_nat (row self)) (puzzle game) [])) /\
   NoDup (filter (fun item => negb (item =? 0))
                 (map (fun r => nth (Z.to_nat (column self)) r 0) (puzzle game))) /\
   NoDup (filter (fun item => negb (item =? 0))
                 (sub_block (puzzle game) (Z.to_nat (row self / 3 * 3))
                            (Z.to_nat (column self / 3 * 3)) 3))) /\
  (forall other : Cell,
      row other = row self -> column other = column self ->
      is_valid other game = is_valid self game).
Proof.
  intros Hb Hr Hc.
  destruct (standard_units game (row self) (column self) Hb Hr Hc) as [E1 [E2 E3]].
  pose proof (is_valid_Ok self game _ _ _ E1 E2 E3) as Hv.
  split; [exact Hv|]. split.
  - rewrite Hv. rewrite <- !check_area_NoDup. split.
    + intros H. inversion H as [H1]. rewrite H1.
      apply andb_prop in H1. destruct H1 as [H1 H3].
      apply andb_prop in H1. destruct H1 as [H1 H2]. auto.
    + intros [H1 [H2 H3]]. rewrite H1, H2, H3. reflexivity.
  - intros other Er Ec. unfold is_valid. rewrite Er, Ec. reflexivity.
Qed.

Lemma is_valid_checks_three_units_witness :
  is_valid stuck_cell stuck_game
  = Ok (check_area (nth (Z.to_nat (row stuck_cell)) (puzzle stuck_game) []) &&
        check_area (map (fun r => nth (Z.to_nat (column stuck_cell)) r 0)
                        (puzzle stuck_game)) &&
        check_area (sub_block (puzzle stuck_game) (Z.to_nat (row stuck_cell / 3 * 3))
                              (Z.to_nat (column stuck_cell / 3 * 3)) 3)) /\
  (is_valid stuck_cell stuck_game = Ok true <->
   NoDup (filter (fun item => negb (item =? 0))
                 (nth (Z.to_nat (row stuck_cell)) (puzzle stuck_game) [])) /\
   NoDup (filter (fun item => negb (item =? 0))
                 (map (fun r => nth (Z.to_nat (column stuck_cell)) r 0)
                      (puzzle stuck_game))) /\
   NoDup (filter (fun item => negb (item =? 0))
                 (sub_block (puzzle stuck_game) (Z.to_nat (row stuck_cell / 3 * 3))
                            (Z.to_nat (column stuck_cell / 3 * 3)) 3))) /\
  (forall other : Cell,
      row other = row stuck_cell -> column other = column stuck_cell ->
      is_valid other stuck_game = is_valid stuck_cell stuck_game).
Proof.
  apply (is_valid_checks_three_units stuck_cell stuck_game).
  - split; [split; [reflexivity | repeat constructor] | reflexivity].
  - unfold stuck_cell; cbn; lia.
  - unfold stuck_cell; cbn; lia.
Defined.

(** ** Reading the grid *)

Lemma py_index_beyond {A : Type} (xs : list A) (i : Z) :
  0 <= i -> len xs <= i -> py_index xs i = Raise IndexError.
Proof.
  intros H0 H. unfold py_index. rewrite norm_index_nonneg by exact H0.
  destruct (i <? len xs) eqn:E; [apply Z.ltb_lt in E; lia|].
  rewrite andb_false_r. reflexivity.
Qed.

Lemma mapM_Ok_inv {A B : Type} (f : A -> outcome B) (xs : list A) :
  forall ys, mapM f xs = Ok ys -> Forall2 (fun x y => f x = Ok y) xs ys.
Proof.
  induction xs as [|x t IH]; intros ys H; cbn [mapM] in H.
  - inversion H. constructor.
  - apply bind_Ok in H. destruct H as [y [Hy H]].
    apply bind_Ok in H. destruct H as [ys' [Hys H]].
    inversion H; subst. constructor; [exact Hy | apply IH; exact Hys].
Qed.

(** X3: [get_column] indexes every row of the grid.  With a column index that
    is not negative it returns the entries of that column when every row is
    long enough, raises [IndexError] as soon as one row is too short, and
    whenever it returns, its item [i] is item [c] of row [i]. *)
Theorem get_column_reads_every_row (game : SudokuSolver) (c : Z) :
  0 <= c ->
  (Forall (fun r => c < len r) (puzzle game) ->
   get_column game c = Ok (map (fun r => nth (Z.to_nat c) r 0) (puzzle game))) /\
  (Exists (fun r => len r <= c) (puzzle game) ->
   get_column game c = Raise IndexError) /\
  (forall (i : Z) (r col : list Z),
      0 <= i -> get_row game i = Ok r -> get_column game c = Ok col ->
      py_index col i = py_index r c).
Proof.
  intros H0. split; [|split].
  - intros H. apply get_column_Ok.
    eapply Forall_impl; [|exact H]. intros r Hr. simpl in Hr. lia.
  - unfold get_column. induction (puzzle game) as [|r t IH]; intros H.
    + inversion H.
    + cbn [mapM]. destruct (py_index r c) as [x|e|] eqn:E; cbn [bind].
      * inversion H as [? ? Hr|? ? Ht]; subst.
        -- apply py_index_range in E. lia.
        -- rewrite (IH Ht). reflexivity.
      * apply py_index_raise in E. destruct E as [-> _]. reflexivity.
      * exfalso. exact (py_index_no_timeout _ _ E).
  - intros i r col Hi Hr Hcol. unfold get_row in Hr. unfold get_column in Hcol.
    apply mapM_Ok_inv in Hcol.
    pose proof (py_index_Ok _ _ _ Hr) as [Hrange Hnth].
    rewrite norm_index_nonneg in Hrange, Hnth by exact Hi.
    destruct (Forall2_nth_error_l _ _ _ Hcol _ _ Hnth) as [y [Hy Ey]].
    rewrite Ey. replace i with (Z.of_nat (Z.to_nat i)) by lia.
    apply py_index_nth_error. exact Hy.
Qed.

Lemma get_column_reads_every_row_witness :
  (Forall (fun r => 2 < len r) (puzzle (SudokuSolver_init classic_puzzle)) ->
   get_column (SudokuSolver_init classic_puzzle) 2
   = Ok (map (fun r => nth (Z.to_nat 2) r 0) (puzzle (SudokuSolver_init classic_puzzle)))) /\
  (Exists (fun r => len r <= 2) (puzzle (SudokuSolver_init classic_puzzle)) ->
   get_column (SudokuSolver_init classic_puzzle) 2 = Raise IndexError) /\
  (forall (i : Z) (r col : list Z),
      0 <= i -> get_row (SudokuSolver_init classic_puzzle) i = Ok r ->
      get_column (SudokuSolver_init classic_puzzle) 2 = Ok col ->
      py_index col i = py_index r 2).
Proof.
  apply (get_column_reads_every_row (SudokuSolver_init classic_puzzle) 2). lia.
Defined.

(** X4: the box size the constructor computes is 0 for a grid without rows
    only; [find_box_start] then divides by zero.  For every other grid it
    returns the multiple of the box size at or below the coordinate (also for
    a negative coordinate, the division rounding down), and the start of a
    start is the start itself. *)
Theorem find_box_start_floor (p : list (list Z)) (coordinate : Z) :
  (p = [] -> find_box_start (SudokuSolver_init p) coordinate = Raise ZeroDivisionError) /\
  (p <> [] ->
   exists s q,
     find_box_start (SudokuSolver_init p) coordinate = Ok s /\
     0 < box_size (SudokuSolver_init p) /\
     s = q * box_size (SudokuSolver_init p) /\
     s <= coordinate < s + box_size (SudokuSolver_init p) /\
     find_box_start (SudokuSolver_init p) s = Ok s).
Proof.
  split.
  - intros ->. reflexivity.
  - intros Hp. unfold find_box_start. cbn [box_size SudokuSolver_init].
    assert (Hlen : 0 < len p).
    { destruct p; [congruence|]. unfold len. cbn [length]. lia. }
    assert (Hs : 0 < Z.sqrt (len p)) by (apply Z.sqrt_pos; exact Hlen).
    set (bs := Z.sqrt (len p)) in *.
    destruct (bs =? 0) eqn:E; [apply Z.eqb_eq in E; lia|].
    exists (coordinate / bs * bs), (coordinate / bs).
    split; [reflexivity|]. split; [exact Hs|]. split; [reflexivity|].
    pose proof (Z.mul_div_le coordinate bs Hs).
    pose proof (Z.mul_succ_div_gt coordinate bs Hs).
    split; [lia|]. rewrite Z.div_mul by lia. reflexivity.
Qed.

Lemma nth_sub_block3 (p : list (list Z)) (top left a b : nat) :
  (a < 3)%nat -> (b < 3)%nat ->
  nth (3 * a + b) (sub_block p top left 3) 0 = entry p (top + a) (left + b).
Proof.
  intros Ha Hb. unfold sub_block. cbn [seq flat_map map app].
  destruct a as [|[|[|a]]]; [| | |lia];
    (destruct b as [|[|[|b]]]; [| | |lia]); reflexivity.
Qed.

(** X5: on a standard board [get_box] returns the same list for every
    coordinate of a box, and item [3 * (r mod 3) + c mod 3] of that list is
    the grid entry at row [r], column [c]. *)
Theorem get_box_of_a_box (game : SudokuSolver) (r c r' c' : Z) :
  standard_board game -> 0 <= r <= 8 -> 0 <= c <= 8 ->
  r / 3 * 3 <= r' < r / 3 * 3 + 3 -> c / 3 * 3 <= c' < c / 3 * 3 + 3 ->
  get_box game r' c' = get_box game r c /\
  exists box,
    get_box game r c = Ok box /\
    nth (Z.to_nat (3 * (r' mod 3) + c' mod 3)) box 0
    = entry (puzzle game) (Z.to_nat r') (Z.to_nat c').
Proof.
  intros Hb Hr Hc Hr' Hc'.
  pose proof (box_start_unique 3 r r' ltac:(lia) Hr') as Er.
  pose proof (box_start_unique 3 c c' ltac:(lia) Hc') as Ec.
  split.
  - destruct Hb as [_ Hbs]. apply get_box_starts; rewrite Hbs; congruence.
  - destruct (standard_units game r c Hb Hr Hc) as [_ [_ E3]].
    eexists. split; [exact E3|].
    pose proof (Z.div_mod r' 3 ltac:(lia)) as Dr.
    pose proof (Z.div_mod c' 3 ltac:(lia)) as Dc.
    pose proof (Z.mod_pos_bound r' 3 ltac:(lia)) as Mr.
    pose proof (Z.mod_pos_bound c' 3 ltac:(lia)) as Mc.
    assert (0 <= r / 3) by (apply Z.div_pos; lia).
    assert (0 <= c / 3) by (apply Z.div_pos; lia).
    replace (Z.to_nat (3 * (r' mod 3) + c' mod 3))
      with (3 * Z.to_nat (r' mod 3) + Z.to_nat (c' mod 3))%nat by lia.
    rewrite nth_sub_block3 by lia.
    f_equal; lia.
Qed.

Lemma get_box_of_a_box_witness :
  get_box (SudokuSolver_init classic_puzzle) 3 8
  = get_box (SudokuSolver_init classic_puzzle) 4 7 /\
  exists box,
    get_box (SudokuSolver_init classic_puzzle) 4 7 = Ok box /\
    nth (Z.to_nat (3 * (3 mod 3) + 8 mod 3)) box 0
    = entry (puzzle (SudokuSolver_init classic_puzzle)) (Z.to_nat 3) (Z.to_nat 8).
Proof.
  apply (get_box_of_a_box (SudokuSolver_init classic_puzzle) 4 7 3 8).
  - split; [split; [reflexivity | repeat constructor] | reflexivity].
  - lia.
  - lia.
  - vm_compute. split; [discriminate | reflexivity].
  - vm_compute. split; [discriminate | reflexivity].
Defined.

(** ** Construction *)

(** X6: constructing a cell never changes the game: the cell keeps the number
    it was given (0 for an empty entry, also when a single candidate is left),
    starts at candidate index 0, and is fixed exactly when the number is
    positive or one candidate is left. *)
Theorem Cell_init_leaves_grid
        (column_number row_number num : Z) (game game' : SudokuSolver) (cell : Cell) :
  Cell_init column_number row_number num game = Ok (cell, game') ->
  game' = game /\
  number cell = num /\ row cell = row_number /\ column cell = column_number /\
  current_index cell = 0 /\
  (solved cell = true <-> 0 < num \/ len (possibilities cell) = 1).
Proof.
  intros H. apply Cell_init_game in H.
  destruct H as [Eg [Er [Ec [Ei [En [Hclue Hempty]]]]]].
  repeat (split; [assumption|]).
  destruct (Z.lt_ge_cases 0 num) as [Hpos|Hle].
  - destruct (Hclue Hpos) as [Hs _]. split; [intros _; left; exact Hpos | intros _; exact Hs].
  - rewrite (Hempty ltac:(lia)). rewrite Z.eqb_eq. split; [intros E; right; exact E|].
    intros [Hpos|E]; [lia | exact E].
Qed.

Lemma Cell_init_leaves_grid_witness :
  SudokuSolver_init classic_puzzle = SudokuSolver_init classic_puzzle /\
  number (mkCell true 0 [5] 4 4 0) = 0 /\
  row (mkCell true 0 [5] 4 4 0) = 4 /\ column (mkCell true 0 [5] 4 4 0) = 4 /\
  current_index (mkCell true 0 [5] 4 4 0) = 0 /\
  (solved (mkCell true 0 [5] 4 4 0) = true <->
   0 < 0 \/ len (possibilities (mkCell true 0 [5] 4 4 0)) = 1).
Proof.
  apply (Cell_init_leaves_grid 4 4 0 (SudokuSolver_init classic_puzzle)).
  vm_compute. reflexivity.
Defined.

Lemma nth_error_all_coords9 (i j : nat) :
  (i < 9)%nat -> (j < 9)%nat ->
  nth_error (all_coords classic_puzzle) (9 * i + j) = Some (Z.of_nat i, Z.of_nat j).
Proof.
  intros Hi Hj.
  do 9 (destruct i as [|i]; [do 9 (destruct j as [|j]; [reflexivity|]); lia|]). lia.
Qed.

Lemma standard_board_init (p : list (list Z)) :
  square 9 p -> standard_board (SudokuSolver_init p).
Proof.
  intros Hsq. split; [exact Hsq|]. cbn [box_size SudokuSolver_init].
  rewrite (square_len 9) by exact Hsq. reflexivity.
Qed.

Lemma board_layout (p : list (list Z)) :
  square 9 p ->
  exists g,
    initialize_board (SudokuSolver_init p) = Ok g /\
    puzzle g = p /\ box_size g = 3 /\ backtrack_coord g = 0 /\
    length (solve_puzzle g) = 81%nat /\
    forall i j, (i < 9)%nat -> (j < 9)%nat ->
      exists c, nth_error (solve_puzzle g) (9 * i + j) = Some c /\
                row c = Z.of_nat i /\ column c = Z.of_nat j /\
                number c = entry p i j /\ current_index c = 0 /\
                (0 < entry p i j -> solved c = true /\ possibilities c = []) /\
                (entry p i j <= 0 -> solved c = (len (possibilities c) =? 1)).
Proof.
  intros Hsq.
  destruct (initialize_board_standard _ (standard_board_init p Hsq)) as [g [Hg Hstd]].
  exists g. split; [exact Hg|].
  pose proof (initialize_board_inv _ _ Hg) as [cells0 [Eg _]].
  destruct (initial_state p g Hg) as [Ep [Ek [_ Hcells]]].
  rewrite (all_coords_square9 p Hsq) in Hcells.
  split; [exact Ep|]. split; [exact (proj2 Hstd)|]. split; [exact Ek|]. split.
  - rewrite <- (Forall2_length Hcells). reflexivity.
  - intros i j Hi Hj.
    destruct (Forall2_nth_error_l _ _ _ Hcells _ _ (nth_error_all_coords9 i j Hi Hj))
      as [c [Hc Hb]].
    exists c. split; [exact Hc|].
    destruct Hb as [Br [Bc [Bi [Bn [Bclue Bempty]]]]].
    cbn [fst snd] in *. rewrite !Nat2Z.id in Bn.
    repeat (split; [assumption|]).
    rewrite <- Bn. split; assumption.
Qed.

(** X7: on a 9 x 9 grid [initialize_board] returns, leaves the grid as it
    was and the cursor at 0, and builds 81 cells in row-major order: the cell
    at position [9 * i + j] sits at row [i], column [j], holds the entry of
    the grid there, and is fixed without candidates when that entry is
    positive. *)
Theorem initialize_board_row_major (p : list (list Z)) :
  square 9 p ->
  exists g,
    initialize_board (SudokuSolver_init p) = Ok g /\
    puzzle g = p /\ box_size g = 3 /\ backtrack_coord g = 0 /\
    length (solve_puzzle g) = 81%nat /\
    forall i j, (i < 9)%nat -> (j < 9)%nat ->
      exists c, nth_error (solve_puzzle g) (9 * i + j) = Some c /\
                row c = Z.of_nat i /\ column c = Z.of_nat j /\
                number c = entry p i j /\ current_index c = 0 /\
                (0 < entry p i j -> solved c = true /\ possibilities c = []) /\
                (entry p i j <= 0 -> solved c = (len (possibilities c) =? 1)).
Proof. exact (board_layout p). Qed.

Lemma initialize_board_row_major_witness :
  exists g,
    initialize_board (SudokuSolver_init classic_puzzle) = Ok g /\
    puzzle g = classic_puzzle /\ box_size g = 3 /\ backtrack_coord g = 0 /\
    length (solve_puzzle g) = 81%nat /\
    forall i j, (i < 9)%nat -> (j < 9)%nat ->
      exists c, nth_error (solve_puzzle g) (9 * i + j) = Some c /\
                row c = Z.of_nat i /\ column c = Z.of_nat j /\
                number c = entry classic_puzzle i j /\ current_index c = 0 /\
                (0 < entry classic_puzzle i j -> solved c = true /\ possibilities c = []) /\
                (entry classic_puzzle i j <= 0 ->
                 solved c = (len (possibilities c) =? 1)).
Proof.
  apply (initialize_board_row_major classic_puzzle).
  split; [reflexivity | repeat constructor].
Defined.

Lemma foldM_fixed {A S : Type} (f : S -> A -> outcome S) (xs : list A) (s : S) :
  (forall x, In x xs -> f s x = Ok s) -> foldM f xs s = Ok s.
Proof.
  induction xs as [|x t IH]; intros H; cbn [foldM]; [reflexivity|].
  rewrite (H x (or_introl eq_refl)). cbn [bind]. apply IH.
  intros y Hy. apply H. right. exact Hy.
Qed.

Lemma solve_grid_without_rows (fuel : nat) :
  initialize_board (SudokuSolver_init []) = Ok (SudokuSolver_init []) /\
  solve fuel [] = Ok [].
Proof. split; [reflexivity | destruct fuel; reflexivity]. Qed.

(** X8: a grid with no entry at all (no row, or rows that are all empty)
    gives no cell; the main loop does not run a single round and [solve]
    returns the grid as it is, whatever the number of rows. *)
Theorem solve_grid_without_entries (n fuel : nat) :
  initialize_board (SudokuSolver_init (repeat [] n)) = Ok (SudokuSolver_init (repeat [] n)) /\
  solve fuel (repeat [] n) = Ok (repeat [] n).
Proof.
  assert (Hi : initialize_board (SudokuSolver_init (repeat [] n))
               = Ok (SudokuSolver_init (repeat [] n))).
  { unfold initialize_board. apply foldM_fixed. intros r Hr.
    apply in_py_range in Hr. cbn [puzzle SudokuSolver_init] in *.
    rewrite (py_index_nth _ _ []) by lia.
    assert (E : nth (Z.to_nat r) (repeat (@nil Z) n) [] = []).
    { destruct (nth_in_or_default (Z.to_nat r) (repeat (@nil Z) n) []) as [Hin|E];
        [apply repeat_spec in Hin; exact Hin | exact E]. }
    rewrite E. reflexivity. }
  split; [exact Hi|].
  unfold solve. rewrite Hi. cbn [bind].
  destruct fuel; reflexivity.
Qed.

(** ** The steps of the search *)

Lemma move_forward_result (g : SudokuSolver) :
  - len (solve_puzzle g) <= backtrack_coord g ->
  exists k',
    move_forward g = Ok (with_backtrack_coord g k') /\
    backtrack_coord g <= k' /\
    (forall i, backtrack_coord g <= i < k' -> solved_at (solve_puzzle g) i true) /\
    (k' < len (solve_puzzle g) - 1 -> solved_at (solve_puzzle g) k' false) /\
    (backtrack_coord g <= len (solve_puzzle g) - 1 -> k' <= len (solve_puzzle g) - 1) /\
    (len (solve_puzzle g) - 1 <= backtrack_coord g -> k' = backtrack_coord g).
Proof.
  intros Hlow. pose proof (move_forward_spec g) as H.
  destruct (move_forward g) as [g'|e|]; [|lia|contradiction].
  destruct H as [k' [Eg [H1 [H2 [H3 H4]]]]].
  exists k'. split; [rewrite Eg; reflexivity|].
  repeat (split; [assumption|]).
  intros Hend.
  destruct (Z.eq_dec k' (backtrack_coord g)) as [E|Hne]; [exact E|].
  exfalso. assert (Hs : solved_at (solve_puzzle g) (backtrack_coord g) true)
    by (apply H2; lia).
  apply solved_at_range in Hs. lia.
Qed.

(** X9: started at a cursor that is not below [-N] ([N] cells),
    [move_forward] returns and changes nothing but the cursor: it skips fixed
    cells only, stops at the first open cell or at the last position [N - 1],
    which it never passes, and running it again changes nothing. *)
Theorem move_forward_stops_at_open_cell (g : SudokuSolver) :
  - len (solve_puzzle g) <= backtrack_coord g ->
  exists k',
    move_forward g = Ok (with_backtrack_coord g k') /\
    backtrack_coord g <= k' /\
    (forall i, backtrack_coord g <= i < k' -> solved_at (solve_puzzle g) i true) /\
    (k' < len (solve_puzzle g) - 1 -> solved_at (solve_puzzle g) k' false) /\
    (backtrack_coord g <= len (solve_puzzle g) - 1 -> k' <= len (solve_puzzle g) - 1) /\
    (len (solve_puzzle g) - 1 <= backtrack_coord g -> k' = backtrack_coord g) /\
    move_forward (with_backtrack_coord g k') = Ok (with_backtrack_coord g k').
Proof.
  intros Hlow.
  destruct (move_forward_result g Hlow) as [k' [Em [H1 [H2 [H3 [H4 H5]]]]]].
  exists k'. repeat (split; [assumption|]).
  destruct (move_forward_result (with_backtrack_coord g k')) as [k2 [Em2 [G1 [G2 [G3 [_ G5]]]]]].
  { cbn [solve_puzzle backtrack_coord with_backtrack_coord]. lia. }
  cbn [solve_puzzle backtrack_coord with_backtrack_coord] in *.
  rewrite with_backtrack_coord_twice in Em2. rewrite Em2. do 2 f_equal.
  destruct (Z.lt_ge_cases k' (len (solve_puzzle g) - 1)) as [Hlt|Hge].
  - destruct (Z.eq_dec k2 k') as [E|Hne]; [exact E|]. exfalso.
    apply (solved_at_fun (solve_puzzle g) k'); [apply G2; lia | apply H3; exact Hlt].
  - apply G5. lia.
Qed.

Lemma move_forward_stops_at_open_cell_witness :
  exists k',
    move_forward easy_start = Ok (with_backtrack_coord easy_start k') /\
    backtrack_coord easy_start <= k' /\
    (forall i, backtrack_coord easy_start <= i < k' ->
               solved_at (solve_puzzle easy_start) i true) /\
    (k' < len (solve_puzzle easy_start) - 1 -> solved_at (solve_puzzle easy_start) k' false) /\
    (backtrack_coord easy_start <= len (solve_puzzle easy_start) - 1 ->
     k' <= len (solve_puzzle easy_start) - 1) /\
    (len (solve_puzzle easy_start) - 1 <= backtrack_coord easy_start ->
     k' = backtrack_coord easy_start) /\
    move_forward (with_backtrack_coord easy_start k')
    = Ok (with_backtrack_coord easy_start k').
Proof.
  apply (move_forward_stops_at_open_cell easy_start). vm_compute. discriminate.
Defined.

Lemma py_index_nil {A : Type} (i : Z) : py_index (@nil A) i = Raise IndexError.
Proof.
  unfold py_index, norm_index, len. cbn [length Z.of_nat].
  destruct (i <? 0) eqn:E.
  - apply Z.ltb_lt in E. destruct (0 <=? i + 0) eqn:E1; [apply Z.leb_le in E1; lia|].
    reflexivity.
  - destruct (i <? 0) eqn:E2; [discriminate|]. rewrite andb_false_r. reflexivity.
Qed.

Lemma grid_set_same (p : list (list Z)) (i j : nat) :
  (i < length p)%nat -> (j < length (nth i p []))%nat ->
  grid_set p i j (entry p i j) = p.
Proof.
  intros Hi Hj. unfold grid_set, entry.
  apply update_same. rewrite (nth_error_nth' p [] Hi). f_equal.
  symmetry. apply update_same. apply nth_error_nth'. exact Hj.
Qed.

(** X10: [set_cell] on a standard board.  At a fixed cell it changes nothing;
    at an open cell without candidates it raises [IndexError]; at an open
    cell whose candidate index is in range it stores the candidate under that
    index in the cell and writes it at the cell's coordinate of the grid, all
    other entries being kept. *)
Theorem set_cell_writes_candidate (g : SudokuSolver) (c : Cell) :
  standard_board g ->
  py_index (solve_puzzle g) (backtrack_coord g) = Ok c ->
  0 <= row c <= 8 -> 0 <= column c <= 8 ->
  (solved c = true -> set_cell g = Ok (backtrack_coord g, g)) /\
  (solved c = false -> possibilities c = [] -> set_cell g = Raise IndexError) /\
  (solved c = false -> 0 <= current_index c < len (possibilities c) ->
   exists v g',
     py_index (possibilities c) (current_index c) = Ok v /\
     set_cell g = Ok (backtrack_coord g, g') /\
     py_index (solve_puzzle g') (backtrack_coord g) = Ok (with_number c v) /\
     backtrack_coord g' = backtrack_coord g /\
     puzzle g' = grid_set (puzzle g) (Z.to_nat (row c)) (Z.to_nat (column c)) v /\
     entry (puzzle g') (Z.to_nat (row c)) (Z.to_nat (column c)) = v /\
     (forall i j, (i, j) <> (Z.to_nat (row c), Z.to_nat (column c)) ->
                  entry (puzzle g') i j = entry (puzzle g) i j)).
Proof.
  intros Hstd Hc Hr Hcol. unfold set_cell, on_cell. rewrite Hc. cbn [bind].
  split; [|split].
  - intros Hs. rewrite (set_number_fixed c g Hs). cbn [bind].
    rewrite (store_cell_same g _ c Hc). reflexivity.
  - intros Hs Hp. unfold set_number. rewrite Hs, Hp. cbn [negb].
    rewrite py_index_nil. reflexivity.
  - intros Hs Hi.
    rewrite (set_number_open c g Hstd Hr Hcol Hs Hi). cbn [bind].
    set (v := nth (Z.to_nat (current_index c)) (possibilities c) 0).
    unfold store_cell. cbn [solve_puzzle with_puzzle].
    rewrite (py_setitem_of_index _ _ c _ Hc). cbn [bind].
    exists v. eexists. split; [apply py_index_nth; exact Hi|].
    split; [reflexivity|].
    cbn [solve_puzzle puzzle backtrack_coord with_solve_puzzle with_puzzle].
    split; [apply (py_index_update_eq _ _ c); exact Hc|].
    split; [reflexivity|]. split; [reflexivity|].
    destruct Hstd as [Hsq _].
    split.
    + apply entry_grid_set_eq.
      * destruct Hsq as [Hl _]. lia.
      * pose proof (square_row_len 9 (puzzle g) (Z.to_nat (row c)) Hsq ltac:(lia)) as Hl.
        unfold len in Hl. lia.
    + intros i j Hne. apply entry_grid_set_neq. congruence.
Qed.

Lemma set_cell_writes_candidate_witness :
  (solved (mkCell false 0 [2; 4] 0 2 0) = true ->
   set_cell (with_backtrack_coord easy_start 2)
   = Ok (backtrack_coord (with_backtrack_coord easy_start 2),
         with_backtrack_coord easy_start 2)) /\
  (solved (mkCell false 0 [2; 4] 0 2 0) = false ->
   possibilities (mkCell false 0 [2; 4] 0 2 0) = [] ->
   set_cell (with_backtrack_coord easy_start 2) = Raise IndexError) /\
  (solved (mkCell false 0 [2; 4] 0 2 0) = false ->
   0 <= current_index (mkCell false 0 [2; 4] 0 2 0)
   < len (possibilities (mkCell false 0 [2; 4] 0 2 0)) ->
   exists v g',
     py_index (possibilities (mkCell false 0 [2; 4] 0 2 0))
              (current_index (mkCell false 0 [2; 4] 0 2 0)) = Ok v /\
     set_cell (with_backtrack_coord easy_start 2)
     = Ok (backtrack_coord (with_backtrack_coord easy_start 2), g') /\
     py_index (solve_puzzle g') (backtrack_coord (with_backtrack_coord easy_start 2))
     = Ok (with_number (mkCell false 0 [2; 4] 0 2 0) v) /\
     backtrack_coord g' = backtrack_coord (with_backtrack_coord easy_start 2) /\
     puzzle g' = grid_set (puzzle (with_backtrack_coord easy_start 2))
                          (Z.to_nat (row (mkCell false 0 [2; 4] 0 2 0)))
                          (Z.to_nat (column (mkCell false 0 [2; 4] 0 2 0))) v /\
     entry (puzzle g') (Z.to_nat (row (mkCell false 0 [2; 4] 0 2 0)))
           (Z.to_nat (column (mkCell false 0 [2; 4] 0 2 0))) = v /\
     (forall i j,
         (i, j) <> (Z.to_nat (row (mkCell false 0 [2; 4] 0 2 0)),
                    Z.to_nat (column (mkCell false 0 [2; 4] 0 2 0))) ->
         entry (puzzle g') i j = entry (puzzle (with_backtrack_coord easy_start 2)) i j)).
Proof.
  apply (set_cell_writes_candidate (with_backtrack_coord easy_start 2)
                                   (mkCell false 0 [2; 4] 0 2 0)).
  - split; [split; [reflexivity | repeat constructor] | reflexivity].
  - vm_compute. reflexivity.
  - cbn; lia.
  - cbn; lia.
Defined.

(** X11: [reset_cell] undoes [set_cell] on a fresh open cell.  On a standard
    board, when the cell at the cursor is open, has candidates, still has
    number 0 and candidate index 0, and its grid entry is 0, then [set_cell]
    followed by [reset_cell] on the same cell gives back the state it started
    from. *)
Theorem reset_cell_undoes_set_cell (g : SudokuSolver) (c : Cell) :
  standard_board g ->
  py_index (solve_puzzle g) (backtrack_coord g) = Ok c ->
  0 <= row c <= 8 -> 0 <= column c <= 8 ->
  solved c = false -> possibilities c <> [] ->
  number c = 0 -> current_index c = 0 ->
  entry (puzzle g) (Z.to_nat (row c)) (Z.to_nat (column c)) = 0 ->
  exists g1 v,
    py_index (possibilities c) 0 = Ok v /\
    set_cell g = Ok (backtrack_coord g, g1) /\
    entry (puzzle g1) (Z.to_nat (row c)) (Z.to_nat (column c)) = v /\
    reset_cell g1 (backtrack_coord g) = Ok g.
Proof.
  intros Hstd Hc Hr Hcol Hs Hp Hn Hi He.
  assert (Hlen : 0 <= current_index c < len (possibilities c)).
  { rewrite Hi. destruct (possibilities c); [congruence|].
    unfold len. cbn [length]. lia. }
  pose proof (set_number_open c g Hstd Hr Hcol Hs Hlen) as Hset.
  pose proof (py_index_nth (possibilities c) (current_index c) 0 Hlen) as Hv.
  set (v := nth (Z.to_nat (current_index c)) (possibilities c) 0) in *.
  set (i := Z.to_nat (row c)) in *. set (j := Z.to_nat (column c)) in *.
  set (n := Z.to_nat (norm_index (solve_puzzle g) (backtrack_coord g))).
  pose proof (py_index_Ok _ _ _ Hc) as [Hrange Hnth]. fold n in Hnth.
  destruct Hstd as [Hsq Hbs].
  assert (Hi9 : (i < length (puzzle g))%nat) by (destruct Hsq as [Hl _]; subst i; lia).
  assert (Hj9 : (j < length (nth i (puzzle g) []))%nat).
  { pose proof (square_row_len 9 (puzzle g) i Hsq ltac:(subst i; lia)) as Hl.
    unfold len in Hl. subst j. lia. }
  exists (with_solve_puzzle (with_puzzle g (grid_set (puzzle g) i j v))
                            (update (solve_puzzle g) n (with_number c v))), v.
  split; [rewrite <- Hi; exact Hv|]. split; [|split].
  - unfold set_cell, on_cell. rewrite Hc. cbn [bind]. rewrite Hset. cbn [bind].
    unfold store_cell. cbn [solve_puzzle with_puzzle].
    rewrite (py_setitem_of_index _ _ c _ Hc). reflexivity.
  - cbn [puzzle with_solve_puzzle with_puzzle].
    apply entry_grid_set_eq; assumption.
  - unfold reset_cell. cbn [solve_puzzle with_solve_puzzle with_puzzle].
    rewrite (py_index_update_eq _ _ c _ Hc). cbn [bind].
    assert (Ec : with_number (with_current_index (with_number c v) 0) 0 = c).
    { destruct c as [s nb ps r cl ix]. cbn in Hn, Hi. subst nb ix. reflexivity. }
    rewrite Ec. unfold store_cell.
    cbn [solve_puzzle with_solve_puzzle with_puzzle].
    rewrite (py_setitem_of_index _ _ (with_number c v));
      [|apply (py_index_update_eq _ _ c); exact Hc].
    cbn [bind]. rewrite norm_index_update. fold n.
    rewrite update_update, (update_same _ _ _ Hnth).
    rewrite puzzle_set_Ok;
      cbn [puzzle with_solve_puzzle with_puzzle];
      [|rewrite grid_set_len; destruct Hsq as [Hl _]; unfold len; lia
       |fold i; rewrite grid_set_row_len;
        rewrite (square_row_len 9 (puzzle g) i Hsq) by (subst i; lia); lia].
    fold i j. rewrite grid_set_twice. rewrite <- He. fold i j.
    rewrite grid_set_same by assumption.
    destruct g; reflexivity.
Qed.

Lemma reset_cell_undoes_set_cell_witness :
  exists g1 v,
    py_index (possibilities (mkCell false 0 [2; 4] 0 2 0)) 0 = Ok v /\
    set_cell (with_backtrack_coord easy_start 2)
    = Ok (backtrack_coord (with_backtrack_coord easy_start 2), g1) /\
    entry (puzzle g1) (Z.to_nat (row (mkCell false 0 [2; 4] 0 2 0)))
          (Z.to_nat (column (mkCell false 0 [2; 4] 0 2 0))) = v /\
    reset_cell g1 (backtrack_coord (with_backtrack_coord easy_start 2))
    = Ok (with_backtrack_coord easy_start 2).
Proof.
  apply (reset_cell_undoes_set_cell (with_backtrack_coord easy_start 2)
                                    (mkCell false 0 [2; 4] 0 2 0)).
  - split; [split; [reflexivity | repeat constructor] | reflexivity].
  - vm_compute. reflexivity.
  - cbn; lia.
  - cbn; lia.
  - reflexivity.
  - discriminate.
  - reflexivity.
  - reflexivity.
  - reflexivity.
Defined.




(** ** A round of the main loop, taken apart *)

(** One round returns: [move_forward] stops at some [k1]; the cell there is
    assigned and advanced ([g3]); then the cursor steps to [k1 + 1] or the
    search retreats from [g3]. *)
Lemma solve_step_anatomy (g g' : SudokuSolver) :
  solve_step g = Ok g' -> well_formed g ->
  exists k1 c c3 g3,
    move_forward g = Ok (with_backtrack_coord g k1) /\
    backtrack_coord g <= k1 /\
    (forall i, backtrack_coord g <= i < k1 -> solved_at (solve_puzzle g) i true) /\
    py_index (solve_puzzle g) k1 = Ok c /\
    static c3 = static c /\
    solve_puzzle g3
    = update (solve_puzzle g) (Z.to_nat (norm_index (solve_puzzle g) k1)) c3 /\
    box_size g3 = box_size g /\
    backtrack_coord g3 = k1 /\
    well_formed g3 /\
    ((solved c = true /\ puzzle g3 = puzzle g) \/ wrote c c3 (puzzle g) (puzzle g3)) /\
    ((is_valid c3 g3 = Ok true /\ g' = with_backtrack_coord g3 (k1 + 1)) \/
     (is_valid c3 g3 = Ok false /\ retreat_effect g3 g')).
Proof.
  intros Hstep W. pose proof W as [Hidx [Hco [Hnd Hbs]]].
  unfold solve_step in Hstep.
  apply bind_Ok in Hstep. destruct Hstep as [g1 [Hmove Hstep]].
  apply bind_Ok in Hstep. destruct Hstep as [[k g2] [Hset Hstep]].
  apply bind_Ok in Hstep. destruct Hstep as [g3 [Hinc Hchange]].
  pose proof (move_forward_spec g) as Hm. rewrite Hmove in Hm.
  destruct Hm as [k1 [Eg1 [Hk01 [Hskip _]]]]. subst g1.
  destruct (cell_phase _ _ _ _ Hset Hinc Hidx Hco)
    as [Ek [c [c3 [Hc [Hst [Hi3 [Ec3 [Eb3 [Ek3 [Hp3 [b [Hb Hlast]]]]]]]]]]]].
  cbn [solve_puzzle box_size backtrack_coord puzzle with_backtrack_coord] in *.
  subst k.
  pose proof (py_index_Ok _ _ _ Hc) as [Hrange Hnth].
  assert (Hstat3 : map static (solve_puzzle g3) = map static (solve_puzzle g)).
  { rewrite Ec3. apply (map_update static _ _ c); assumption. }
  assert (Hc3 : py_index (solve_puzzle g3) k1 = Ok c3).
  { rewrite Ec3. apply (py_index_update_eq _ _ c). exact Hc. }
  assert (W3 : well_formed g3).
  { apply (well_formed_static g); auto.
    rewrite Ec3. apply Forall_update; assumption. }
  exists k1, c, c3, g3.
  do 9 (split; [first [assumption | reflexivity]|]).
  split; [exact Hp3|].
  unfold change_cells in Hchange. rewrite Hc3 in Hchange. cbn [bind] in Hchange.
  rewrite Hb in Hchange. cbn [bind] in Hchange.
  destruct b.
  - left. split; [exact Hb|]. inversion Hchange. rewrite Ek3. reflexivity.
  - right. split; [exact Hb|].
    unfold decrement_cell in Hchange. rewrite <- Ek3 in Hchange.
    destruct W3 as [Hidx3 [Hco3 _]].
    apply (decrement_cell_loop_effect _ _ _ Hchange Hidx3 Hco3).
Qed.

Lemma cleared_entry (p p' : list (list Z)) (i j : nat) :
  cleared p p' -> entry p' i j = entry p i j \/ entry p' i j = 0.
Proof.
  intros R5. unfold cleared in R5. unfold entry.
  destruct (Nat.lt_ge_cases i (length p)) as [Hi|Hi].
  - destruct (nth_error p i) as [r|] eqn:Er; [|apply nth_error_None in Er; lia].
    destruct (Forall2_nth_error_l _ _ _ R5 _ _ Er) as [r' [Er' Hrr]].
    rewrite (nth_error_nth _ _ [] Er), (nth_error_nth _ _ [] Er').
    destruct (Nat.lt_ge_cases j (length r)) as [Hj|Hj].
    + destruct (nth_error r j) as [x|] eqn:Ex; [|apply nth_error_None in Ex; lia].
      destruct (Forall2_nth_error_l _ _ _ Hrr _ _ Ex) as [x' [Ex' Hf]].
      rewrite (nth_error_nth _ _ 0 Ex), (nth_error_nth _ _ 0 Ex').
      destruct Hf as [Hf|Hf]; [left; exact Hf | right; exact Hf].
    + right. apply nth_overflow. rewrite <- (Forall2_length Hrr). exact Hj.
  - right. rewrite (nth_overflow p') by (rewrite <- (Forall2_length R5); exact Hi).
    destruct j; reflexivity.
Qed.

Lemma cleared_square (n : nat) (p p' : list (list Z)) :
  cleared p p' -> square n p -> square n p'.
Proof.
  intros Hc [Hl Hrows]. split; [rewrite <- (Forall2_length Hc); exact Hl|].
  apply Forall_forall. intros r' Hr'.
  destruct (Forall2_In_r _ _ _ Hc r' Hr') as [r [Hr Hrr]].
  rewrite Forall_forall in Hrows. rewrite <- (Forall2_length Hrr). apply Hrows. exact Hr.
Qed.

Lemma wrote_candidates (c c3 : Cell) (p p3 : list (list Z)) :
  static c3 = static c -> wrote c c3 p p3 -> possibilities c <> [].
Proof.
  intros Hst [_ [v [_ [_ [Hv _]]]]] Hnil. inversion Hst as [[S1 S2 S3 S4]].
  rewrite S2, Hnil, py_index_nil in Hv. discriminate.
Qed.

Lemma retreat_effect_box (g g' : SudokuSolver) :
  retreat_effect g g' ->
  box_size g' = box_size g /\ backtrack_coord g' <= backtrack_coord g /\
  cleared (puzzle g) (puzzle g') /\
  map static (solve_puzzle g') = map static (solve_puzzle g).
Proof. intros [R1 [R2 [R3 [R4 [R5 _]]]]]. auto. Qed.

(** A round leaves the cursor at most one position after the cell it worked
    on, and that cell, when open, has candidates. *)
Lemma solve_step_cursor (g g' : SudokuSolver) :
  solve_step g = Ok g' -> well_formed g ->
  exists k1 c,
    move_forward g = Ok (with_backtrack_coord g k1) /\
    backtrack_coord g <= k1 /\
    (forall i, backtrack_coord g <= i < k1 -> solved_at (solve_puzzle g) i true) /\
    py_index (solve_puzzle g) k1 = Ok c /\
    (solved c = false -> possibilities c <> []) /\
    backtrack_coord g' <= k1 + 1 /\
    box_size g' = box_size g.
Proof.
  intros Hstep W.
  destruct (solve_step_anatomy g g' Hstep W)
    as [k1 [c [c3 [g3 [Hm [Hk [Hskip [Hc [Hst [Ec3 [Eb3 [Ek3 [W3 [Hp3 Hend]]]]]]]]]]]]]].
  exists k1, c. do 4 (split; [assumption|]). split; [|split].
  - intros Hs. destruct Hp3 as [[Hs' _]|Hw]; [congruence|].
    apply (wrote_candidates c c3 _ _ Hst Hw).
  - destruct Hend as [[_ ->]|[_ Hr]].
    + cbn [backtrack_coord with_backtrack_coord]. lia.
    + apply retreat_effect_box in Hr. lia.
  - destruct Hend as [[_ ->]|[_ Hr]].
    + exact Eb3.
    + apply retreat_effect_box in Hr. destruct Hr as [Hr _]. congruence.
Qed.

(** A round changes an entry of the grid only by clearing it or at the
    coordinate of an open cell, and keeps the shape of the grid. *)
Lemma solve_step_entries (g g' : SudokuSolver) :
  solve_step g = Ok g' -> well_formed g ->
  (forall i j,
      entry (puzzle g') i j = entry (puzzle g) i j \/
      entry (puzzle g') i j = 0 \/
      exists n c, nth_error (solve_puzzle g) n = Some c /\
                  row c = Z.of_nat i /\ column c = Z.of_nat j /\ solved c = false) /\
  (forall n, square n (puzzle g) -> square n (puzzle g')).
Proof.
  intros Hstep W.
  destruct (solve_step_anatomy g g' Hstep W)
    as [k1 [c [c3 [g3 [Hm [Hk [Hskip [Hc [Hst [Ec3 [Eb3 [Ek3 [W3 [Hp3 Hend]]]]]]]]]]]]]].
  destruct W as [_ [Hco _]].
  destruct (coords_nonneg _ _ _ Hco Hc) as [Hr0 Hc0].
  pose proof (py_index_Ok _ _ _ Hc) as [_ Hnth].
  assert (H3 : forall i j,
             entry (puzzle g3) i j = entry (puzzle g) i j \/
             exists n c, nth_error (solve_puzzle g) n = Some c /\
                         row c = Z.of_nat i /\ column c = Z.of_nat j /\ solved c = false).
  { intros i j. destruct Hp3 as [[_ Ep]|[Hs [v [Ep _]]]]; [left; rewrite Ep; reflexivity|].
    destruct (Nat.eq_dec (Z.to_nat (row c)) i) as [Ei|Ei];
      [destruct (Nat.eq_dec (Z.to_nat (column c)) j) as [Ej|Ej]|].
    - right. eexists _, c. split; [exact Hnth|]. split; [lia|]. split; [lia | exact Hs].
    - left. rewrite Ep. apply entry_grid_set_neq. congruence.
    - left. rewrite Ep. apply entry_grid_set_neq. congruence. }
  assert (S3 : forall n, square n (puzzle g) -> square n (puzzle g3)).
  { intros n Hsq. destruct Hp3 as [[_ Ep]|[Hs [v [Ep _]]]]; rewrite Ep;
      [exact Hsq | apply grid_set_square; exact Hsq]. }
  destruct Hend as [[_ ->]|[_ Hr]].
  - cbn [puzzle with_backtrack_coord]. split; [|exact S3].
    intros i j. destruct (H3 i j) as [E|E]; auto.
  - apply retreat_effect_box in Hr. destruct Hr as [_ [_ [Hcl _]]]. split.
    + intros i j. destruct (cleared_entry _ _ i j Hcl) as [E|E]; [|right; left; exact E].
      rewrite E. destruct (H3 i j) as [E3|E3]; auto.
    + intros n Hsq. apply (cleared_square n _ _ Hcl). apply S3. exact Hsq.
Qed.

(** ** Invariants of the run *)

Lemma reachable_static (p : list (list Z)) (g0 g : SudokuSolver) :
  initialize_board (SudokuSolver_init p) = Ok g0 -> reachable p g ->
  map static (solve_puzzle g) = map static (solve_puzzle g0) /\
  box_size g = box_size g0.
Proof.
  intros H0 Hr. induction Hr as [g Hi|g g' Hr IH Hk Hstep].
  - rewrite Hi in H0. inversion H0. auto.
  - pose proof (reachable_well_formed p g Hr) as W.
    destruct (solve_step_effect g g' Hstep W) as [_ [_ [_ [_ Hs]]]].
    destruct (solve_step_cursor g g' Hstep W) as [k1 [c [_ [_ [_ [_ [_ [_ Hb]]]]]]]].
    destruct IH as [IH1 IH2]. split; congruence.
Qed.

Lemma reachable_shape (n : nat) (p : list (list Z)) (g : SudokuSolver) :
  square n p -> reachable p g -> square n (puzzle g).
Proof.
  intros Hsq Hr. induction Hr as [g Hi|g g' Hr IH Hk Hstep].
  - destruct (initial_state p g Hi) as [Ep _]. rewrite Ep. exact Hsq.
  - pose proof (reachable_well_formed p g Hr) as W.
    destruct (solve_step_entries g g' Hstep W) as [_ Hs]. apply Hs. exact IH.
Qed.

Lemma static_len (cs cs' : list Cell) :
  map static cs = map static cs' -> len cs = len cs'.
Proof.
  intros H. apply (f_equal (@length _)) in H. rewrite !length_map in H.
  unfold len. rewrite H. reflexivity.
Qed.

Lemma reachable_cursor_bound (p : list (list Z)) (g : SudokuSolver) :
  reachable p g -> backtrack_coord g <= len (solve_puzzle g).
Proof.
  intros Hr. induction Hr as [g Hi|g g' Hr IH Hk Hstep].
  - destruct (initial_state p g Hi) as [_ [Ek _]]. rewrite Ek. apply len_nonneg.
  - pose proof (reachable_well_formed p g Hr) as W.
    destruct (solve_step_effect g g' Hstep W) as [_ [_ [_ [_ Hs]]]].
    destruct (solve_step_cursor g g' Hstep W) as [k1 [c [Hm [_ [_ [_ [_ [Hk1 _]]]]]]]].
    pose proof (move_forward_spec g) as Hspec. rewrite Hm in Hspec.
    destruct Hspec as [k' [Ek' [_ [_ [_ Hmax]]]]].
    apply (f_equal backtrack_coord) in Ek'.
    cbn [backtrack_coord with_backtrack_coord] in Ek'. subst k'.
    specialize (Hmax Hk). rewrite (static_len _ _ Hs). lia.
Qed.

Lemma static_nth_error (cs cs' : list Cell) (n : nat) (c' : Cell) :
  map static cs' = map static cs -> nth_error cs' n = Some c' ->
  exists c, nth_error cs n = Some c /\ static c = static c'.
Proof.
  intros Hs Hn. apply map_eq_Forall2 in Hs.
  destruct (Forall2_nth_error_l _ _ _ Hs _ _ Hn) as [c [Hc E]].
  exists c. split; [exact Hc | symmetry; exact E].
Qed.

(** The grid entry of a fixed cell is the entry of the input, or 0. *)
Lemma reachable_fixed_entries (p : list (list Z)) (g : SudokuSolver) :
  reachable p g ->
  forall n c, nth_error (solve_puzzle g) n = Some c -> solved c = true ->
              entry (puzzle g) (Z.to_nat (row c)) (Z.to_nat (column c))
              = entry p (Z.to_nat (row c)) (Z.to_nat (column c)) \/
              entry (puzzle g) (Z.to_nat (row c)) (Z.to_nat (column c)) = 0.
Proof.
  intros Hr. induction Hr as [g Hi|g g' Hr IH Hk Hstep]; intros n c' Hn Hs.
  - destruct (initial_state p g Hi) as [Ep _]. rewrite Ep. left. reflexivity.
  - pose proof (reachable_well_formed p g Hr) as W.
    destruct (solve_step_effect g g' Hstep W) as [_ [_ [_ [_ Hst]]]].
    destruct (solve_step_entries g g' Hstep W) as [He _].
    destruct (static_nth_error _ _ _ _ Hst Hn) as [c [Hc Ec]].
    assert (S1 : solved c = solved c') by (apply (f_equal (fun t => fst (fst (fst t)))) in Ec; exact Ec).
    assert (S3 : row c = row c') by (apply (f_equal (fun t => snd (fst t))) in Ec; exact Ec).
    assert (S4 : column c = column c') by (apply (f_equal snd) in Ec; exact Ec).
    rewrite <- S3, <- S4.
    destruct (He (Z.to_nat (row c)) (Z.to_nat (column c))) as [E|[E|E]].
    + rewrite E. apply (IH n c Hc). congruence.
    + right. exact E.
    + exfalso. destruct E as [m [x [Hx [Rx [Cx Sx]]]]].
      destruct W as [_ [Hco [Hnd _]]].
      destruct (Nat.eq_dec n m) as [->|Hne]; [congruence|].
      apply (coords_distinct _ _ _ _ _ Hnd Hco Hc Hx Hne).
      rewrite Rx, Cx, !Nat2Z.id. reflexivity.
Qed.

Lemma run_solve_exit (fuel : nat) :
  forall g g', run_solve fuel g = Ok g' ->
               len (solve_puzzle g') - 1 < backtrack_coord g'.
Proof.
  induction fuel as [|fuel IH]; intros g g' H; cbn [run_solve] in H;
    destruct (backtrack_coord g <=? len (solve_puzzle g) - 1) eqn:E;
    try discriminate.
  1, 3: inversion H; subst g'; apply Z.leb_gt in E; lia.
  apply bind_Ok in H. destruct H as [g1 [_ H]]. apply (IH _ _ H).
Qed.

(** ** The candidates of a cell are digits *)

Lemma Cell_init_candidates
      (column_number row_number num : Z) (game game' : SudokuSolver) (cell : Cell) :
  Cell_init column_number row_number num game = Ok (cell, game') ->
  Forall (fun v => 1 <= v <= 9) (possibilities cell).
Proof.
  unfold Cell_init. destruct (0 <? num); cbn [negb solved].
  - intros H. inversion H. constructor.
  - unfold find_possibilities. cbn [row column possibilities]. intros H.
    apply bind_Ok in H. destruct H as [r [_ H]].
    apply bind_Ok in H. destruct H as [c [_ H]].
    apply bind_Ok in H. destruct H as [b [_ H]].
    rewrite fold_remove, handle_one_possibility_game in H.
    assert (Hcand : Forall (fun v => 1 <= v <= 9)
                           (remaining (r ++ c ++ b) (py_range 1 10))).
    { apply Forall_forall. intros v Hv. apply remaining_In in Hv.
      destruct Hv as [Hv _]. apply in_py_range in Hv. lia. }
    remember (remaining (r ++ c ++ b) (py_range 1 10)) as cand eqn:Ecand.
    clear Ecand.
    cbn [possibilities with_possibilities] in H.
    destruct (len cand =? 1); injection H as Hc Hg; subst cell; exact Hcand.
Qed.

Lemma foldM_invariant {A S : Type} (f : S -> A -> outcome S) (I : S -> Prop)
      (xs : list A) :
  (forall s x s', I s -> f s x = Ok s' -> I s') ->
  forall s s', I s -> foldM f xs s = Ok s' -> I s'.
Proof.
  intros Hf. induction xs as [|x t IH]; intros s s' Hs H; cbn [foldM] in H.
  - inversion H; subst. exact Hs.
  - apply bind_Ok in H. destruct H as [s1 [H1 H]].
    apply (IH s1 s'); [apply (Hf s x); assumption | exact H].
Qed.

Lemma initialize_board_candidates (g g' : SudokuSolver) :
  initialize_board g = Ok g' ->
  Forall (fun c => Forall (fun v => 1 <= v <= 9) (possibilities c)) (solve_puzzle g) ->
  Forall (fun c => Forall (fun v => 1 <= v <= 9) (possibilities c)) (solve_puzzle g').
Proof.
  intros H H0. unfold initialize_board in H.
  set (I := fun s : SudokuSolver =>
              Forall (fun c => Forall (fun v => 1 <= v <= 9) (possibilities c))
                     (solve_puzzle s)).
  apply (foldM_invariant _ I _) in H; [exact H | | exact H0].
  intros s r s' Hs Hrow.
  apply bind_Ok in Hrow. destruct Hrow as [x [_ Hrow]].
  apply (foldM_invariant _ I _) in Hrow; [exact Hrow | | exact Hs].
  unfold I.
  intros s1 c s2 Hs1 Hcell. unfold initialize_cell in Hcell.
  apply bind_Ok in Hcell. destruct Hcell as [x1 [_ Hcell]].
  apply bind_Ok in Hcell. destruct Hcell as [item [_ Hcell]].
  apply bind_Ok in Hcell. destruct Hcell as [[cell g1] [Hinit Hcell]].
  inversion Hcell; subst s2. cbn [solve_puzzle with_solve_puzzle].
  pose proof (Cell_init_candidates _ _ _ _ _ _ Hinit) as Hcand.
  apply Cell_init_game in Hinit. destruct Hinit as [-> _].
  apply Forall_app. split; [exact Hs1 | constructor; [exact Hcand | constructor]].
Qed.

Lemma reachable_candidates (p : list (list Z)) (g : SudokuSolver) (n : nat) (c : Cell) :
  reachable p g -> nth_error (solve_puzzle g) n = Some c ->
  Forall (fun v => 1 <= v <= 9) (possibilities c).
Proof.
  intros Hr Hn.
  assert (H0 : exists g0, initialize_board (SudokuSolver_init p) = Ok g0).
  { clear Hn. induction Hr as [g Hi|g g' Hr IH _ _]; [exists g; exact Hi | exact IH]. }
  destruct H0 as [g0 H0].
  destruct (reachable_static p g0 g H0 Hr) as [Hs _].
  destruct (static_nth_error _ _ _ _ Hs Hn) as [c0 [Hc0 Ec]].
  pose proof (initialize_board_candidates _ _ H0 (Forall_nil _)) as Hall.
  rewrite Forall_forall in Hall.
  assert (E : possibilities c0 = possibilities c)
    by (apply (f_equal (fun t => snd (fst (fst t)))) in Ec; exact Ec).
  rewrite <- E. apply Hall. apply (nth_error_In _ _ Hc0).
Qed.

(** ** The state in which the main loop ends *)

Lemma search_below (f : nat -> bool) (n : nat) :
  (exists k, (k < n)%nat /\ f k = false) \/ (forall k, (k < n)%nat -> f k = true).
Proof.
  induction n as [|n IH].
  - right. intros k Hk. lia.
  - destruct IH as [[k [Hk Hf]]|Hall].
    + left. exists k. split; [lia | exact Hf].
    + destruct (f n) eqn:E.
      * right. intros k Hk. destruct (Nat.eq_dec k n) as [->|Hne]; [exact E|].
        apply Hall. lia.
      * left. exists n. split; [lia | exact E].
Qed.

Lemma sub_block_ext (p p' : list (list Z)) (top left size : nat) :
  (forall a b, (a < size)%nat -> (b < size)%nat ->
               entry p' (top + a) (left + b) = entry p (top + a) (left + b)) ->
  sub_block p' top left size = sub_block p top left size.
Proof.
  intros H. unfold sub_block. apply flat_map_ext_in. intros a Ha.
  apply in_seq in Ha. apply map_ext_in. intros b Hb. apply in_seq in Hb.
  apply H; lia.
Qed.

Lemma box_start_nat (i : nat) : Z.to_nat (Z.of_nat i / 3 * 3) = (3 * (i / 3))%nat.
Proof.
  assert (E : Z.of_nat i / 3 = Z.of_nat (i / 3)) by (rewrite Nat2Z.inj_div; reflexivity).
  rewrite E. lia.
Qed.

Lemma box_of_offset (b a : nat) : (a < 3)%nat -> ((3 * b + a) / 3 = b)%nat.
Proof.
  intros Ha. symmetry. apply (Nat.div_unique (3 * b + a) 3 b a); lia.
Qed.

Lemma offset_of_index (a b : nat) :
  (a < 3)%nat -> (b < 3)%nat ->
  ((3 * a + b) / 3 = a)%nat /\ ((3 * a + b) mod 3 = b)%nat.
Proof.
  intros Ha Hb.
  destruct a as [|[|[|a]]]; [| | |lia];
    (destruct b as [|[|[|b]]]; [| | |lia]); split; reflexivity.
Qed.

Section EndOfRun.

Variables (p : list (list Z)) (g0 g' : SudokuSolver).
Hypothesis Hsq : square 9 p.
Hypothesis Hdig : digit_grid p.
Hypothesis Hinit : initialize_board (SudokuSolver_init p) = Ok g0.
Hypothesis Hreach : reachable p g'.
Hypothesis Hexit : len (solve_puzzle g') - 1 < backtrack_coord g'.

Lemma final_standard : standard_board g'.
Proof.
  split; [apply (reachable_shape 9 p); assumption|].
  destruct (reachable_static p g0 g' Hinit Hreach) as [_ Hb]. rewrite Hb.
  destruct (board_layout p Hsq) as [g [Hg [_ [Hbs _]]]].
  assert (g = g0) by congruence. subst g. exact Hbs.
Qed.

Lemma final_cell (i j : nat) :
  (i < 9)%nat -> (j < 9)%nat ->
  exists c0 c',
    nth_error (solve_puzzle g0) (9 * i + j) = Some c0 /\
    nth_error (solve_puzzle g') (9 * i + j) = Some c' /\
    solved c' = solved c0 /\ possibilities c' = possibilities c0 /\
    row c' = Z.of_nat i /\ column c' = Z.of_nat j /\
    (0 < entry p i j -> solved c' = true /\ possibilities c' = []) /\
    (entry p i j <= 0 -> solved c' = (len (possibilities c') =? 1)).
Proof.
  intros Hi Hj.
  destruct (board_layout p Hsq) as [g [Hg [_ [_ [_ [_ Hcells]]]]]].
  assert (g = g0) by congruence. subst g.
  destruct (Hcells i j Hi Hj) as [c0 [Hc0 [Hr [Hc [_ [_ [Hclue Hempty]]]]]]].
  destruct (reachable_static p g0 g' Hinit Hreach) as [Hs _].
  symmetry in Hs.
  destruct (static_nth_error _ _ _ _ Hs Hc0) as [c' [Hc' Ec]].
  assert (S1 : solved c' = solved c0)
    by (apply (f_equal (fun t => fst (fst (fst t)))) in Ec; exact Ec).
  assert (S2 : possibilities c' = possibilities c0)
    by (apply (f_equal (fun t => snd (fst (fst t)))) in Ec; exact Ec).
  assert (S3 : row c' = row c0) by (apply (f_equal (fun t => snd (fst t))) in Ec; exact Ec).
  assert (S4 : column c' = column c0) by (apply (f_equal snd) in Ec; exact Ec).
  exists c0, c'. rewrite S1, S2, S3, S4. auto 10.
Qed.

Lemma final_fixed (i j : nat) :
  (i < 9)%nat -> (j < 9)%nat -> cell_fixed g' i j = true ->
  entry (puzzle g') i j = entry p i j.
Proof.
  intros Hi Hj Hf.
  destruct (final_cell i j Hi Hj) as [c0 [c' [_ [Hc' [_ [_ [Hr [Hc _]]]]]]]].
  unfold cell_fixed in Hf. rewrite Hc' in Hf.
  pose proof (reachable_fixed_entries p g' Hreach _ _ Hc' Hf) as He.
  rewrite Hr, Hc, !Nat2Z.id in He.
  pose proof (entry_nonneg p i j Hdig) as H0.
  destruct (Z.eq_dec (entry p i j) 0) as [E|Hne].
  - destruct He as [He|He]; congruence.
  - destruct (reachable_clues p g' Hreach) as [_ Hk]. apply Hk. lia.
Qed.

Lemma final_open (i j : nat) :
  (i < 9)%nat -> (j < 9)%nat -> cell_fixed g' i j = false ->
  exists c',
    nth_error (solve_puzzle g') (9 * i + j) = Some c' /\
    In (entry (puzzle g') i j) (possibilities c') /\
    1 <= entry (puzzle g') i j <= 9 /\
    check_area (nth i (puzzle g') []) = true /\
    check_area (map (fun r => nth j r 0) (puzzle g')) = true /\
    check_area (sub_block (puzzle g') (3 * (i / 3)) (3 * (j / 3)) 3) = true.
Proof.
  intros Hi Hj Hf.
  destruct (final_cell i j Hi Hj) as [c0 [c' [_ [Hc' [_ [_ [Hr [Hc _]]]]]]]].
  unfold cell_fixed in Hf. rewrite Hc' in Hf.
  exists c'. split; [exact Hc'|].
  assert (Hlt : Z.of_nat (9 * i + j) < backtrack_coord g').
  { pose proof (proj1 (nth_error_Some (solve_puzzle g') (9 * i + j))) as Hl.
    rewrite Hc' in Hl. specialize (Hl ltac:(discriminate)). unfold len in Hexit. lia. }
  destruct (reachable_settled p g' Hreach _ _ Hlt Hc') as [Hs|[Hv [Ha He]]];
    [congruence|].
  rewrite Hr, Hc, !Nat2Z.id in He.
  assert (Hin : In (entry (puzzle g') i j) (possibilities c')).
  { rewrite He. apply py_index_Ok in Ha. destruct Ha as [_ Ha].
    apply (nth_error_In _ _ Ha). }
  split; [exact Hin|]. split.
  - pose proof (reachable_candidates p g' _ _ Hreach Hc') as Hd.
    rewrite Forall_forall in Hd. apply Hd. exact Hin.
  - assert (Hr8 : 0 <= row c' <= 8) by lia.
    assert (Hc8 : 0 <= column c' <= 8) by lia.
    destruct (standard_units g' (row c') (column c') final_standard Hr8 Hc8)
      as [E1 [E2 E3]].
    rewrite (is_valid_Ok c' g' _ _ _ E1 E2 E3) in Hv. injection Hv as Hb.
    apply andb_prop in Hb. destruct Hb as [Hb H3].
    apply andb_prop in Hb. destruct Hb as [H1 H2].
    rewrite Hr, Hc, !Nat2Z.id in *.
    rewrite !box_start_nat in H3. auto.
Qed.

Lemma final_row_length (i : nat) :
  (i < 9)%nat -> length (nth i (puzzle g') []) = 9%nat /\ length (nth i p []) = 9%nat.
Proof.
  intros Hi. destruct final_standard as [Hsq' _].
  pose proof (square_row_len 9 _ i Hsq' Hi) as H1.
  pose proof (square_row_len 9 _ i Hsq Hi) as H2.
  unfold len in *. lia.
Qed.

Lemma final_row (i : nat) :
  (i < 9)%nat -> check_area (nth i p []) = true ->
  check_area (nth i (puzzle g') []) = true.
Proof.
  intros Hi H.
  destruct (search_below (cell_fixed g' i) 9) as [[j [Hj Hf]]|Hall].
  - destruct (final_open i j Hi Hj Hf) as [c' [_ [_ [_ [H1 _]]]]]. exact H1.
  - replace (nth i (puzzle g') []) with (nth i p []); [exact H|].
    destruct (final_row_length i Hi) as [L1 L2].
    apply (nth_ext _ _ 0 0); [congruence|].
    intros j Hj. symmetry. apply (final_fixed i j Hi); [lia|]. apply Hall. lia.
Qed.

Lemma final_column (j : nat) :
  (j < 9)%nat -> check_area (map (fun r => nth j r 0) p) = true ->
  check_area (map (fun r => nth j r 0) (puzzle g')) = true.
Proof.
  intros Hj H.
  destruct (search_below (fun i => cell_fixed g' i j) 9) as [[i [Hi Hf]]|Hall].
  - destruct (final_open i j Hi Hj Hf) as [c' [_ [_ [_ [_ [H2 _]]]]]]. exact H2.
  - replace (map (fun r => nth j r 0) (puzzle g')) with (map (fun r => nth j r 0) p);
      [exact H|].
    destruct final_standard as [[L1 _] _]. destruct Hsq as [L2 _].
    apply (nth_ext _ _ (nth j [] 0) (nth j [] 0)); [rewrite !length_map; congruence|].
    intros i Hi. rewrite length_map in Hi.
    rewrite (map_nth (fun r => nth j r 0) p []).
    rewrite (map_nth (fun r => nth j r 0) (puzzle g') []).
    symmetry. apply (final_fixed i j); [lia | exact Hj | apply Hall; lia].
Qed.

Lemma final_box (bi bj : nat) :
  (bi < 3)%nat -> (bj < 3)%nat ->
  check_area (sub_block p (3 * bi) (3 * bj) 3) = true ->
  check_area (sub_block (puzzle g') (3 * bi) (3 * bj) 3) = true.
Proof.
  intros Hbi Hbj H.
  destruct (search_below
              (fun k => cell_fixed g' (3 * bi + k / 3) (3 * bj + k mod 3)) 9)
    as [[k [Hk Hf]]|Hall].
  - assert (Ha : (k / 3 < 3)%nat) by (apply Nat.Div0.div_lt_upper_bound; lia).
    assert (Hb : (k mod 3 < 3)%nat) by (apply Nat.mod_upper_bound; lia).
    assert (Hi : (3 * bi + k / 3 < 9)%nat) by lia.
    assert (Hj : (3 * bj + k mod 3 < 9)%nat) by lia.
    destruct (final_open _ _ Hi Hj Hf) as [c' [_ [_ [_ [_ [_ H3]]]]]].
    rewrite (box_of_offset bi (k / 3) Ha), (box_of_offset bj (k mod 3) Hb) in H3.
    exact H3.
  - rewrite (sub_block_ext p (puzzle g')); [exact H|].
    intros a b Ha Hb.
    apply final_fixed; [lia | lia |].
    destruct (offset_of_index a b Ha Hb) as [E1 E2].
    specialize (Hall (3 * a + b)%nat ltac:(lia)). cbn beta in Hall.
    rewrite E1, E2 in Hall. exact Hall.
Qed.

End EndOfRun.

(** ** What [solve] returns *)

Lemma solve_end (fuel : nat) (p p' : list (list Z)) :
  solve fuel p = Ok p' ->
  exists g0 g',
    initialize_board (SudokuSolver_init p) = Ok g0 /\
    reachable p g' /\
    len (solve_puzzle g') - 1 < backtrack_coord g' /\
    puzzle g' = p'.
Proof.
  intros H. unfold solve in H.
  apply bind_Ok in H. destruct H as [g0 [Hi H]].
  apply bind_Ok in H. destruct H as [g' [Hrun H]]. inversion H.
  exists g0, g'. split; [exact Hi|]. split.
  - apply (run_solve_reachable p fuel g0 g'); [apply reach_start; exact Hi | exact Hrun].
  - split; [apply (run_solve_exit fuel g0 g' Hrun) | reflexivity].
Qed.

Lemma grid_of_entries (P : Z -> Prop) (p : list (list Z)) :
  square 9 p ->
  (forall i j, (i < 9)%nat -> (j < 9)%nat -> P (entry p i j)) ->
  Forall (Forall P) p.
Proof.
  intros Hsq H. apply Forall_forall. intros r Hr.
  destruct (In_nth _ _ [] Hr) as [i [Hi Er]].
  destruct Hsq as [Hl Hrows]. rewrite Forall_forall in Hrows.
  pose proof (Hrows r Hr) as Hlr. cbn beta in Hlr.
  apply Forall_forall. intros v Hv.
  destruct (In_nth _ _ 0 Hv) as [j [Hj Ev]].
  specialize (H i j ltac:(lia) ltac:(lia)). unfold entry in H.
  rewrite Er, Ev in H. exact H.
Qed.

Lemma filter_all {A : Type} (f : A -> bool) (l : list A) :
  Forall (fun x => f x = true) l -> filter f l = l.
Proof.
  induction 1 as [|x t Hx _ IH]; cbn [filter]; [reflexivity|].
  rewrite Hx, IH. reflexivity.
Qed.

(** The entries of the grid in which the main loop ends, cell by cell. *)
Lemma output_cell (p : list (list Z)) (g0 g' : SudokuSolver) (i j : nat) :
  square 9 p -> digit_grid p ->
  initialize_board (SudokuSolver_init p) = Ok g0 ->
  reachable p g' -> len (solve_puzzle g') - 1 < backtrack_coord g' ->
  (i < 9)%nat -> (j < 9)%nat ->
  exists c,
    nth_error (solve_puzzle g0) (9 * i + j) = Some c /\
    0 <= entry (puzzle g') i j <= 9 /\
    (entry p i j <> 0 -> entry (puzzle g') i j = entry p i j) /\
    (entry (puzzle g') i j = 0 <-> entry p i j = 0 /\ len (possibilities c) = 1) /\
    (entry p i j = 0 -> len (possibilities c) <> 1 ->
     In (entry (puzzle g') i j) (possibilities c)).
Proof.
  intros Hsq Hdig Hinit Hreach Hexit Hi Hj.
  destruct (final_cell p g0 g' Hsq Hinit Hreach i j Hi Hj)
    as [c0 [c' [Hc0 [Hc' [S1 [S2 [Hr [Hc [Hclue Hempty]]]]]]]]].
  exists c0. split; [exact Hc0|].
  pose proof (entry_nonneg p i j Hdig) as Hnn.
  assert (Hd : 0 <= entry p i j <= 9).
  { destruct Hsq as [Hl Hrows]. apply (entry_bounds p 0 9 i j Hdig); [lia|].
    pose proof (square_row_len 9 p i (conj Hl Hrows) Hi) as Hlr. unfold len in Hlr. lia. }
  rewrite <- S2.
  destruct (cell_fixed g' i j) eqn:Hf.
  - pose proof (final_fixed p g0 g' Hsq Hdig Hinit Hreach i j Hi Hj Hf) as He.
    assert (Hs : solved c' = true) by (unfold cell_fixed in Hf; rewrite Hc' in Hf; exact Hf).
    rewrite He. split; [exact Hd|]. split; [auto|]. split; [split|].
    + intros E. split; [exact E|]. rewrite Hempty in Hs by lia.
      apply Z.eqb_eq in Hs. exact Hs.
    + intros [E _]. exact E.
    + intros E Hne. rewrite Hempty in Hs by lia. apply Z.eqb_eq in Hs. contradiction.
  - destruct (final_open p g0 g' Hsq Hinit Hreach Hexit i j Hi Hj Hf)
      as [c2 [Hc2 [Hin [H19 _]]]].
    assert (c2 = c') by congruence. subst c2.
    assert (Hs : solved c' = false) by (unfold cell_fixed in Hf; rewrite Hc' in Hf; exact Hf).
    split; [lia|]. split; [|split; [split|]].
    + intros Hne. destruct (Hclue ltac:(lia)) as [Hs' _]. congruence.
    + intros E. lia.
    + intros [E E1]. rewrite Hempty in Hs by lia. apply Z.eqb_neq in Hs. contradiction.
    + intros _ _. exact Hin.
Qed.

Lemma output_units (p : list (list Z)) (g0 g' : SudokuSolver) :
  square 9 p -> digit_grid p -> duplicate_free p ->
  initialize_board (SudokuSolver_init p) = Ok g0 ->
  reachable p g' -> len (solve_puzzle g') - 1 < backtrack_coord g' ->
  duplicate_free (puzzle g').
Proof.
  intros Hsq Hdig [D1 [D2 D3]] Hinit Hreach Hexit. split; [|split].
  - intros i Hi. apply (final_row p g0 g'); auto.
  - intros j Hj. apply (final_column p g0 g'); auto.
  - intros i j Hi Hj. apply (final_box p g0 g'); auto.
Qed.

(** X13: what [solve] returns on a 9 x 9 grid of digits, entry by entry.
    The output is a 9 x 9 grid of digits.  A clue is kept.  An empty entry
    for which the constructor found exactly one candidate is still 0 in the
    output, and these are the only entries of the output that are 0; every
    other empty entry holds one of the candidates its cell was built with. *)
Theorem solve_output_entries (fuel : nat) (p p' : list (list Z)) :
  square 9 p -> digit_grid p -> solve fuel p = Ok p' ->
  square 9 p' /\ digit_grid p' /\
  exists g0,
    initialize_board (SudokuSolver_init p) = Ok g0 /\
    forall i j, (i < 9)%nat -> (j < 9)%nat ->
      exists c,
        nth_error (solve_puzzle g0) (9 * i + j) = Some c /\
        (entry p i j <> 0 -> entry p' i j = entry p i j) /\
        (entry p' i j = 0 <-> entry p i j = 0 /\ len (possibilities c) = 1) /\
        (entry p i j = 0 -> len (possibilities c) <> 1 ->
         In (entry p' i j) (possibilities c)).
Proof.
  intros Hsq Hdig H.
  destruct (solve_end fuel p p' H) as [g0 [g' [Hinit [Hreach [Hexit Ep]]]]].
  subst p'.
  assert (Hsq' : square 9 (puzzle g')) by (apply (reachable_shape 9 p); assumption).
  split; [exact Hsq'|]. split.
  - apply grid_of_entries; [exact Hsq'|]. intros i j Hi Hj.
    destruct (output_cell p g0 g' i j Hsq Hdig Hinit Hreach Hexit Hi Hj)
      as [c [_ [Hd _]]]. exact Hd.
  - exists g0. split; [exact Hinit|]. intros i j Hi Hj.
    destruct (output_cell p g0 g' i j Hsq Hdig Hinit Hreach Hexit Hi Hj)
      as [c [Hc [_ Hrest]]].
    exists c. split; [exact Hc | exact Hrest].
Qed.

Lemma solve_output_entries_witness :
  square 9 easy_result /\ digit_grid easy_result /\
  exists g0,
    initialize_board (SudokuSolver_init easy_puzzle) = Ok g0 /\
    forall i j, (i < 9)%nat -> (j < 9)%nat ->
      exists c,
        nth_error (solve_puzzle g0) (9 * i + j) = Some c /\
        (entry easy_puzzle i j <> 0 -> entry easy_result i j = entry easy_puzzle i j) /\
        (entry easy_result i j = 0 <->
         entry easy_puzzle i j = 0 /\ len (possibilities c) = 1) /\
        (entry easy_puzzle i j = 0 -> len (possibilities c) <> 1 ->
         In (entry easy_result i j) (possibilities c)).
Proof.
  apply (solve_output_entries 6 easy_puzzle easy_result).
  - split; [reflexivity | repeat constructor].
  - repeat constructor; lia.
  - vm_compute. reflexivity.
Defined.

Lemma duplicate_free_by_check (p : list (list Z)) :
  forallb (fun i => check_area (nth i p [])) (seq 0 9) = true ->
  forallb (fun j => check_area (map (fun r => nth j r 0) p)) (seq 0 9) = true ->
  forallb (fun i => forallb (fun j => check_area (sub_block p (3 * i) (3 * j) 3)) (seq 0 3))
          (seq 0 3) = true ->
  duplicate_free p.
Proof.
  intros H1 H2 H3. rewrite forallb_forall in H1, H2, H3. split; [|split].
  - intros i Hi. apply H1. apply in_seq. lia.
  - intros j Hj. apply H2. apply in_seq. lia.
  - intros i j Hi Hj. specialize (H3 i ltac:(apply in_seq; lia)).
    rewrite forallb_forall in H3. apply H3. apply in_seq. lia.
Qed.

(** X14: [solve] never creates a conflict.  When no row, column or box of a
    9 x 9 grid of digits holds a digit other than 0 twice, the same is true
    of the grid [solve] returns. *)
Theorem solve_keeps_units_duplicate_free (fuel : nat) (p p' : list (list Z)) :
  square 9 p -> digit_grid p -> duplicate_free p -> solve fuel p = Ok p' ->
  duplicate_free p'.
Proof.
  intros Hsq Hdig Hdf H.
  destruct (solve_end fuel p p' H) as [g0 [g' [Hinit [Hreach [Hexit Ep]]]]].
  subst p'. apply (output_units p g0 g'); assumption.
Qed.

Lemma solve_keeps_units_duplicate_free_witness : duplicate_free easy_result.
Proof.
  apply (solve_keeps_units_duplicate_free 6 easy_puzzle easy_result).
  - split; [reflexivity | repeat constructor].
  - repeat constructor; lia.
  - apply duplicate_free_by_check; vm_compute; reflexivity.
  - vm_compute. reflexivity.
Defined.

Lemma digits_NoDup (l : list Z) :
  Forall (fun v => 1 <= v <= 9) l -> check_area l = true -> NoDup l.
Proof.
  intros Hd Hc. apply check_area_NoDup in Hc. rewrite filter_all in Hc; [exact Hc|].
  eapply Forall_impl; [|exact Hd]. intros v Hv. cbn beta in Hv.
  apply negb_true_iff. apply Z.eqb_neq. lia.
Qed.

Lemma no_single_candidate_by_check (cells : list Cell) :
  forallb (fun c => negb (len (possibilities c) =? 1)) cells = true ->
  Forall (fun c => len (possibilities c) <> 1) cells.
Proof.
  intros H. rewrite forallb_forall in H. apply Forall_forall. intros c Hc.
  specialize (H c Hc). apply negb_true_iff in H. apply Z.eqb_neq in H. exact H.
Qed.

(** X15: when the grid returned is complete.  For a 9 x 9 grid of digits
    without a conflict, for which the constructor leaves no cell with exactly
    one candidate, the grid [solve] returns is a fully solved grid (every
    entry one of 1..9, no digit twice in a row, a column or a box) that keeps
    every clue of the input. *)
Theorem solve_completes_grid (fuel : nat) (p p' : list (list Z)) (g0 : SudokuSolver) :
  square 9 p -> digit_grid p -> duplicate_free p ->
  initialize_board (SudokuSolver_init p) = Ok g0 ->
  Forall (fun c => len (possibilities c) <> 1) (solve_puzzle g0) ->
  solve fuel p = Ok p' ->
  complete_grid p' /\
  forall i j, (i < 9)%nat -> (j < 9)%nat -> entry p i j <> 0 -> entry p' i j = entry p i j.
Proof.
  intros Hsq Hdig Hdf Hinit Hone H.
  destruct (solve_end fuel p p' H) as [g1 [g' [Hinit' [Hreach [Hexit Ep]]]]].
  assert (g1 = g0) by congruence. subst g1 p'. clear Hinit'.
  assert (Hsq' : square 9 (puzzle g')) by (apply (reachable_shape 9 p); assumption).
  destruct (output_units p g0 g' Hsq Hdig Hdf Hinit Hreach Hexit) as [D1 [D2 D3]].
  assert (He : forall i j, (i < 9)%nat -> (j < 9)%nat -> 1 <= entry (puzzle g') i j <= 9).
  { intros i j Hi Hj.
    destruct (output_cell p g0 g' i j Hsq Hdig Hinit Hreach Hexit Hi Hj)
      as [c [Hc [Hd [_ [Hz _]]]]].
    rewrite Forall_forall in Hone. pose proof (Hone c (nth_error_In _ _ Hc)) as Hne.
    cbn beta in Hne.
    destruct (Z.eq_dec (entry (puzzle g') i j) 0) as [E|E]; [|lia].
    apply Hz in E. destruct E as [_ E]. contradiction. }
  destruct Hsq' as [Hl Hrows]. pose proof Hrows as Hrows'.
  rewrite Forall_forall in Hrows'.
  split; [split; [exact (conj Hl Hrows)|split; [|split; [|split]]]|].
  - apply grid_of_entries; [exact (conj Hl Hrows) | exact He].
  - intros i Hi. apply digits_NoDup; [|apply D1; exact Hi].
    apply Forall_forall. intros v Hv. destruct (In_nth _ _ 0 Hv) as [j [Hj Ev]].
    rewrite <- Ev. apply (He i j Hi).
    rewrite (Hrows' (nth i (puzzle g') [])) in Hj; [exact Hj | apply nth_In; lia].
  - intros j Hj. apply digits_NoDup; [|apply D2; exact Hj].
    apply Forall_forall. intros v Hv. apply in_map_iff in Hv.
    destruct Hv as [r [Ev Hr]]. destruct (In_nth _ _ [] Hr) as [i [Hi Er]].
    rewrite <- Ev, <- Er. apply (He i j); [lia | exact Hj].
  - intros i j Hi Hj. apply digits_NoDup; [|apply D3; assumption].
    apply Forall_forall. intros v Hv. unfold sub_block in Hv.
    apply in_flat_map in Hv. destruct Hv as [a [Ha Hv]]. apply in_seq in Ha.
    apply in_map_iff in Hv. destruct Hv as [b [Ev Hb]]. apply in_seq in Hb.
    rewrite <- Ev. apply He; lia.
  - intros i j Hi Hj Hne.
    destruct (output_cell p g0 g' i j Hsq Hdig Hinit Hreach Hexit Hi Hj)
      as [c [_ [_ [Hk _]]]]. apply Hk. exact Hne.
Qed.

Lemma solve_completes_grid_witness :
  complete_grid blank_result /\
  forall i j, (i < 9)%nat -> (j < 9)%nat ->
              entry blank_puzzle i j <> 0 -> entry blank_result i j = entry blank_puzzle i j.
Proof.
  apply (solve_completes_grid 682 blank_puzzle blank_result blank_start).
  - split; [reflexivity | repeat constructor].
  - repeat constructor; lia.
  - apply duplicate_free_by_check; vm_compute; reflexivity.
  - vm_compute. reflexivity.
  - apply no_single_candidate_by_check. vm_compute. reflexivity.
  - vm_compute. reflexivity.
Defined.

(** ** Grids the search cannot finish *)




(** ** A grid without an empty entry *)

Lemma full_cells (p : list (list Z)) (g : SudokuSolver) :
  square 9 p ->
  (forall i j, (i < 9)%nat -> (j < 9)%nat -> 0 < entry p i j) ->
  initialize_board (SudokuSolver_init p) = Ok g ->
  puzzle g = p /\ box_size g = 3 /\ backtrack_coord g = 0 /\
  length (solve_puzzle g) = 81%nat /\
  Forall (fun c => solved c = true /\ possibilities c = []) (solve_puzzle g) /\
  exists c, nth_error (solve_puzzle g) 80 = Some c /\
            row c = 8 /\ column c = 8 /\ current_index c = 0.
Proof.
  intros Hsq Hfull Hinit.
  destruct (board_layout p Hsq) as [g1 [Hg [Hp [Hb [Hk [Hl Hcells]]]]]].
  assert (g1 = g) by congruence. subst g1.
  repeat (split; [assumption|]). split.
  - apply Forall_forall. intros c Hc. apply In_nth_error in Hc. destruct Hc as [n Hn].
    assert (Hlt : (n < 81)%nat) by (rewrite <- Hl; apply nth_error_Some; congruence).
    pose proof (Nat.div_mod_eq n 9) as Hdm.
    assert (Hi : (n / 9 < 9)%nat) by (apply Nat.Div0.div_lt_upper_bound; lia).
    assert (Hj : (n mod 9 < 9)%nat) by (apply Nat.mod_upper_bound; lia).
    destruct (Hcells _ _ Hi Hj) as [c' [Hc' [_ [_ [_ [_ [Hclue _]]]]]]].
    rewrite <- Hdm in Hc'. assert (c' = c) by congruence. subst c'.
    apply Hclue. apply Hfull; assumption.
  - destruct (Hcells 8%nat 8%nat ltac:(lia) ltac:(lia))
      as [c [Hc [Hr [Hcl [_ [Hi _]]]]]].
    exists c. split; [exact Hc|]. split; [exact Hr|]. split; [exact Hcl | exact Hi].
Qed.

Lemma decrement_cell_loop_exit (fuel : nat) (g : SudokuSolver) (k : Z) (c : Cell) :
  py_index (solve_puzzle g) k = Ok c ->
  current_index c <> len (possibilities c) - 1 ->
  decrement_cell_loop fuel g k
  = store_cell g k (with_current_index c (current_index c + 1)).
Proof.
  intros Hc Hne. apply Z.eqb_neq in Hne.
  destruct fuel; cbn [decrement_cell_loop]; rewrite Hc; cbn [bind]; rewrite Hne;
    reflexivity.
Qed.

Section FullGrid.

Variables (p : list (list Z)) (g : SudokuSolver) (c : Cell).
Hypothesis Hsq : square 9 p.
Hypothesis Hfull : forall i j, (i < 9)%nat -> (j < 9)%nat -> 0 < entry p i j.
Hypothesis Hinit : initialize_board (SudokuSolver_init p) = Ok g.
Hypothesis Hc : nth_error (solve_puzzle g) 80 = Some c.

Lemma waiting_start : waiting g c 0 0 = g.
Proof.
  destruct (full_cells p g Hsq Hfull Hinit) as [_ [_ [Hk [_ [_ [c' [Hc' [_ [_ Hi]]]]]]]]].
  assert (c' = c) by congruence. subst c'.
  unfold waiting.
  assert (E : with_current_index c 0 = c) by (destruct c; cbn in Hi; subst; reflexivity).
  rewrite E, (update_same _ _ _ Hc), <- Hk. destruct g; reflexivity.
Qed.

Lemma waiting_last (k n : Z) :
  len (solve_puzzle (waiting g c k n)) = 81 /\
  py_index (solve_puzzle (waiting g c k n)) 80 = Ok (with_current_index c n) /\
  Forall (fun x => solved x = true /\ possibilities x = [])
         (solve_puzzle (waiting g c k n)).
Proof.
  destruct (full_cells p g Hsq Hfull Hinit) as [_ [_ [_ [Hl [Hall _]]]]].
  cbn [solve_puzzle waiting]. split; [|split].
  - rewrite len_update. unfold len. rewrite Hl. reflexivity.
  - rewrite py_index_nonneg by lia. change (Z.to_nat 80) with 80%nat.
    rewrite nth_error_update_eq by lia. reflexivity.
  - apply Forall_update; [exact Hall|].
    rewrite Forall_forall in Hall. apply (Hall c (nth_error_In _ _ Hc)).
Qed.

Lemma waiting_valid (k n : Z) :
  is_valid (with_current_index c n) (waiting g c k n) = Ok (last_cell_valid p).
Proof.
  destruct (full_cells p g Hsq Hfull Hinit)
    as [Hp [Hb [_ [_ [_ [c' [Hc' [Hr [Hcl _]]]]]]]]].
  assert (c' = c) by congruence. subst c'.
  assert (Hstd : standard_board (waiting g c k n)).
  { split; cbn [puzzle box_size waiting]; [rewrite Hp; exact Hsq | exact Hb]. }
  destruct (standard_units (waiting g c k n) 8 8 Hstd ltac:(lia) ltac:(lia)) as [E1 [E2 E3]].
  rewrite (is_valid_Ok _ _ _ _ _) by
      (cbn [row column with_current_index]; rewrite ?Hr, ?Hcl; eassumption).
  cbn [puzzle waiting]. rewrite Hp. reflexivity.
Qed.

Lemma waiting_move (k n : Z) :
  0 <= k <= 80 -> move_forward (waiting g c k n) = Ok (waiting g c 80 n).
Proof.
  intros Hk. destruct (waiting_last k n) as [Hl [_ Hall]].
  destruct (move_forward_result (waiting g c k n)) as [k' [Em [H1 [H2 [H3 [H4 _]]]]]].
  { rewrite Hl. cbn [backtrack_coord waiting]. lia. }
  rewrite Hl in *. cbn [backtrack_coord waiting] in *.
  rewrite Em. f_equal.
  assert (E : k' = 80).
  { destruct (Z.eq_dec k' 80) as [E|Hne]; [exact E|]. exfalso.
    destruct H3 as [x [Hx Hs]]; [lia|].
    apply py_index_Ok in Hx. destruct Hx as [_ Hx]. apply nth_error_In in Hx.
    rewrite Forall_forall in Hall. destruct (Hall x Hx). congruence. }
  rewrite E. reflexivity.
Qed.

Lemma waiting_checked (n : Z) :
  0 <= n ->
  set_cell (waiting g c 80 n) = Ok (80, waiting g c 80 n) /\
  on_cell increment_value 80 (waiting g c 80 n) = Ok (waiting g c 80 n).
Proof.
  intros Hn. destruct (waiting_last 80 n) as [Hl [Hlast Hall]].
  unfold set_cell. cbn [backtrack_coord waiting].
  assert (Hs : solved (with_current_index c n) = true).
  { rewrite Forall_forall in Hall.
    apply py_index_Ok in Hlast. destruct Hlast as [_ Hx].
    destruct (Hall _ (nth_error_In _ _ Hx)) as [Hs _]. exact Hs. }
  assert (Hps : possibilities (with_current_index c n) = []).
  { rewrite Forall_forall in Hall.
    apply py_index_Ok in Hlast. destruct Hlast as [_ Hx].
    destruct (Hall _ (nth_error_In _ _ Hx)) as [_ Hps]. exact Hps. }
  fold (waiting g c 80 n).
  rewrite (on_cell_unchanged set_number 80 (waiting g c 80 n) _ Hlast
             (set_number_fixed _ _ Hs)). cbn [bind].
  split; [reflexivity|].
  apply (on_cell_unchanged increment_value 80 (waiting g c 80 n) _ Hlast).
  rewrite increment_value_unfold, waiting_valid. cbn [bind].
  rewrite Hps. cbn [current_index with_current_index].
  change (len (@nil Z) - 1) with (-1).
  destruct (n <? -1) eqn:E; [apply Z.ltb_lt in E; lia|].
  rewrite andb_false_r. reflexivity.
Qed.

Lemma waiting_round (k n : Z) :
  0 <= k <= 80 -> 0 <= n ->
  solve_step (waiting g c k n)
  = Ok (if last_cell_valid p then waiting g c 81 n else waiting g c 80 (n + 1)).
Proof.
  intros Hk Hn. destruct (waiting_last 80 n) as [Hl [Hlast Hall]].
  destruct (waiting_checked n Hn) as [Hset Hinc].
  unfold solve_step. rewrite (waiting_move k n Hk). cbn [bind].
  rewrite Hset. cbn [bind]. rewrite Hinc. cbn [bind].
  unfold change_cells. rewrite Hlast. cbn [bind].
  rewrite waiting_valid. cbn [bind].
  destruct (last_cell_valid p); [reflexivity|].
  unfold decrement_cell.
  rewrite (decrement_cell_loop_exit _ _ _ _ Hlast).
  - unfold store_cell. rewrite (py_setitem_of_index _ _ _ _ Hlast). cbn [bind].
    rewrite norm_index_nonneg by lia. change (Z.to_nat 80) with 80%nat.
    cbn [solve_puzzle waiting with_solve_puzzle]. rewrite update_update.
    reflexivity.
  - rewrite Forall_forall in Hall.
    apply py_index_Ok in Hlast. destruct Hlast as [_ Hx].
    destruct (Hall _ (nth_error_In _ _ Hx)) as [_ Hps]. rewrite Hps.
    cbn [current_index with_current_index]. change (len (@nil Z) - 1) with (-1). lia.
Qed.

Lemma waiting_for_ever (fuel : nat) :
  last_cell_valid p = false ->
  forall k n, 0 <= k <= 80 -> 0 <= n -> run_solve fuel (waiting g c k n) = Timeout.
Proof.
  intros Hv.
  induction fuel as [|fuel IH]; intros k n Hk Hn;
    destruct (waiting_last k n) as [Hl _]; cbn [run_solve]; rewrite Hl;
    replace (backtrack_coord (waiting g c k n)) with k by reflexivity;
    (destruct (k <=? 81 - 1) eqn:E; [|apply Z.leb_gt in E; lia]).
  - reflexivity.
  - rewrite (waiting_round k n Hk Hn), Hv. cbn [bind]. apply IH; lia.
Qed.

End FullGrid.

(** X17: on a 9 x 9 grid without an empty entry the search looks at the last
    cell only.  When the last row, the last column and the last box hold no
    digit twice, [solve] returns the grid unchanged after one round, whatever
    the other rows, columns and boxes hold; otherwise the last cell is
    rejected round after round and [solve] never returns nor raises. *)
Theorem full_grid_checks_last_cell_only (p : list (list Z)) :
  square 9 p ->
  (forall i j, (i < 9)%nat -> (j < 9)%nat -> 0 < entry p i j) ->
  (last_cell_valid p = true -> forall fuel, solve (S fuel) p = Ok p) /\
  (last_cell_valid p = false -> forall fuel, solve fuel p = Timeout).
Proof.
  intros Hsq Hfull.
  destruct (board_layout p Hsq) as [g [Hinit _]].
  destruct (full_cells p g Hsq Hfull Hinit) as [Hp [_ [_ [_ [_ [c [Hc _]]]]]]].
  pose proof (waiting_start p g c Hsq Hfull Hinit Hc) as Hstart.
  split; intros Hv fuel; unfold solve; rewrite Hinit; cbn [bind]; rewrite <- Hstart.
  - destruct (waiting_last p g c Hsq Hfull Hinit Hc 0 0) as [Hl _].
    destruct (waiting_last p g c Hsq Hfull Hinit Hc 81 0) as [Hl' _].
    cbn [run_solve]. rewrite Hl.
    replace (backtrack_coord (waiting g c 0 0)) with 0 by reflexivity.
    change (0 <=? 81 - 1) with true. cbv iota.
    rewrite (waiting_round p g c Hsq Hfull Hinit Hc 0 0) by lia.
    rewrite Hv. cbn [bind].
    assert (Hend : run_solve fuel (waiting g c 81 0) = Ok (waiting g c 81 0)).
    { destruct fuel; cbn [run_solve]; rewrite Hl';
        replace (backtrack_coord (waiting g c 81 0)) with 81 by reflexivity;
        reflexivity. }
    rewrite Hend. cbn [bind puzzle waiting]. rewrite Hp. reflexivity.
  - rewrite (waiting_for_ever p g c Hsq Hfull Hinit Hc fuel Hv 0 0) by lia.
    reflexivity.
Qed.

Lemma full_grid_checks_last_cell_only_witness :
  (last_cell_valid full_invalid = true ->
   forall fuel, solve (S fuel) full_invalid = Ok full_invalid) /\
  (last_cell_valid full_invalid = false ->
   forall fuel, solve fuel full_invalid = Timeout).
Proof.
  apply (full_grid_checks_last_cell_only full_invalid).
  - split; [reflexivity | repeat constructor].
  - intros i j Hi Hj.
    do 9 (destruct i as [|i]; [do 9 (destruct j as [|j]; [reflexivity|]); lia|]). lia.
Defined.

(** ** Termination of a round, and the exceptions of a run *)

Lemma run_solve_timeout (fuel : nat) :
  forall g, run_solve fuel g = Timeout ->
            exists g', rounds fuel g = Ok g' /\
                       backtrack_coord g' <= len (solve_puzzle g') - 1.
Proof.
  induction fuel as [|fuel IH]; intros g H; cbn [run_solve] in H;
    destruct (backtrack_coord g <=? len (solve_puzzle g) - 1) eqn:E;
    try discriminate.
  - exists g. split; [reflexivity | apply Z.leb_le; exact E].
  - cbn [rounds]. destruct (solve_step g) as [g1|e|] eqn:Es; cbn [bind] in *.
    + apply IH. exact H.
    + discriminate.
    + exfalso. exact (solve_step_finishes g Es).
Qed.

(** X18: every loop inside a round terminates.  [move_forward], [backtrack],
    [increment_value] and [decrement_cell] each return or raise, and so does
    a whole round; a run that does not end is a run of infinitely many
    rounds: whenever the main loop is cut after [fuel] rounds, these rounds
    were all completed and the loop test still holds. *)
Theorem round_always_ends (g : SudokuSolver) (self : Cell) :
  move_forward g <> Timeout /\
  backtrack g <> Timeout /\
  increment_value self g <> Timeout /\
  decrement_cell g (backtrack_coord g) <> Timeout /\
  solve_step g <> Timeout /\
  (forall fuel, run_solve fuel g = Timeout ->
                exists g', rounds fuel g = Ok g' /\
                           backtrack_coord g' <= len (solve_puzzle g') - 1).
Proof.
  split; [apply move_forward_finishes|].
  split; [apply backtrack_finishes|].
  split; [apply increment_value_finishes|].
  split; [unfold decrement_cell; apply decrement_cell_loop_finishes; lia|].
  split; [apply solve_step_finishes|].
  intros fuel. apply run_solve_timeout.
Qed.

Lemma fault_Ok {A : Type} (a : A) : index_fault_only (Ok a).
Proof. intros e H. discriminate. Qed.

Lemma fault_bind {A B : Type} (m : outcome A) (k : A -> outcome B) :
  index_fault_only m -> (forall a, m = Ok a -> index_fault_only (k a)) ->
  index_fault_only (bind m k).
Proof.
  intros Hm Hk e H. destruct m as [a|e'|]; cbn [bind] in H.
  - apply (Hk a eq_refl). exact H.
  - inversion H; subst. apply Hm. reflexivity.
  - discriminate.
Qed.

Lemma fault_py_index {A : Type} (xs : list A) (i : Z) : index_fault_only (py_index xs i).
Proof. intros e H. apply py_index_raise in H. apply H. Qed.

Lemma fault_py_setitem {A : Type} (xs : list A) (i : Z) (v : A) :
  index_fault_only (py_setitem xs i v).
Proof.
  intros e H. unfold py_setitem in H.
  destruct ((0 <=? norm_index xs i) && (norm_index xs i <? len xs)); inversion H.
  reflexivity.
Qed.

Lemma fault_mapM {A B : Type} (f : A -> outcome B) (xs : list A) :
  (forall x, index_fault_only (f x)) -> index_fault_only (mapM f xs).
Proof.
  intros Hf. induction xs as [|x t IH]; cbn [mapM]; [apply fault_Ok|].
  apply fault_bind; [apply Hf|]. intros y _.
  apply fault_bind; [exact IH|]. intros ys _. apply fault_Ok.
Qed.

Lemma fault_foldM {A S : Type} (f : S -> A -> outcome S) (I : S -> Prop) (xs : list A) :
  (forall s x, I s -> index_fault_only (f s x) /\ forall s', f s x = Ok s' -> I s') ->
  forall s, I s -> index_fault_only (foldM f xs s).
Proof.
  intros Hf. induction xs as [|x t IH]; intros s Hs; cbn [foldM]; [apply fault_Ok|].
  destruct (Hf s x Hs) as [H1 H2].
  apply fault_bind; [exact H1|]. intros s' Hs'. apply IH. apply H2. exact Hs'.
Qed.

Lemma fault_get_box (g : SudokuSolver) (r c : Z) :
  box_size g <> 0 -> index_fault_only (get_box g r c).
Proof.
  intros Hb. apply Z.eqb_neq in Hb.
  unfold get_box, get_box_coordinates, find_box_start. rewrite Hb. cbn [bind].
  apply (fault_foldM _ (fun _ => True)); [|exact I].
  intros s x _. split; [|auto].
  apply fault_bind; [apply fault_py_index|]. intros a _. apply fault_Ok.
Qed.

Lemma fault_is_valid (c : Cell) (g : SudokuSolver) :
  box_size g <> 0 -> index_fault_only (is_valid c g).
Proof.
  intros Hb. unfold is_valid.
  apply fault_bind; [apply fault_py_index|]. intros r _.
  apply fault_bind; [apply fault_mapM; intros x; apply fault_py_index|]. intros cl _.
  apply fault_bind; [apply fault_get_box; exact Hb|]. intros b _. apply fault_Ok.
Qed.

Lemma fault_puzzle_set (g : SudokuSolver) (r c v : Z) :
  index_fault_only (puzzle_set g r c v).
Proof.
  unfold puzzle_set.
  apply fault_bind; [apply fault_py_index|]. intros old _.
  apply fault_bind; [apply fault_py_setitem|]. intros new _.
  apply fault_bind; [apply fault_py_setitem|]. intros q _. apply fault_Ok.
Qed.

Lemma fault_set_number (c : Cell) (g : SudokuSolver) : index_fault_only (set_number c g).
Proof.
  unfold set_number. destruct (negb (solved c)); [|apply fault_Ok].
  apply fault_bind; [apply fault_py_index|]. intros v _.
  apply fault_bind; [apply fault_py_index|]. intros w _.
  apply fault_bind; [apply fault_puzzle_set|]. intros g1 _. apply fault_Ok.
Qed.

Lemma fault_Cell_init (column_number row_number num : Z) (g : SudokuSolver) :
  box_size g <> 0 -> index_fault_only (Cell_init column_number row_number num g).
Proof.
  intros Hb. unfold Cell_init. destruct (0 <? num); cbn [negb solved]; [apply fault_Ok|].
  unfold find_possibilities. cbn [row column].
  apply fault_bind; [apply fault_py_index|]. intros r _.
  apply fault_bind; [apply fault_mapM; intros x; apply fault_py_index|]. intros cl _.
  apply fault_bind; [apply fault_get_box; exact Hb|]. intros b _.
  rewrite handle_one_possibility_game. apply fault_Ok.
Qed.

Lemma fault_initialize_board (g : SudokuSolver) :
  box_size g <> 0 -> index_fault_only (initialize_board g).
Proof.
  intros Hb. unfold initialize_board.
  apply (fault_foldM _ (fun s => box_size s <> 0)); [|exact Hb].
  intros s r Hs. split.
  - apply fault_bind; [apply fault_py_index|]. intros x _.
    apply (fault_foldM _ (fun s => box_size s <> 0)); [|exact Hs].
    intros s1 c Hs1. unfold initialize_cell. split.
    + apply fault_bind; [apply fault_py_index|]. intros x1 _.
      apply fault_bind; [apply fault_py_index|]. intros item _.
      apply fault_bind; [apply fault_Cell_init; exact Hs1|]. intros [cell g1] _.
      apply fault_Ok.
    + intros s2 H.
      apply bind_Ok in H. destruct H as [x1 [_ H]].
      apply bind_Ok in H. destruct H as [item [_ H]].
      apply bind_Ok in H. destruct H as [[cell g1] [Hinit H]].
      inversion H; subst s2. apply Cell_init_game in Hinit. destruct Hinit as [-> _].
      exact Hs1.
  - intros s' H. apply bind_Ok in H. destruct H as [x [_ H]].
    apply (foldM_invariant _ (fun s => box_size s <> 0) _) in H; [exact H | | exact Hs].
    intros s1 c s2 Hs1 Hcell. unfold initialize_cell in Hcell.
    apply bind_Ok in Hcell. destruct Hcell as [x1 [_ Hcell]].
    apply bind_Ok in Hcell. destruct Hcell as [item [_ Hcell]].
    apply bind_Ok in Hcell. destruct Hcell as [[cell g1] [Hinit Hcell]].
    inversion Hcell; subst s2. apply Cell_init_game in Hinit. destruct Hinit as [-> _].
    exact Hs1.
Qed.

Lemma increment_value_loop_box (fuel : nat) :
  forall (self self' : Cell) (g g' : SudokuSolver),
    increment_value_loop fuel self g = Ok (self', g') -> box_size g' = box_size g.
Proof.
  induction fuel as [|fuel IH]; intros self self' g g' H;
    cbn [increment_value_loop] in H;
    apply bind_Ok in H; destruct H as [v [_ H]];
    destruct (negb v && (current_index self <? len (possibilities self) - 1));
    try discriminate; try (inversion H; subst; reflexivity).
  apply bind_Ok in H. destruct H as [[self2 g2] [Hs H]].
  apply set_number_static in Hs. destruct Hs as [_ [_ [_ [_ [_ [_ [Hb _]]]]]]].
  apply IH in H. congruence.
Qed.

Lemma on_cell_box (m : Cell -> SudokuSolver -> outcome (Cell * SudokuSolver))
      (k : Z) (g g' : SudokuSolver) :
  (forall c c' g1 g1', m c g1 = Ok (c', g1') -> box_size g1' = box_size g1) ->
  on_cell m k g = Ok g' -> box_size g' = box_size g.
Proof.
  intros Hm H. unfold on_cell in H.
  apply bind_Ok in H. destruct H as [c [_ H]].
  apply bind_Ok in H. destruct H as [[c1 g1] [Hc H]].
  apply Hm in Hc. apply store_cell_inv in H. rewrite H. exact Hc.
Qed.

Lemma puzzle_set_box (g g' : SudokuSolver) (r c v : Z) :
  puzzle_set g r c v = Ok g' -> box_size g' = box_size g.
Proof.
  intros H. unfold puzzle_set in H.
  apply bind_Ok in H. destruct H as [old [_ H]].
  apply bind_Ok in H. destruct H as [new [_ H]].
  apply bind_Ok in H. destruct H as [q [_ H]]. inversion H. reflexivity.
Qed.

Lemma reset_cell_box (g g' : SudokuSolver) (k : Z) :
  reset_cell g k = Ok g' -> box_size g' = box_size g.
Proof.
  intros H. unfold reset_cell in H.
  apply bind_Ok in H. destruct H as [c [_ H]].
  apply bind_Ok in H. destruct H as [g1 [Hs H]].
  apply store_cell_inv in Hs. apply puzzle_set_box in H. rewrite H, Hs. reflexivity.
Qed.

Lemma decrement_cell_loop_box (fuel : nat) :
  forall (g g' : SudokuSolver) (k : Z),
    decrement_cell_loop fuel g k = Ok g' -> box_size g' = box_size g.
Proof.
  induction fuel as [|fuel IH]; intros g g' k H;
    cbn [decrement_cell_loop] in H;
    apply bind_Ok in H; destruct H as [c [_ H]];
    destruct (current_index c =? len (possibilities c) - 1);
    try discriminate;
    try (apply store_cell_inv in H; rewrite H; reflexivity).
  apply bind_Ok in H. destruct H as [g1 [Hreset H]].
  apply bind_Ok in H. destruct H as [g2 [Hback H]].
  apply reset_cell_box in Hreset. apply backtrack_inv in Hback.
  destruct Hback as [k2 [Eg2 _]]. apply IH in H. rewrite H, Eg2. exact Hreset.
Qed.

Lemma solve_step_parts (g g' : SudokuSolver) :
  solve_step g = Ok g' ->
  exists g1 g3 k,
    move_forward g = Ok g1 /\ box_size g1 = box_size g /\
    box_size g3 = box_size g /\ change_cells g3 k = Ok g' /\ box_size g' = box_size g.
Proof.
  intros H. unfold solve_step in H.
  apply bind_Ok in H. destruct H as [g1 [Hmove H]].
  apply bind_Ok in H. destruct H as [[k g2] [Hset H]].
  apply bind_Ok in H. destruct H as [g3 [Hinc Hchange]].
  assert (B1 : box_size g1 = box_size g).
  { pose proof (move_forward_spec g) as Hm. rewrite Hmove in Hm.
    destruct Hm as [k' [-> _]]. reflexivity. }
  assert (B2 : box_size g2 = box_size g1).
  { unfold set_cell in Hset. apply bind_Ok in Hset. destruct Hset as [x [Hx Hset]].
    inversion Hset; subst. apply (on_cell_box set_number _ _ _) in Hx; [exact Hx|].
    intros c c' s s' Hs. apply set_number_static in Hs. apply Hs. }
  assert (B3 : box_size g3 = box_size g2).
  { apply (on_cell_box increment_value _ _ _) in Hinc; [exact Hinc|].
    intros c c' s s' Hs. apply (increment_value_loop_box _ _ _ _ _ Hs). }
  exists g1, g3, k. split; [exact Hmove|]. split; [exact B1|].
  split; [congruence|]. split; [exact Hchange|].
  unfold change_cells in Hchange.
  apply bind_Ok in Hchange. destruct Hchange as [c [_ Hchange]].
  apply bind_Ok in Hchange. destruct Hchange as [v [_ Hchange]].
  destruct v.
  - inversion Hchange. cbn [box_size with_backtrack_coord]. congruence.
  - apply decrement_cell_loop_box in Hchange. congruence.
Qed.

Lemma fault_store_cell (g : SudokuSolver) (k : Z) (c : Cell) :
  index_fault_only (store_cell g k c).
Proof.
  unfold store_cell. apply fault_bind; [apply fault_py_setitem|].
  intros cs _. apply fault_Ok.
Qed.

Lemma fault_on_cell (m : Cell -> SudokuSolver -> outcome (Cell * SudokuSolver))
      (k : Z) (g : SudokuSolver) :
  (forall c, index_fault_only (m c g)) -> index_fault_only (on_cell m k g).
Proof.
  intros Hm. unfold on_cell. apply fault_bind; [apply fault_py_index|]. intros c _.
  apply fault_bind; [apply Hm|]. intros [c1 g1] _. apply fault_store_cell.
Qed.

Lemma fault_increment_value_loop (fuel : nat) :
  forall (self : Cell) (g : SudokuSolver),
    box_size g <> 0 -> index_fault_only (increment_value_loop fuel self g).
Proof.
  induction fuel as [|fuel IH]; intros self g Hb; cbn [increment_value_loop];
    (apply fault_bind; [apply fault_is_valid; exact Hb|]); intros v _;
    destruct (negb v && (current_index self <? len (possibilities self) - 1));
    try apply fault_Ok.
  - intros e H. discriminate.
  - apply fault_bind; [apply fault_set_number|]. intros [self2 g2] Hs.
    apply IH. apply set_number_static in Hs.
    destruct Hs as [_ [_ [_ [_ [_ [_ [Hb2 _]]]]]]]. congruence.
Qed.

Lemma fault_move_forward_loop (fuel : nat) :
  forall g, index_fault_only (move_forward_loop fuel g).
Proof.
  induction fuel as [|fuel IH]; intros g; cbn [move_forward_loop];
    (destruct (backtrack_coord g <? len (solve_puzzle g) - 1); [|apply fault_Ok]);
    (apply fault_bind; [apply fault_py_index|]); intros c _;
    (destruct (solved c); [|apply fault_Ok]).
  - intros e H. discriminate.
  - apply IH.
Qed.

Lemma fault_backtrack (g : SudokuSolver) : index_fault_only (backtrack g).
Proof.
  intros e H. pose proof (backtrack_spec g) as Hs. rewrite H in Hs. apply Hs.
Qed.

Lemma fault_reset_cell (g : SudokuSolver) (k : Z) : index_fault_only (reset_cell g k).
Proof.
  unfold reset_cell. apply fault_bind; [apply fault_py_index|]. intros c _.
  apply fault_bind; [apply fault_store_cell|]. intros g1 _. apply fault_puzzle_set.
Qed.

Lemma fault_decrement_cell_loop (fuel : nat) :
  forall g k, index_fault_only (decrement_cell_loop fuel g k).
Proof.
  induction fuel as [|fuel IH]; intros g k; cbn [decrement_cell_loop];
    (apply fault_bind; [apply fault_py_index|]); intros c _;
    (destruct (current_index c =? len (possibilities c) - 1);
     [|apply fault_store_cell]).
  - intros e H. discriminate.
  - apply fault_bind; [apply fault_reset_cell|]. intros g1 _.
    apply fault_bind; [apply fault_backtrack|]. intros g2 _. apply IH.
Qed.

Lemma fault_solve_step (g : SudokuSolver) :
  box_size g <> 0 -> index_fault_only (solve_step g).
Proof.
  intros Hb. unfold solve_step.
  apply fault_bind; [apply fault_move_forward_loop|]. intros g1 Hmove.
  assert (B1 : box_size g1 = box_size g).
  { pose proof (move_forward_spec g) as Hm. rewrite Hmove in Hm.
    destruct Hm as [k' [-> _]]. reflexivity. }
  apply fault_bind.
  { unfold set_cell. apply fault_bind; [|intros x _; apply fault_Ok].
    apply fault_on_cell. intros c. apply fault_set_number. }
  intros [k g2] Hset.
  assert (B2 : box_size g2 = box_size g1).
  { unfold set_cell in Hset. apply bind_Ok in Hset. destruct Hset as [x [Hx Hset]].
    inversion Hset; subst. apply (on_cell_box set_number _ _ _) in Hx; [exact Hx|].
    intros c c' s s' Hs. apply set_number_static in Hs. apply Hs. }
  apply fault_bind.
  { apply fault_on_cell. intros c. apply fault_increment_value_loop. congruence. }
  intros g3 Hinc.
  assert (B3 : box_size g3 = box_size g2).
  { apply (on_cell_box increment_value _ _ _) in Hinc; [exact Hinc|].
    intros c c' s s' Hs. apply (increment_value_loop_box _ _ _ _ _ Hs). }
  unfold change_cells. apply fault_bind; [apply fault_py_index|]. intros c _.
  apply fault_bind; [apply fault_is_valid; congruence|]. intros v _.
  destruct v; [apply fault_Ok | apply fault_decrement_cell_loop].
Qed.

Lemma fault_run_solve (fuel : nat) :
  forall g, box_size g <> 0 -> index_fault_only (run_solve fuel g).
Proof.
  induction fuel as [|fuel IH]; intros g Hb; cbn [run_solve];
    (destruct (backtrack_coord g <=? len (solve_puzzle g) - 1); [|apply fault_Ok]).
  - intros e H. discriminate.
  - apply fault_bind; [apply fault_solve_step; exact Hb|]. intros g1 Hstep.
    apply IH. destruct (solve_step_parts g g1 Hstep) as [_ [_ [_ [_ [_ [_ [_ E]]]]]]].
    congruence.
Qed.

(** X19: the only exception [solve] raises is [IndexError].  The division in
    [find_box_start] never fails: the box size is 0 for a grid without rows
    only, and such a grid has no cell.  (So a grid the search cannot finish
    shows as an [IndexError] or as a run without end.) *)
Theorem solve_raises_index_error_only (fuel : nat) (p : list (list Z)) (e : exn) :
  solve fuel p = Raise e -> e = IndexError.
Proof.
  destruct p as [|r t].
  - intros H. destruct (solve_grid_without_rows fuel) as [_ Hs].
    rewrite Hs in H. discriminate.
  - assert (Hb : box_size (SudokuSolver_init (r :: t)) <> 0).
    { cbn [box_size SudokuSolver_init].
      assert (0 < Z.sqrt (len (r :: t))); [|lia].
      apply Z.sqrt_pos. unfold len. cbn [length]. lia. }
    revert e. change (index_fault_only (solve fuel (r :: t))). unfold solve.
    apply fault_bind; [apply fault_initialize_board; exact Hb|]. intros g0 Hinit.
    apply fault_bind; [|intros g1 _; apply fault_Ok].
    apply fault_run_solve.
    apply initialize_board_inv in Hinit. destruct Hinit as [cells [-> _]]. exact Hb.
Qed.

Lemma solve_raises_index_error_only_witness : IndexError = IndexError.
Proof.
  apply (solve_raises_index_error_only 1 dead_puzzle IndexError).
  vm_compute. reflexivity.
Defined.

(** X20: what one round of the main loop ([SudokuSolver.solve]) changes, in a
    well-formed state (candidate indices, coordinates and box size that are
    not negative, cells at distinct coordinates).  The state stays
    well-formed; every cell keeps its fixed flag, candidates and coordinate;
    the cursor ends at most one position after the cell [move_forward]
    stopped at; the grid keeps its shape, and an entry changes only by being
    cleared to 0 or at the coordinate of an open cell. *)
Theorem round_effect (g g' : SudokuSolver) :
  well_formed g -> solve_step g = Ok g' ->
  well_formed g' /\
  box_size g' = box_size g /\
  map static (solve_puzzle g') = map static (solve_puzzle g) /\
  (exists k1, move_forward g = Ok (with_backtrack_coord g k1) /\
              backtrack_coord g' <= k1 + 1) /\
  (forall n, square n (puzzle g) -> square n (puzzle g')) /\
  (forall i j,
      entry (puzzle g') i j = entry (puzzle g) i j \/
      entry (puzzle g') i j = 0 \/
      exists n c, nth_error (solve_puzzle g) n = Some c /\
                  row c = Z.of_nat i /\ column c = Z.of_nat j /\ solved c = false).
Proof.
  intros W Hstep.
  destruct (solve_step_effect g g' Hstep W) as [W' [_ [_ [_ Hs]]]].
  destruct (solve_step_cursor g g' Hstep W) as [k1 [c [Hm [_ [_ [_ [_ [Hk Hb]]]]]]]].
  destruct (solve_step_entries g g' Hstep W) as [He Hsq].
  split; [exact W'|]. split; [exact Hb|]. split; [exact Hs|].
  split; [exists k1; split; assumption|]. split; assumption.
Qed.

Lemma round_effect_witness :
  well_formed (state_or easy_start (solve_step easy_start)) /\
  box_size (state_or easy_start (solve_step easy_start)) = box_size easy_start /\
  map static (solve_puzzle (state_or easy_start (solve_step easy_start)))
  = map static (solve_puzzle easy_start) /\
  (exists k1, move_forward easy_start = Ok (with_backtrack_coord easy_start k1) /\
              backtrack_coord (state_or easy_start (solve_step easy_start)) <= k1 + 1) /\
  (forall n, square n (puzzle easy_start) ->
             square n (puzzle (state_or easy_start (solve_step easy_start)))) /\
  (forall i j,
      entry (puzzle (state_or easy_start (solve_step easy_start))) i j
      = entry (puzzle easy_start) i j \/
      entry (puzzle (state_or easy_start (solve_step easy_start))) i j = 0 \/
      exists n c, nth_error (solve_puzzle easy_start) n = Some c /\
                  row c = Z.of_nat i /\ column c = Z.of_nat j /\ solved c = false).
Proof.
  apply (round_effect easy_start (state_or easy_start (solve_step easy_start))).
  - apply (reachable_well_formed easy_puzzle). apply reach_start.
    vm_compute. reflexivity.
  - vm_compute. reflexivity.
Defined.

Lemma solution_complete : complete_grid solution.
Proof.
  split; [split; [reflexivity | repeat constructor]|].
  split; [repeat constructor; lia|].
  split; [|split].
  - intros i Hi.
    do 9 (destruct i as [|i]; [nodup_by_check|]). lia.
  - intros j Hj.
    do 9 (destruct j as [|j]; [nodup_by_check|]). lia.
  - intros i j Hi Hj.
    do 3 (destruct i as [|i];
          [do 3 (destruct j as [|j]; [nodup_by_check|]); lia|]). lia.
Qed.

(** C2: on [classic_puzzle], [solve] returns (after [classic_rounds] rounds of
    the main loop, and with any larger fuel) a grid whose first row is
    [5,3,4,6,7,8,9,1,2] and whose last row is [3,4,5,2,8,6,1,7,9], but which
    is not a completion: four entries are still 0.  The grid the source calls
    [solution] is a completion of the puzzle, and the grid returned is that
    completion with those four entries cleared. *)
Theorem solve_classic_puzzle :
  (forall extra : nat,
      solve (classic_rounds + extra) classic_puzzle = Ok classic_result)
  /\ nth 0 classic_result [] = [5; 3; 4; 6; 7; 8; 9; 1; 2]
  /\ nth 8 classic_result [] = [3; 4; 5; 2; 8; 6; 1; 7; 9]
  /\ entry classic_result 4 4 = 0 /\ entry classic_result 6 5 = 0
  /\ entry classic_result 6 8 = 0 /\ entry classic_result 7 7 = 0
  /\ classic_result <> solution
  /\ complete_grid solution
  /\ cleared solution classic_puzzle
  /\ classic_result
     = grid_set (grid_set (grid_set (grid_set solution 4 4 0) 6 5 0) 6 8 0) 7 7 0.
Proof.
  split.
  - intros extra. apply solve_more_fuel. vm_compute. reflexivity.
  - repeat (split; [reflexivity|]). split; [discriminate|].
    split; [exact solution_complete|]. split; [|reflexivity].
    unfold cleared, faded.
    repeat first [ apply Forall2_nil | apply Forall2_cons
                 | left; reflexivity | right; reflexivity ].
Qed.
